(** * math-utils: the numeric computation kernel of [src/index.js]

    A shallow embedding of the [Statistics], [NumberTheory] and [Matrix]
    objects of [src/index.js], of the reductions of [BasicMath] and of
    [Geometry.distance]; the properties its specification states about
    them, and further properties of the code.

    Conventions of the embedding.

    - A JavaScript call either returns a value or throws; recursion and loops
      are bounded by a fuel argument, so a call has one of three outcomes
      ([Ok], [Thrown], [OutOfFuel]).  Every result below is stated for all
      sufficiently large fuel.
    - A number of the program is an IEEE-754 binary64 double, modelled by
      Rocq's primitive [float]; [+], [-], [*], [/] and [Math.sqrt] are the
      correctly rounded operations, and [===] and [<] the IEEE comparisons.
      Matrix entries, the statistics, the reductions of [BasicMath], the
      elements of [fibonacciSequence] and [factorial] are read on doubles.
    - [isPrime], [isPerfect], [gcd], [lcm], the counts of [mode] and the
      count given to [fibonacciSequence] work on integers, on which the
      operations they use ([%], comparisons, counting, sums and products of
      small numbers) are exact in doubles.  There an integer-valued number is
      modelled by its value in [Z]; [%] is the truncated remainder [Z.rem],
      and the one division that need not be exact, in [lcm], keeps its [NaN]
      and infinite results.
    - The frequency table of [mode] is an object whose property keys are
      the strings of the numbers counted; a key is modelled by the double it
      prints (with 0 for -0), so [mode] is read on all doubles.
    - [factorial], [mean], [standardDeviation], [sumOfSquares] and [distance]
      are written once over an interface of arithmetic operations, and read
      at the doubles (the program) and at exact numbers (the integers, the
      reals). *)

From Stdlib Require Import ZArith QArith Qreduction String Lia.
From Stdlib Require Import Floats Reals Lra Sorted.
From stdpp Require Import base list.

#[local] Open Scope Z_scope.

(** ** Outcomes of a call *)

Inductive exn : Type :=
| Error (msg : string)          (* [throw new Error(msg)] *)
| TypeError.                    (* a property read on [undefined] *)

Inductive outcome (A : Type) : Type :=
| Ok (a : A)
| Thrown (e : exn)
| OutOfFuel.

Arguments Ok {A} a.
Arguments Thrown {A} e.
Arguments OutOfFuel {A}.

#[global] Instance outcome_bind : MBind outcome := fun A B k m =>
  match m with
  | Ok a => k a
  | Thrown e => Thrown e
  | OutOfFuel => OutOfFuel
  end.

#[global] Instance outcome_ret : MRet outcome := fun A a => Ok a.

(** The value of [x / y] for integer-valued operands. *)
Inductive number : Type :=
| Finite (q : Q)
| PosInfinity
| NegInfinity
| NaN.

Definition js_div (x y : Z) : number :=
  if y =? 0 then
    if x =? 0 then NaN else if 0 <? x then PosInfinity else NegInfinity
  else Finite (Qred (inject_Z x / inject_Z y)).

(** The operations [factorial] uses: [0], [1], [-], [*], [<] and [===]. *)
Class Numeric (T : Type) : Type := {
  n_zero : T;
  n_one : T;
  n_sub : T -> T -> T;
  n_mul : T -> T -> T;
  n_ltb : T -> T -> bool;
  n_eqb : T -> T -> bool
}.

(** Exact integers. *)
#[global] Instance Z_numeric : Numeric Z := {
  n_zero := 0;
  n_one := 1;
  n_sub := Z.sub;
  n_mul := Z.mul;
  n_ltb := Z.ltb;
  n_eqb := Z.eqb
}.

(** IEEE-754 binary64, the numbers of the program. *)
#[global] Instance float_numeric : Numeric float := {
  n_zero := 0%float;
  n_one := 1%float;
  n_sub := PrimFloat.sub;
  n_mul := PrimFloat.mul;
  n_ltb := PrimFloat.ltb;
  n_eqb := PrimFloat.eqb
}.


(** The integer a double holds, when it is finite and integral. *)
Definition integer_value (x : float) : option Z :=
  match Prim2SF x with
  | S754_zero _ => Some 0
  | S754_finite s m e =>
      let v := if s then Z.neg m else Z.pos m in
      if 0 <=? e then Some (v * 2 ^ e)
      else if v mod 2 ^ (- e) =? 0 then Some (v / 2 ^ (- e))
      else None
  | _ => None
  end.

(** ** Arrays *)

(** An array element as the program reads it: a number, or [undefined] (a
    read past the end of an array). *)
Inductive value : Type :=
| Num (x : float)
| Undefined.

(** The conversion of a value to a number: [undefined] converts to [NaN]. *)
Definition to_number (v : value) : float :=
  match v with
  | Num x => x
  | Undefined => nan
  end.

(** [v + w] and [v * w]. *)
Definition js_add (v w : value) : value :=
  Num (PrimFloat.add (to_number v) (to_number w)).

Definition js_mul (v w : value) : value :=
  Num (PrimFloat.mul (to_number v) (to_number w)).

Abbreviation matrix := (list (list value)).

(** [arr[i]] where the result is used as an object: reading a property of
    [undefined] throws a [TypeError]. *)
Definition row (m : matrix) (i : nat) : outcome (list value) :=
  match m !! i with
  | Some r => Ok r
  | None => Thrown TypeError
  end.

(** [r[j]] used as a value. *)
Definition get (r : list value) (j : nat) : value :=
  match r !! j with
  | Some v => v
  | None => Undefined
  end.

(** [r[j] = v]: an assignment past the end extends the array. *)
Definition array_set (r : list value) (j : nat) (v : value) : list value :=
  if decide (j < length r)%nat then <[j := v]> r
  else r ++ replicate (j - length r) Undefined ++ [v].

(** [m[i][j] = v]. *)
Definition set_entry (m : matrix) (i j : nat) (v : value) : outcome matrix :=
  r ← row m i; Ok (<[i := array_set r j v]> m).

(** [for (let i = 0; i < n; i++) body], the state threaded through:
    [for_each body (seq 0 n)]. *)
Fixpoint for_each {S : Type} (body : nat -> S -> outcome S) (l : list nat) (s : S)
  : outcome S :=
  match l with
  | [] => Ok s
  | i :: l' => s' ← body i s; for_each body l' s'
  end.

(** [arr.map((x, i) => f i x)] for a callback that may throw. *)
Fixpoint map_rows {A B : Type} (f : nat -> A -> outcome B) (i : nat) (l : list A)
  : outcome (list B) :=
  match l with
  | [] => Ok []
  | x :: l' => y ← f i x; ys ← map_rows f (S i) l'; Ok (y :: ys)
  end.

(** ** Number theory *)

Module NumberTheory.

(** [isPrime]: the loop [for (let i = 5; i * i <= n; i += 6)]. *)
Fixpoint isPrime_loop (fuel : nat) (n i : Z) : outcome bool :=
  match fuel with
  | O => OutOfFuel
  | S fuel' =>
      if i * i <=? n then
        if (Z.rem n i =? 0) || (Z.rem n (i + 2) =? 0) then Ok false
        else isPrime_loop fuel' n (i + 6)
      else Ok true
  end.

Definition isPrime (fuel : nat) (n : Z) : outcome bool :=
  if n <=? 1 then Ok false
  else if n <=? 3 then Ok true
  else if (Z.rem n 2 =? 0) || (Z.rem n 3 =? 0) then Ok false
  else isPrime_loop fuel n 5.

Definition factorial_message : string :=
  "Factorial is undefined for negative numbers".

(** [factorial] is written once over the operations it uses and read at the
    integers and at the doubles. *)
Fixpoint factorial {T : Type} `{Numeric T} (fuel : nat) (n : T) : outcome T :=
  match fuel with
  | O => OutOfFuel
  | S fuel' =>
      if n_ltb n n_zero then Thrown (Error factorial_message)
      else if n_eqb n n_zero || n_eqb n n_one then Ok n_one
      else r ← factorial fuel' (n_sub n n_one); Ok (n_mul n r)
  end.

Fixpoint gcd (fuel : nat) (a b : Z) : outcome Z :=
  match fuel with
  | O => OutOfFuel
  | S fuel' => if b =? 0 then Ok a else gcd fuel' b (Z.rem a b)
  end.

(** [Math.abs(a * b) / this.gcd(a, b)].  The product is taken exactly: it is
    the product of the program while [|a * b| <= 2^53], the range on which
    the value of a non-zero quotient is stated below. *)
Definition lcm (fuel : nat) (a b : Z) : outcome number :=
  g ← gcd fuel a b; Ok (js_div (Z.abs (a * b)) g).

(** [fibonacciSequence(n)] for an integer count [n]; the elements are numbers
    of the program.  The loop [for (let i = 2; i < n; i++)] runs over
    [i = 2, ..., n - 1] and assigns [sequence[i]]. *)
Definition fibonacciSequence (n : Z) : list value :=
  if n <=? 0 then []
  else if n =? 1 then [Num 0%float]
  else if n =? 2 then [Num 0%float; Num 1%float]
  else
    fold_left (fun sequence i =>
                 array_set sequence i
                   (js_add (get sequence (i - 1)) (get sequence (i - 2))))
              (seq 2 (Z.to_nat n - 2)) [Num 0%float; Num 1%float].



End NumberTheory.

(** ** Matrices *)

(** [v - w]. *)
Definition js_sub (v w : value) : value :=
  Num (PrimFloat.sub (to_number v) (to_number w)).

Module Matrix.

Definition zeros (rows cols : nat) : matrix :=
  replicate rows (replicate cols (Num 0%float)).

Definition identity (size : nat) : outcome matrix :=
  for_each (fun i m => set_entry m i i (Num 1%float)) (seq 0 size)
           (zeros size size).

Definition add_message : string :=
  "Both matrices must have the same dimensions".

Definition add (a b : matrix) : outcome matrix :=
  if negb (length a =? length b)%nat then Thrown (Error add_message)
  else
    a0 ← row a 0;
    b0 ← row b 0;
    if negb (length a0 =? length b0)%nat then Thrown (Error add_message)
    else
      map_rows (fun i r => bi ← row b i;
                           Ok (imap (fun j val => js_add val (get bi j)) r)) 0 a.

Definition multiply_message : string :=
  "Number of columns in matrix A must equal number of rows in matrix B".

(** [result[i][j] += a[i][k] * b[k][j]]. *)
Definition multiply_step (a b : matrix) (i j k : nat) (result : matrix)
  : outcome matrix :=
  ri ← row result i;
  ai ← row a i;
  bk ← row b k;
  set_entry result i j (js_add (get ri j) (js_mul (get ai k) (get bk j))).

Definition multiply (a b : matrix) : outcome matrix :=
  a0 ← row a 0;
  if negb (length a0 =? length b)%nat then Thrown (Error multiply_message)
  else
    b0 ← row b 0;
    for_each (fun i =>
      for_each (fun j =>
        for_each (fun k => multiply_step a b i j k) (seq 0 (length b)))
        (seq 0 (length b0)))
      (seq 0 (length a)) (zeros (length a) (length b0)).

Definition transpose (m : matrix) : outcome matrix :=
  m0 ← row m 0;
  Ok (imap (fun colIndex _ => (fun r => get r colIndex) <$> m) m0).

Definition determinant_message : string := "Matrix must be 2x2".

Definition determinant2x2 (m : matrix) : outcome value :=
  if negb (length m =? 2)%nat then Thrown (Error determinant_message)
  else
    m0 ← row m 0;
    if negb (length m0 =? 2)%nat then Thrown (Error determinant_message)
    else
      m1 ← row m 1;
      Ok (js_sub (js_mul (get m0 0) (get m1 1)) (js_mul (get m0 1) (get m1 0))).

End Matrix.

(** A matrix of numbers, as an array of arrays of values. *)
Definition of_numbers (m : list (list float)) : matrix :=
  (fun r : list float => Num <$> r) <$> m.

(** ** Statistics *)

(** *** Objects used as frequency tables

    [frequency[num]] converts the number to a property key, a string, with
    ToString.  ToString gives the string 0 for both zeros and one string for
    [NaN], and is one-to-one on the other numbers, [Number] of the string
    giving the number back (ECMAScript, Number::toString).  A key made from a
    number is therefore modelled by that number, with -0 replaced by 0;
    two keys are the same string when they are the same double, and [Number]
    of a key is the double itself.  A key is an array index when it prints an
    integer from 0 to 2^32 - 2.  [Object.keys] and [Object.values] list the
    keys that are array indices first, in ascending order of the index, and
    then the other keys in the order of their creation; an object is
    modelled by these two association lists. *)

Definition key : Type := float.

(** ToString of a number used as a property key. *)
Definition to_key (num : float) : key :=
  if PrimFloat.eqb num 0 then 0%float else num.

(** [Number(key)]. *)
Definition Number_of_key (k : key) : float := k.

Definition key_eqb (k k' : key) : bool := PrimFloat.Leibniz.eqb k k'.

Definition is_array_index (k : key) : bool :=
  match Prim2SF k, integer_value k with
  | S754_zero false, _ => true
  | S754_finite false _ _, Some index => index <? 2 ^ 32 - 1
  | _, _ => false
  end.

Record object : Type := mkObject {
  indexed : list (key * Z);    (* array-index keys, ascending *)
  named : list (key * Z)       (* other keys, in creation order *)
}.

Definition empty_object : object := mkObject [] [].

Fixpoint assoc_get (l : list (key * Z)) (k : key) : option Z :=
  match l with
  | [] => None
  | (k', v) :: l' => if key_eqb k' k then Some v else assoc_get l' k
  end.

Fixpoint insert_ascending (l : list (key * Z)) (k : key) (v : Z)
  : list (key * Z) :=
  match l with
  | [] => [(k, v)]
  | (k', v') :: l' =>
      if PrimFloat.ltb k k' then (k, v) :: l
      else if key_eqb k k' then (k, v) :: l'
      else (k', v') :: insert_ascending l' k v
  end.

Fixpoint update_or_append (l : list (key * Z)) (k : key) (v : Z)
  : list (key * Z) :=
  match l with
  | [] => [(k, v)]
  | (k', v') :: l' =>
      if key_eqb k k' then (k, v) :: l'
      else (k', v') :: update_or_append l' k v
  end.

(** [o[k]]; [None] is [undefined]. *)
Definition object_get (o : object) (k : key) : option Z :=
  if is_array_index k then assoc_get (indexed o) k else assoc_get (named o) k.

(** [o[k] = v]. *)
Definition object_set (o : object) (k : key) (v : Z) : object :=
  if is_array_index k
  then mkObject (insert_ascending (indexed o) k v) (named o)
  else mkObject (indexed o) (update_or_append (named o) k v).

Definition object_keys (o : object) : list key :=
  (indexed o).*1 ++ (named o).*1.

Definition object_values (o : object) : list Z :=
  (indexed o).*2 ++ (named o).*2.

(** [x || 0] for a count or [undefined]. *)
Definition or_zero (x : option Z) : Z :=
  match x with
  | Some c => if c =? 0 then 0 else c
  | None => 0
  end.

(** [Math.max(...vs)] of integers: [-Infinity] when there is no argument. *)
Inductive max_result : Type :=
| MinusInfinity
| MaxIs (z : Z).

Definition math_max (vs : list Z) : max_result :=
  fold_left (fun acc v => match acc with
                          | MinusInfinity => MaxIs v
                          | MaxIs m => MaxIs (Z.max m v)
                          end) vs MinusInfinity.

(** [x === m] for a property value [x] and the result of [Math.max]. *)
Definition strict_equal (x : option Z) (m : max_result) : bool :=
  match x, m with
  | Some c, MaxIs z => c =? z
  | _, _ => false
  end.

(** *** Arithmetic of the host

    The operations [mean] and [standardDeviation] use, as an interface:
    [0], [+], [-], [/], [Math.pow(x, 2)], [Math.sqrt] and the conversion of an
    array length to a number. *)
Class Arithmetic (T : Type) : Type := {
  a_zero : T;
  a_add : T -> T -> T;
  a_sub : T -> T -> T;
  a_div : T -> T -> T;
  a_square : T -> T;
  a_sqrt : T -> T;
  a_of_length : nat -> T
}.

(** IEEE-754 binary64, the numbers of the program.  [Math.pow(x, 2)] is read
    as the correctly rounded square [x * x]. *)
#[global] Instance float_arithmetic : Arithmetic float := {
  a_zero := 0%float;
  a_add := PrimFloat.add;
  a_sub := PrimFloat.sub;
  a_div := PrimFloat.div;
  a_square := fun x => PrimFloat.mul x x;
  a_sqrt := PrimFloat.sqrt;
  a_of_length := fun n => PrimFloat.of_uint63 (Uint63.of_Z (Z.of_nat n))
}.

(** Exact arithmetic on the real numbers. *)
#[global] Instance real_arithmetic : Arithmetic R := {
  a_zero := 0%R;
  a_add := Rplus;
  a_sub := Rminus;
  a_div := Rdiv;
  a_square := fun x => (x * x)%R;
  a_sqrt := R_sqrt.sqrt;
  a_of_length := INR
}.

(** [arr.reduce(f, init)] for a callback that may throw, and [arr.reduce(f)]:
    with no initial value the first element starts the accumulation, and the
    empty array is a [TypeError]. *)
Fixpoint reduce_from {A B : Type} (f : B -> A -> outcome B) (l : list A) (acc : B)
  : outcome B :=
  match l with
  | [] => Ok acc
  | x :: l' => acc' ← f acc x; reduce_from f l' acc'
  end.

Definition reduce {A : Type} (f : A -> A -> outcome A) (l : list A) : outcome A :=
  match l with
  | [] => Thrown TypeError
  | x :: l' => reduce_from f l' x
  end.

(** [arr[i]] on an array of numbers. *)
Definition get_number (l : list float) (i : nat) : value :=
  match l !! i with
  | Some x => Num x
  | None => Undefined
  end.

(** [arr.sort(compare)].  The language leaves the algorithm to the host, but
    requires a stable sort, and for a comparator that is consistent the result
    is the one sorted order that keeps equal elements in their original
    order; this is the order computed here, by insertion from the right.  A
    comparator result that is [NaN] counts as 0.  (The order for an
    inconsistent comparator is up to the host.) *)
Fixpoint sort_insert (compare : float -> float -> float) (x : float) (l : list float)
  : list float :=
  match l with
  | [] => [x]
  | y :: l' =>
      if PrimFloat.ltb 0 (compare x y) then y :: sort_insert compare x l'
      else x :: l
  end.

Definition sort (compare : float -> float -> float) (l : list float) : list float :=
  fold_right (sort_insert compare) [] l.

(** [Math.max] and [Math.min], as the language defines them: the first [NaN]
    among the arguments is the result, and [-0] is smaller than [+0]. *)
Module Math.

Definition is_positive_zero (x : float) : bool :=
  PrimFloat.is_zero x && negb (PrimFloat.get_sign x).

Definition is_negative_zero (x : float) : bool :=
  PrimFloat.is_zero x && PrimFloat.get_sign x.

Fixpoint max_from (highest : float) (numbers : list float) : float :=
  match numbers with
  | [] => highest
  | number :: rest =>
      if PrimFloat.is_nan number then nan
      else
        let highest :=
          if is_positive_zero number && is_negative_zero highest then number
          else highest in
        let highest := if PrimFloat.ltb highest number then number else highest in
        max_from highest rest
  end.

Definition max (numbers : list float) : float := max_from neg_infinity numbers.

Fixpoint min_from (lowest : float) (numbers : list float) : float :=
  match numbers with
  | [] => lowest
  | number :: rest =>
      if PrimFloat.is_nan number then nan
      else
        let lowest :=
          if is_negative_zero number && is_positive_zero lowest then number
          else lowest in
        let lowest := if PrimFloat.ltb number lowest then number else lowest in
        min_from lowest rest
  end.

Definition min (numbers : list float) : float := min_from infinity numbers.

End Math.

Module BasicMath.

(** [numbers.reduce((acc, num) => acc + num, 0)]. *)
Definition sum {T : Type} `{Arithmetic T} (numbers : list T) : T :=
  fold_left (fun acc num => a_add acc num) numbers a_zero.

Definition subtract (numbers : list float) : outcome float :=
  reduce (fun acc num => Ok (PrimFloat.sub acc num)) numbers.

(** [numbers.reduce((acc, num) => acc * num, 1)]. *)
Definition multiply (numbers : list float) : float :=
  fold_left (fun acc num => PrimFloat.mul acc num) numbers 1%float.

Definition divide_message : string := "Cannot divide by zero".

Definition divide (numbers : list float) : outcome float :=
  reduce (fun acc num =>
            if PrimFloat.eqb num 0 then Thrown (Error divide_message)
            else Ok (PrimFloat.div acc num)) numbers.

End BasicMath.

Module Statistics.

Definition mean {T : Type} `{Arithmetic T} (numbers : list T) : T :=
  if (length numbers =? 0)%nat then a_zero
  else a_div (BasicMath.sum numbers) (a_of_length (length numbers)).

(** [frequency[num] = (frequency[num] || 0) + 1]. *)
Definition count_number (frequency : object) (num : float) : object :=
  object_set frequency (to_key num)
             (or_zero (object_get frequency (to_key num)) + 1).

Definition mode (numbers : list float) : list float :=
  if (length numbers =? 0)%nat then []
  else
    let frequency := fold_left count_number numbers empty_object in
    let maxFreq := math_max (object_values frequency) in
    Number_of_key
      <$> filter (fun key =>
                    strict_equal (object_get frequency key) maxFreq = true)
                 (object_keys frequency).

Definition standardDeviation {T : Type} `{Arithmetic T} (numbers : list T) : T :=
  if (length numbers =? 0)%nat then a_zero
  else
    let mean := mean numbers in
    let variance :=
      a_div (fold_left (fun acc num => a_add acc (a_square (a_sub num mean)))
                       numbers a_zero)
            (a_of_length (length numbers)) in
    a_sqrt variance.

Definition median (numbers : list float) : value :=
  if (length numbers =? 0)%nat then Num 0%float
  else
    let sorted := sort (fun a b => PrimFloat.sub a b) numbers in
    let middle := (length sorted / 2)%nat in
    if (length sorted mod 2 =? 0)%nat then
      Num (PrimFloat.div
             (PrimFloat.add (to_number (get_number sorted (middle - 1)))
                            (to_number (get_number sorted middle)))
             2%float)
    else get_number sorted middle.

(** The object [{ min, max }] that [minMax] returns; a field is [null] or a
    number. *)
Inductive nullable : Type :=
| Null
| Number (x : float).

Record min_max : Type := mkMinMax {
  min : nullable;
  max : nullable
}.

Definition minMax (numbers : list float) : min_max :=
  if (length numbers =? 0)%nat then mkMinMax Null Null
  else mkMinMax (Number (Math.min numbers)) (Number (Math.max numbers)).

Definition sumOfSquares {T : Type} `{Arithmetic T} (numbers : list T) : T :=
  fold_left (fun acc num => a_add acc (a_square num)) numbers a_zero.

End Statistics.

Module Geometry.

(** [Math.sqrt(Math.pow(x2 - x1, 2) + Math.pow(y2 - y1, 2))]. *)
Definition distance {T : Type} `{Arithmetic T} (x1 y1 x2 y2 : T) : T :=
  a_sqrt (a_add (a_square (a_sub x2 x1)) (a_square (a_sub y2 y1))).

End Geometry.

(** ** Reference definitions, following the specification *)


(** Trial division by all integers from 2 up to sqrt(n). *)
Definition trial_division (n : Z) : bool :=
  (2 <=? n) &&
  forallb (fun d => negb (Z.rem n d =? 0))
          (map Z.of_nat (seq 2 (Z.to_nat (Z.sqrt n) - 1))).

(** Equality of numbers: the two zeros are one number, and [NaN], which
    the frequency table counts under one key, is one number. *)
Definition same_number (x y : float) : bool :=
  PrimFloat.eqb x y || (PrimFloat.is_nan x && PrimFloat.is_nan y).

(** The number of occurrences of [v] in [xs]. *)
Fixpoint occurrences (v : float) (xs : list float) : Z :=
  match xs with
  | [] => 0
  | x :: xs' => (if same_number x v then 1 else 0) + occurrences v xs'
  end.

(** [v] occurs at least as often as every element of [xs]. *)
Definition is_mode (xs : list float) (v : float) : bool :=
  forallb (fun w => occurrences w xs <=? occurrences v xs) xs.

(** Equality of doubles is decidable. *)
#[global] Instance float_eq_dec : EqDecision float :=
  fun x y =>
    match PrimFloat.Leibniz.eqb x y as b
          return PrimFloat.Leibniz.eqb x y = b -> Decision (x = y) with
    | true => fun H => left (proj1 (FloatAxioms.Leibniz.eqb_spec x y) H)
    | false => fun H =>
        right (fun Heq =>
                 Bool.diff_true_false
                   (eq_trans
                      (eq_sym (proj2 (FloatAxioms.Leibniz.eqb_spec x y) Heq))
                      H))
    end eq_refl.

(** The distinct elements of [xs], in the order of their first encounter. *)
Definition first_encounters_from (seen xs : list float) : list float :=
  fold_left (fun acc x => if decide (x ∈ acc) then acc else acc ++ [x]) xs seen.

Definition first_encounters (xs : list float) : list float :=
  first_encounters_from [] xs.

(** Ascending order of doubles. *)
Definition ascending (l : list float) : Prop :=
  StronglySorted (fun a b => PrimFloat.ltb a b = true) l.

(** The representation invariant of a frequency table: the array-index keys
    are strictly ascending, and the other keys are distinct. *)
Definition well_formed (o : object) : Prop :=
  ascending (indexed o).*1 /\
  Forall (fun k => is_array_index k = true) (indexed o).*1 /\
  Forall (fun k => is_array_index k = false) (named o).*1 /\
  NoDup (named o).*1.

(** The table [mode] builds from its argument. *)
Definition frequency_table (numbers : list float) : object :=
  fold_left Statistics.count_number numbers empty_object.

(** The count a table holds for [k], 0 when [k] is not a key. *)
Definition tally (o : object) (k : key) : Z := default 0 (object_get o k).

(** The population standard deviation of real numbers, in the words of the
    specification: the square root of the mean of the squared deviations
    from the mean, the divisor being the number N of elements. *)
Definition sum_of (xs : list R) : R := fold_right Rplus 0%R xs.

Definition mean_of (xs : list R) : R := (sum_of xs / INR (length xs))%R.

Definition population_standard_deviation (xs : list R) : R :=
  sqrt (sum_of (map (fun x => Rsqr (x - mean_of xs)) xs) / INR (length xs)).

(** Classes of doubles, read on their specification: not [NaN]; zero or
    finite; non-negative (a zero of either sign, a positive finite number or
    [+Infinity]); positive and finite. *)
Definition sf_number (s : spec_float) : Prop := s <> S754_nan.

Definition sf_finite (s : spec_float) : Prop :=
  match s with
  | S754_zero _ | S754_finite _ _ _ => True
  | _ => False
  end.

Definition sf_nonneg (s : spec_float) : Prop :=
  match s with
  | S754_zero _ | S754_infinity false | S754_finite false _ _ => True
  | _ => False
  end.

Definition sf_positive (s : spec_float) : Prop :=
  match s with
  | S754_finite false _ _ => True
  | _ => False
  end.

(** A double that is neither [NaN] nor infinite. *)
Definition is_finite_double (x : float) : bool :=
  match Prim2SF x with
  | S754_zero _ | S754_finite _ _ _ => true
  | _ => false
  end.

(** A matrix with [rows] rows, each of [cols] entries. *)
Definition rectangular (rows cols : nat) (m : matrix) : Prop :=
  length m = rows /\ Forall (fun r => length r = cols) m.

(** The entry [m[i][j]], when row [i] and its column [j] exist. *)
Definition entry (m : matrix) (i j : nat) : option value :=
  r ← m !! i; r !! j.

(** The sum of [a[i][k] * b[k][j]] over [k = 0 .. n-1], added to [x] in
    the order of the loop. *)
Definition dot (a b : matrix) (i j n : nat) (x : value) : value :=
  fold_left (fun y k => js_add y (js_mul (get (default [] (a !! i)) k)
                                         (get (default [] (b !! k)) j)))
            (seq 0 n) x.

(** The Fibonacci numbers: F(0) = 0, F(1) = 1, F(i + 2) = F(i + 1) + F(i). *)
Fixpoint fibonacci_pair (i : nat) : Z * Z :=
  match i with
  | O => (0, 1)
  | S i' => let '(a, b) := fibonacci_pair i' in (b, a + b)
  end.

Definition fibonacci (i : nat) : Z := fst (fibonacci_pair i).




(** The position of a number in the order of the doubles, a triple compared
    lexicographically: the sign class, then the exponent and the mantissa
    (both negated for a negative number).  The two zeros share a position. *)
Definition sf_position (x : spec_float) : Z * Z * Z :=
  match x with
  | S754_zero _ => (0, 0, 0)
  | S754_infinity s => (if s then -2 else 2, 0, 0)
  | S754_nan => (0, 0, 0)
  | S754_finite s m e => if s then (-1, - e, Z.neg m) else (1, e, Z.pos m)
  end.

Definition position_lt (p q : Z * Z * Z) : Prop :=
  p.1.1 < q.1.1 \/
  (p.1.1 = q.1.1 /\ (p.1.2 < q.1.2 \/ (p.1.2 = q.1.2 /\ p.2 < q.2))).

(** A double that is not [NaN]. *)
Definition is_number (x : float) : Prop := sf_number (Prim2SF x).

(** * Properties *)

Example isPrime_17 : NumberTheory.isPrime 10 17 = Ok true.
Proof. reflexivity. Qed.

Example isPrime_49 : NumberTheory.isPrime 10 49 = Ok false.
Proof. reflexivity. Qed.

Example gcd_48_18 : NumberTheory.gcd 10 48 18 = Ok 6.
Proof. reflexivity. Qed.

Example gcd_4_m6 : NumberTheory.gcd 10 4 (-6) = Ok (-2).
Proof. reflexivity. Qed.

Example lcm_4_6 : NumberTheory.lcm 10 4 6 = Ok (Finite 12).
Proof. reflexivity. Qed.

Example identity_2 : Matrix.identity 2 = Ok (of_numbers [[1; 0]; [0; 1]]%float).
Proof. reflexivity. Qed.

Example add_2x2 :
  Matrix.add (of_numbers [[1; 2]; [3; 4]]%float)
             (of_numbers [[10; 20]; [30; 40]]%float)
  = Ok (of_numbers [[11; 22]; [33; 44]]%float).
Proof. reflexivity. Qed.

Example multiply_2x2 :
  Matrix.multiply (of_numbers [[1; 2]; [3; 4]]%float)
                  (of_numbers [[5; 6]; [7; 8]]%float)
  = Ok (of_numbers [[19; 22]; [43; 50]]%float).
Proof. reflexivity. Qed.

Example transpose_2x3 :
  Matrix.transpose (of_numbers [[1; 2; 3]; [4; 5; 6]]%float)
  = Ok (of_numbers [[1; 4]; [2; 5]; [3; 6]]%float).
Proof. reflexivity. Qed.

Example add_empty : Matrix.add [] [] = Thrown TypeError.
Proof. reflexivity. Qed.

Example mode_readme :
  Statistics.mode [1; 2; 2; 3; 4; 4; 4; 5]%float = [4]%float.
Proof. vm_compute. reflexivity. Qed.

Example mode_mixed : Statistics.mode [-1; 1; 0]%float = [0; 1; -1]%float.
Proof. vm_compute. reflexivity. Qed.

Example mode_fractions :
  Statistics.mode [0.5; 7; 0.5; -0; 7; 0]%float = [0; 7; 0.5]%float.
Proof. vm_compute. reflexivity. Qed.

Example sd_float_readme :
  Statistics.standardDeviation [1; 2; 2; 3; 4; 4; 4; 5]%float
  = 0x1.44c3b83e57153p+0%float.
Proof. reflexivity. Qed.

(** ** Number theory *)

Section NumberTheoryFacts.
Import NumberTheory.

(** *** [gcd] *)

Lemma gcd_unfold (fuel : nat) (a b : Z) :
  gcd (S fuel) a b = if b =? 0 then Ok a else gcd fuel b (Z.rem a b).
Proof. reflexivity. Qed.

Lemma rem_smaller (a b : Z) : b <> 0 -> (Z.abs_nat (Z.rem a b) < Z.abs_nat b)%nat.
Proof.
  intros Hb. pose proof (Z.rem_bound_abs a b Hb). lia.
Qed.

(** With more fuel than [|b|], the recursion returns a common divisor, which
    is zero only for the pair (0, 0). *)
Lemma gcd_returns (fuel : nat) : forall a b : Z,
  (Z.abs_nat b < fuel)%nat ->
  exists g, gcd fuel a b = Ok g /\ (g | a) /\ (g | b) /\ (g = 0 -> a = 0 /\ b = 0).
Proof.
  induction fuel as [|fuel IH]; intros a b Hfuel; [lia|].
  rewrite gcd_unfold. destruct (Z.eqb_spec b 0) as [->|Hb].
  - exists a. repeat split; auto using Z.divide_refl, Z.divide_0_r.
  - destruct (IH b (Z.rem a b)) as (g & Hg & Hgb & Hgr & Hzero).
    { pose proof (rem_smaller a b Hb). lia. }
    exists g. split; [assumption|]. split; [|split; [assumption|]].
    + rewrite (Z.quot_rem' a b).
      apply Z.divide_add_r; [apply Z.divide_mul_l|]; assumption.
    + intros ->. destruct (Hzero eq_refl); contradiction.
Qed.

Lemma gcd_never_throws (fuel : nat) : forall (a b : Z) (e : exn),
  gcd fuel a b <> Thrown e.
Proof.
  induction fuel as [|fuel IH]; intros a b e; [discriminate|].
  rewrite gcd_unfold. destruct (b =? 0); [discriminate|apply IH].
Qed.

Lemma gcd_fuel_irrelevant (fuel1 : nat) : forall (fuel2 : nat) (a b g1 g2 : Z),
  gcd fuel1 a b = Ok g1 -> gcd fuel2 a b = Ok g2 -> g1 = g2.
Proof.
  induction fuel1 as [|fuel1 IH]; intros fuel2 a b g1 g2 H1 H2; [discriminate|].
  destruct fuel2 as [|fuel2]; [discriminate|].
  rewrite gcd_unfold in H1, H2. destruct (b =? 0).
  - congruence.
  - eauto.
Qed.

(** C6: the Euclidean recursion [gcd(a, 0) = a], [gcd(a, b) = gcd(b, a % b)]
    terminates on every pair of integers, negative ones included: any fuel
    above [|b|] yields a result, and the result does not depend on the fuel. *)
Theorem gcd_terminates (a b : Z) :
  (forall fuel, gcd (S fuel) a 0 = Ok a) /\
  (forall fuel, b <> 0 -> gcd (S fuel) a b = gcd fuel b (Z.rem a b)) /\
  exists g, forall fuel, (Z.abs_nat b < fuel)%nat -> gcd fuel a b = Ok g.
Proof.
  split; [reflexivity|]. split.
  { intros fuel Hb. rewrite gcd_unfold. destruct (Z.eqb_spec b 0); [contradiction|reflexivity]. }
  destruct (gcd_returns (S (Z.abs_nat b)) a b) as (g & Hg & _); [lia|].
  exists g. intros fuel Hfuel.
  destruct (gcd_returns fuel a b Hfuel) as (g' & Hg' & _).
  rewrite Hg'. f_equal. exact (gcd_fuel_irrelevant _ _ _ _ _ _ Hg' Hg).
Qed.

Lemma gcd_terminates_witness : exists g, gcd 19 48 18 = Ok g.
Proof.
  destruct (gcd_terminates 48 18) as (_ & _ & g & Hg).
  exists g. apply Hg. simpl. lia.
Defined.

(** C10: for a pair other than (0, 0) the result is a nonzero common divisor
    of [a] and [b]; it is not normalised to be non-negative
    ([gcd(4, -6) = -2]); and [gcd(0, 0) = 0]. *)
Theorem gcd_common_divisor (a b : Z) :
  exists g,
    (forall fuel, (Z.abs_nat b < fuel)%nat -> gcd fuel a b = Ok g) /\
    (g | a) /\ (g | b) /\
    ((a, b) <> (0, 0) -> g <> 0) /\
    ((a, b) = (0, 0) -> g = 0) /\
    gcd 4 4 (-6) = Ok (-2).
Proof.
  destruct (gcd_returns (S (Z.abs_nat b)) a b) as (g & Hg & Ha & Hb & Hzero); [lia|].
  exists g. repeat split; auto.
  - intros fuel Hfuel.
    destruct (gcd_returns fuel a b Hfuel) as (g' & Hg' & _).
    rewrite Hg'. f_equal. exact (gcd_fuel_irrelevant _ _ _ _ _ _ Hg' Hg).
  - intros Hne ->. destruct (Hzero eq_refl) as [-> ->]. contradiction.
  - intros [= -> ->]. simpl in Hg. congruence.
Qed.

Lemma gcd_common_divisor_witness :
  exists g, gcd 7 4 (-6) = Ok g /\ (g | 4) /\ (g | -6) /\ g <> 0.
Proof.
  destruct (gcd_common_divisor 4 (-6)) as (g & Hg & Ha & Hb & Hnz & _).
  exists g. split; [apply Hg; simpl; lia|]. split; [assumption|]. split; [assumption|].
  apply Hnz. discriminate.
Defined.

(** *** [lcm] *)

(** [lcm] has no failure path of its own and [gcd] has none either. *)
Lemma lcm_never_throws (fuel : nat) (a b : Z) (e : exn) :
  lcm fuel a b <> Thrown e.
Proof.
  unfold lcm. pose proof (gcd_never_throws fuel a b) as Hg.
  destruct (gcd fuel a b) as [g|e'|]; simpl; try discriminate.
  exfalso. exact (Hg e' eq_refl).
Qed.

(** C1, as the program behaves: [lcm(0, 0)] does not raise.  [gcd(0, 0)] is
    0, the division is 0 / 0, and the call returns [NaN]; no call of [lcm] on
    integers raises. *)
Theorem lcm_zero_zero_is_NaN (fuel : nat) :
  lcm (S fuel) 0 0 = Ok NaN /\ forall a b e, lcm fuel a b <> Thrown e.
Proof.
  split; [reflexivity|]. intros a b e. apply lcm_never_throws.
Qed.

(** C1, as stated (the call with (0, 0) raises), fails: the call returns. *)
Lemma lcm_zero_zero_does_not_raise :
  lcm 1 0 0 = Ok NaN /\ ~ (exists fuel e, lcm fuel 0 0 = Thrown e).
Proof.
  split; [reflexivity|]. intros (fuel & e & H). exact (lcm_never_throws _ _ _ _ H).
Qed.

(** *** [factorial] *)











(** *** [isPrime] *)

Lemma isPrime_loop_unfold (fuel : nat) (n i : Z) :
  isPrime_loop (S fuel) n i =
  if i * i <=? n then
    if (Z.rem n i =? 0) || (Z.rem n (i + 2) =? 0) then Ok false
    else isPrime_loop fuel n (i + 6)
  else Ok true.
Proof. reflexivity. Qed.

Lemma rem_zero_divide (n d : Z) : d <> 0 -> (Z.rem n d =? 0) = true <-> (d | n).
Proof.
  intros Hd. rewrite Z.eqb_eq. now apply Z.rem_divide.
Qed.

Lemma not_prime_of_divisor (n d : Z) : 1 < d < n -> (d | n) -> ~ Z.prime n.
Proof.
  intros Hd Hdiv [_ Hp]. exact (Hp d Hd Hdiv).
Qed.

(** A number above 1 with no divisor between 2 and its square root is
    prime: of two cofactors, one is at most the square root. *)
Lemma prime_of_no_small_divisor (n : Z) :
  2 <= n -> (forall d, 2 <= d -> d * d <= n -> ~ (d | n)) -> Z.prime n.
Proof.
  intros Hn Hsmall. split; [lia|].
  intros d Hd Hdiv.
  destruct (Z.le_gt_cases (d * d) n) as [Hle|Hgt].
  - apply (Hsmall d); [lia|assumption|assumption].
  - destruct Hdiv as [e He].
    assert (He1 : 2 <= e) by nia.
    assert (He2 : e * e <= n) by nia.
    apply (Hsmall e He1 He2). exists d. lia.
Qed.

Lemma no_small_divisor_of_prime (n d : Z) :
  Z.prime n -> 2 <= d -> d * d <= n -> ~ (d | n).
Proof.
  intros Hp Hd Hdd Hdiv.
  apply (not_prime_of_divisor n d); [nia|assumption|assumption].
Qed.

(** The loop from [i] either finds a proper divisor of [n], or excludes
    every divisor [i + 6k] and [i + 6k + 2] up to the square root. *)
Lemma isPrime_loop_spec (fuel : nat) : forall n i : Z,
  5 <= i -> (0 < fuel)%nat -> Z.sqrt n < i + Z.of_nat fuel - 1 ->
  (isPrime_loop fuel n i = Ok false /\ exists d, 1 < d < n /\ (d | n)) \/
  (isPrime_loop fuel n i = Ok true /\
   forall k, 0 <= k ->
     ((i + 6 * k) * (i + 6 * k) <= n -> ~ (i + 6 * k | n)) /\
     ((i + 6 * k + 2) * (i + 6 * k + 2) <= n -> ~ (i + 6 * k + 2 | n))).
Proof.
  induction fuel as [|fuel IH]; intros n i Hi Hfuel Hsqrt; [lia|].
  rewrite isPrime_loop_unfold.
  destruct (Z.leb_spec (i * i) n) as [Hle|Hgt].
  - assert (Hin : 5 * i <= n) by nia.
    destruct (Z.rem n i =? 0) eqn:Ei; simpl.
    { left. split; [reflexivity|]. exists i. split; [lia|].
      apply rem_zero_divide; [lia|assumption]. }
    destruct (Z.rem n (i + 2) =? 0) eqn:Ei2; simpl.
    { left. split; [reflexivity|]. exists (i + 2). split; [lia|].
      apply rem_zero_divide; [lia|assumption]. }
    assert (Hs : i <= Z.sqrt n) by (apply Z.sqrt_le_square; lia).
    destruct (IH n (i + 6)) as [Hfalse|[Htrue Hk]]; [lia|lia|lia|left; assumption|].
    right. split; [assumption|]. intros k Hk0.
    destruct (Z.eq_dec k 0) as [->|Hk1].
    + rewrite Z.mul_0_r, Z.add_0_r. split; intros _ Hdiv.
      * apply rem_zero_divide in Hdiv; [congruence|lia].
      * apply rem_zero_divide in Hdiv; [congruence|lia].
    + specialize (Hk (k - 1) ltac:(lia)).
      replace (i + 6 + 6 * (k - 1)) with (i + 6 * k) in Hk by lia. exact Hk.
  - right. split; [reflexivity|]. intros k Hk0. split; intros Hle; nia.
Qed.

(** Every integer from 5 on that 2 and 3 do not divide is [5 + 6k] or
    [5 + 6k + 2]. *)
Lemma wheel_covers (d : Z) :
  5 <= d -> ~ (2 | d) -> ~ (3 | d) ->
  exists k, 0 <= k /\ (d = 5 + 6 * k \/ d = 5 + 6 * k + 2).
Proof.
  intros Hd H2 H3.
  pose proof (Z.div_mod d 6 ltac:(lia)) as Hdm.
  pose proof (Z.mod_pos_bound d 6 ltac:(lia)) as Hb.
  set (q := d / 6) in *. set (r := d mod 6) in *.
  assert (Hr : r = 0 \/ r = 1 \/ r = 2 \/ r = 3 \/ r = 4 \/ r = 5) by lia.
  destruct Hr as [Hr|[Hr|[Hr|[Hr|[Hr|Hr]]]]].
  - exfalso. apply H2. exists (3 * q). lia.
  - exists (q - 1). lia.
  - exfalso. apply H2. exists (3 * q + 1). lia.
  - exfalso. apply H3. exists (2 * q + 1). lia.
  - exfalso. apply H2. exists (3 * q + 2). lia.
  - exists q. lia.
Qed.

(** On every integer, with fuel above the square root, [isPrime] returns
    whether the argument is prime. *)
Lemma isPrime_decides (fuel : nat) (n : Z) :
  (Z.to_nat (Z.sqrt n) < fuel)%nat ->
  (isPrime fuel n = Ok true /\ Z.prime n) \/ (isPrime fuel n = Ok false /\ ~ Z.prime n).
Proof.
  intros Hfuel. unfold isPrime.
  destruct (Z.leb_spec n 1) as [Hn1|Hn1].
  { right. split; [reflexivity|]. intros Hp. apply Z.prime_ge_2 in Hp. lia. }
  destruct (Z.leb_spec n 3) as [Hn3|Hn3].
  { left. split; [reflexivity|].
    assert (Hn : n = 2 \/ n = 3) by lia.
    destruct Hn as [-> | ->]; [apply Z.prime_2|apply Z.prime_3]. }
  destruct (Z.rem n 2 =? 0) eqn:E2; simpl.
  { right. split; [reflexivity|]. apply (not_prime_of_divisor n 2); [lia|].
    apply rem_zero_divide; [lia|assumption]. }
  destruct (Z.rem n 3 =? 0) eqn:E3; simpl.
  { right. split; [reflexivity|]. apply (not_prime_of_divisor n 3); [lia|].
    apply rem_zero_divide; [lia|assumption]. }
  assert (Hn2 : ~ (2 | n)).
  { intros H. apply rem_zero_divide in H; [congruence|lia]. }
  assert (Hn3' : ~ (3 | n)).
  { intros H. apply rem_zero_divide in H; [congruence|lia]. }
  assert (Hs : 0 <= Z.sqrt n) by apply Z.sqrt_nonneg.
  destruct (isPrime_loop_spec fuel n 5) as [[Hfalse (d & Hd & Hdiv)]|[Htrue Hk]];
    [lia|lia|lia| |].
  - right. split; [assumption|]. now apply (not_prime_of_divisor n d).
  - left. split; [assumption|].
    apply prime_of_no_small_divisor; [lia|].
    intros d Hd Hdd Hdiv.
    assert (Hd2 : ~ (2 | d)).
    { intros H. apply Hn2. now apply (Z.divide_trans 2 d n). }
    assert (Hd3 : ~ (3 | d)).
    { intros H. apply Hn3'. now apply (Z.divide_trans 3 d n). }
    assert (Hd5 : 5 <= d).
    { assert (Hcases : d = 2 \/ d = 3 \/ d = 4 \/ 5 <= d) by lia.
      destruct Hcases as [->|[->|[->|?]]]; [| | |assumption].
      - exfalso. apply Hd2. apply Z.divide_refl.
      - exfalso. apply Hd3. apply Z.divide_refl.
      - exfalso. apply Hd2. exists 2. lia. }
    destruct (wheel_covers d Hd5 Hd2 Hd3) as (k & Hk0 & [-> | ->]).
    + exact (proj1 (Hk k Hk0) Hdd Hdiv).
    + exact (proj2 (Hk k Hk0) Hdd Hdiv).
Qed.

Lemma trial_division_prime (n : Z) : trial_division n = true <-> Z.prime n.
Proof.
  unfold trial_division. rewrite andb_true_iff, forallb_forall, Z.leb_le.
  split.
  - intros [Hn Hall]. apply prime_of_no_small_divisor; [assumption|].
    intros d Hd Hdd Hdiv.
    assert (Hs : d <= Z.sqrt n) by (apply Z.sqrt_le_square; lia).
    specialize (Hall d). rewrite negb_true_iff in Hall.
    apply rem_zero_divide in Hdiv; [|lia].
    rewrite Hall in Hdiv; [discriminate|].
    apply in_map_iff. exists (Z.to_nat d). split; [lia|].
    apply in_seq. lia.
  - intros Hp. pose proof (Z.prime_ge_2 n Hp) as Hn. split; [lia|].
    intros d Hin. apply in_map_iff in Hin. destruct Hin as (k & <- & Hk).
    apply in_seq in Hk. rewrite negb_true_iff.
    destruct (Z.rem n (Z.of_nat k) =? 0) eqn:E; [|reflexivity].
    exfalso. apply rem_zero_divide in E; [|lia].
    assert (Hs : Z.of_nat k <= Z.sqrt n) by lia.
    apply Z.sqrt_le_square in Hs; [|lia|lia].
    exact (no_small_divisor_of_prime n (Z.of_nat k) Hp ltac:(lia) Hs E).
Qed.

(** [isPrime] agrees with trial division on every integer. *)
Lemma isPrime_trial_division (fuel : nat) (n : Z) :
  (Z.to_nat (Z.sqrt n) < fuel)%nat -> isPrime fuel n = Ok (trial_division n).
Proof.
  intros Hfuel.
  destruct (isPrime_decides fuel n Hfuel) as [[-> Hp]|[-> Hp]]; f_equal.
  - symmetry. now apply trial_division_prime.
  - destruct (trial_division n) eqn:E; [|reflexivity].
    apply trial_division_prime in E. contradiction.
Qed.

(** C4: for [n] in [0, 10000], [isPrime(n)] is true exactly when [n] is
    prime, and agrees with trial division by every integer from 2 to
    sqrt(n); it answers false for [n <= 1], true for 2 and 3, false for a
    multiple of 2 or 3, and otherwise runs the loop over 5, 11, 17, ... and
    their successors by 2, up to sqrt(n). *)
Theorem isPrime_correct (fuel : nat) (n : Z) :
  0 <= n <= 10000 ->
  (Z.to_nat (Z.sqrt n) < fuel)%nat ->
  isPrime fuel n = Ok (trial_division n) /\
  (isPrime fuel n = Ok true <-> Z.prime n) /\
  (n <= 1 -> isPrime fuel n = Ok false) /\
  (n = 2 \/ n = 3 -> isPrime fuel n = Ok true) /\
  (3 < n -> (2 | n) \/ (3 | n) -> isPrime fuel n = Ok false) /\
  (3 < n -> ~ (2 | n) -> ~ (3 | n) -> isPrime fuel n = isPrime_loop fuel n 5).
Proof.
  intros Hn Hfuel. split; [now apply isPrime_trial_division|]. split.
  { destruct (isPrime_decides fuel n Hfuel) as [[-> Hp]|[-> Hp]].
    - tauto.
    - split; [discriminate|contradiction]. }
  unfold isPrime. repeat split.
  - intros H1. destruct (Z.leb_spec n 1); [reflexivity|lia].
  - intros H23. destruct (Z.leb_spec n 1); [lia|].
    destruct (Z.leb_spec n 3); [reflexivity|lia].
  - intros H3 Hdiv. destruct (Z.leb_spec n 1); [lia|].
    destruct (Z.leb_spec n 3); [lia|].
    destruct Hdiv as [Hd|Hd]; apply rem_zero_divide in Hd; try lia; rewrite Hd.
    + reflexivity.
    + now rewrite orb_true_r.
  - intros H3 H2 H3'. destruct (Z.leb_spec n 1); [lia|].
    destruct (Z.leb_spec n 3); [lia|].
    destruct (Z.rem n 2 =? 0) eqn:E2.
    { exfalso. apply H2. apply rem_zero_divide; [lia|assumption]. }
    destruct (Z.rem n 3 =? 0) eqn:E3.
    { exfalso. apply H3'. apply rem_zero_divide; [lia|assumption]. }
    reflexivity.
Qed.

Lemma isPrime_correct_witness :
  isPrime 101 9973 = Ok (trial_division 9973) /\ isPrime 101 9973 = Ok true.
Proof.
  pose proof (isPrime_correct 101 9973 ltac:(lia) ltac:(vm_compute; lia)) as H.
  split; [exact (proj1 H)|reflexivity].
Defined.

End NumberTheoryFacts.

(** ** Doubles: signs and [NaN] through the arithmetic operations *)

Section DoubleFacts.
Lemma shr_1_nonneg (mrs : shr_record) : 0 <= shr_m mrs -> 0 <= shr_m (shr_1 mrs).
Proof.
  destruct mrs as [m r s]. destruct m as [|p|p]; simpl; intros H; try lia.
  - destruct p; simpl; lia.
Qed.

Lemma iter_shr_1_nonneg (k : positive) : forall mrs : shr_record,
  0 <= shr_m mrs -> 0 <= shr_m (SpecFloat.iter_pos shr_1 k mrs).
Proof.
  induction k as [k IH|k IH|]; intros mrs H; simpl.
  - apply IH, IH. now apply shr_1_nonneg.
  - now apply IH, IH.
  - now apply shr_1_nonneg.
Qed.

Lemma shr_fexp_nonneg (m e : Z) (l : location) :
  0 <= m -> 0 <= shr_m (fst (shr_fexp prec emax m e l)).
Proof.
  intros H. unfold shr_fexp, shr.
  assert (H0 : 0 <= shr_m (shr_record_of_loc m l)).
  { destruct l as [|[]]; simpl; assumption. }
  destruct (fexp prec emax (Zdigits2 m + e) - e) as [|k|k]; simpl; try assumption.
  now apply iter_shr_1_nonneg.
Qed.

Lemma round_nearest_even_nonneg (mx : Z) (lx : location) :
  0 <= mx -> 0 <= round_nearest_even mx lx.
Proof.
  intros H. destruct lx as [|[]]; simpl; try lia.
  destruct (Z.even mx); lia.
Qed.

(** A rounded non-negative mantissa gives a zero, a finite number or an
    infinity of the given sign, never [NaN]. *)
Lemma binary_round_aux_sign (sx : bool) (mx ex : Z) (lx : location) :
  0 <= mx ->
  binary_round_aux prec emax sx mx ex lx = S754_zero sx \/
  (exists m e, binary_round_aux prec emax sx mx ex lx = S754_finite sx m e) \/
  binary_round_aux prec emax sx mx ex lx = S754_infinity sx.
Proof.
  intros H. unfold binary_round_aux.
  pose proof (shr_fexp_nonneg mx ex lx H) as H1.
  destruct (shr_fexp prec emax mx ex lx) as [mrs' e'].
  simpl in H1.
  pose proof (shr_fexp_nonneg (round_nearest_even (shr_m mrs') (loc_of_shr_record mrs'))
                e' loc_Exact (round_nearest_even_nonneg _ _ H1)) as H2.
  destruct (shr_fexp prec emax (round_nearest_even (shr_m mrs') (loc_of_shr_record mrs'))
              e' loc_Exact) as [mrs'' e''].
  simpl in H2.
  destruct (shr_m mrs'') as [|m|m]; [now left| |lia].
  destruct (e'' <=? emax - prec); [right; left; eauto|now right; right].
Qed.

Lemma binary_round_aux_number (sx : bool) (mx ex : Z) (lx : location) :
  0 <= mx -> sf_number (binary_round_aux prec emax sx mx ex lx).
Proof.
  intros H. unfold sf_number.
  destruct (binary_round_aux_sign sx mx ex lx H) as [->|[(m & e & ->)| ->]];
    discriminate.
Qed.

Lemma binary_round_aux_nonneg (mx ex : Z) (lx : location) :
  0 <= mx -> sf_nonneg (binary_round_aux prec emax false mx ex lx).
Proof.
  intros H.
  destruct (binary_round_aux_sign false mx ex lx H) as [->|[(m & e & ->)| ->]];
    exact I.
Qed.

Lemma binary_round_number (sx : bool) (mx : positive) (ex : Z) :
  sf_number (binary_round prec emax sx mx ex).
Proof.
  unfold binary_round. destruct (shl_align mx ex _) as [mz ez].
  apply binary_round_aux_number. lia.
Qed.

Lemma binary_round_nonneg (mx : positive) (ex : Z) :
  sf_nonneg (binary_round prec emax false mx ex).
Proof.
  unfold binary_round. destruct (shl_align mx ex _) as [mz ez].
  apply binary_round_aux_nonneg. lia.
Qed.

Lemma binary_normalize_number (m e : Z) (szero : bool) :
  sf_number (binary_normalize prec emax m e szero).
Proof.
  destruct m; simpl; [discriminate|apply binary_round_number..].
Qed.

Lemma sf_nonneg_number (x : spec_float) : sf_nonneg x -> sf_number x.
Proof. destruct x; simpl; [discriminate..|contradiction|discriminate]. Qed.

Lemma SFadd_number (x y : spec_float) :
  sf_number x -> sf_finite y -> sf_number (SF64add x y).
Proof.
  unfold sf_number, SF64add. intros Hx Hy.
  destruct x as [sx|sx| |sx mx ex], y as [sy|sy| |sy my ey]; simpl in *;
    try contradiction; try discriminate.
  - destruct sx, sy; discriminate.
  - apply binary_normalize_number.
Qed.

Lemma SFadd_nonneg (x y : spec_float) :
  sf_nonneg x -> sf_nonneg y -> sf_nonneg (SF64add x y).
Proof.
  unfold SF64add. intros Hx Hy.
  destruct x as [sx|[|]| |[|] mx ex], y as [sy|[|]| |[|] my ey]; simpl in *;
    try contradiction; try exact I.
  - destruct sx, sy; exact I.
  - unfold binary_normalize, cond_Zopp.
    destruct (shl_align mx ex (Z.min ex ey)) as [mx' ex'].
    destruct (shl_align my ey (Z.min ex ey)) as [my' ey']. simpl.
    apply binary_round_nonneg.
Qed.

Lemma SFsub_number (x y : spec_float) :
  sf_finite x -> sf_number y -> sf_number (SF64sub x y).
Proof.
  unfold sf_number, SF64sub. intros Hx Hy.
  destruct x as [sx|sx| |sx mx ex], y as [sy|sy| |sy my ey]; simpl in *;
    try contradiction; try discriminate.
  - destruct sx, sy; discriminate.
  - apply binary_normalize_number.
Qed.

Lemma SFmul_square_nonneg (x : spec_float) :
  sf_number x -> sf_nonneg (SF64mul x x).
Proof.
  unfold sf_number, SF64mul. intros Hx.
  destruct x as [sx|sx| |sx mx ex]; simpl; try contradiction.
  - exact I.
  - now destruct sx.
  - replace (xorb sx sx) with false by now destruct sx.
    apply binary_round_aux_nonneg. lia.
Qed.

Lemma div_eucl_nonneg (a b : Z) : 0 <= a -> 0 < b -> 0 <= fst (Z.div_eucl a b).
Proof.
  intros Ha Hb. pose proof (Z_div_mod a b ltac:(lia)) as H.
  destruct (Z.div_eucl a b) as [q r]. simpl. nia.
Qed.

Lemma SFdiv_nonneg (x y : spec_float) :
  sf_nonneg x -> sf_positive y -> sf_nonneg (SF64div x y).
Proof.
  unfold SF64div. intros Hx Hy.
  destruct x as [sx|[|]| |[|] mx ex], y as [sy|sy| |[|] my ey]; simpl in *;
    try contradiction; try exact I.
  unfold SFdiv_core_binary.
  set (m' := match _ - _ with Z0 => Z.pos mx | Z.pos _ => _ | Z.neg _ => 0 end).
  assert (Hm' : 0 <= m').
  { unfold m'. destruct (_ - _); [lia| |lia]. apply Z.shiftl_nonneg. lia. }
  pose proof (div_eucl_nonneg m' (Z.pos my) Hm' ltac:(lia)) as Hq.
  destruct (Z.div_eucl m' (Z.pos my)) as [q r]. simpl in Hq.
  now apply binary_round_aux_nonneg.
Qed.

Lemma SFdiv_number (x y : spec_float) :
  sf_number x -> sf_positive y -> sf_number (SF64div x y).
Proof.
  unfold sf_number, SF64div. intros Hx Hy.
  destruct x as [sx|sx| |sx mx ex], y as [sy|sy| |[|] my ey]; simpl in *;
    try contradiction; try discriminate.
  unfold SFdiv_core_binary.
  set (m' := match _ - _ with Z0 => Z.pos mx | Z.pos _ => _ | Z.neg _ => 0 end).
  assert (Hm' : 0 <= m').
  { unfold m'. destruct (_ - _); [lia| |lia]. apply Z.shiftl_nonneg. lia. }
  pose proof (div_eucl_nonneg m' (Z.pos my) Hm' ltac:(lia)) as Hq.
  destruct (Z.div_eucl m' (Z.pos my)) as [q r]. simpl in Hq.
  now apply binary_round_aux_number.
Qed.

Lemma SFsqrt_nonneg (x : spec_float) : sf_nonneg x -> sf_nonneg (SF64sqrt x).
Proof.
  unfold SF64sqrt. intros Hx.
  destruct x as [sx|[|]| |[|] mx ex]; simpl in *; try contradiction; try exact I.
  unfold SFsqrt_core_binary.
  set (m' := match _ - _ with Z0 => Z.pos mx | Z.pos _ => _ | Z.neg _ => 0 end).
  assert (Hm' : 0 <= m').
  { unfold m'. destruct (_ - _); [lia| |lia]. apply Z.shiftl_nonneg. lia. }
  pose proof (Z.sqrtrem_spec m' Hm') as Hs.
  destruct (Z.sqrtrem m') as [q r].
  apply binary_round_aux_nonneg. nia.
Qed.

Lemma SFleb_zero_nonneg (x : spec_float) :
  sf_nonneg x -> SFleb (S754_zero false) x = true.
Proof.
  destruct x as [sx|[|]| |[|] mx ex]; simpl; try contradiction; reflexivity.
Qed.

(** *** The length of an array as a double *)

Lemma digits2_pos_upper (p : positive) : Z.pos p < 2 ^ Z.pos (digits2_pos p).
Proof.
  induction p as [p IH|p IH|]; simpl digits2_pos; [| |reflexivity].
  - rewrite Pos2Z.inj_succ, Z.pow_succ_r by lia. lia.
  - rewrite Pos2Z.inj_succ, Z.pow_succ_r by lia. lia.
Qed.

Lemma digits2_pos_lower (p : positive) : 2 ^ (Z.pos (digits2_pos p) - 1) <= Z.pos p.
Proof.
  induction p as [p IH|p IH|]; simpl digits2_pos; [| |simpl; lia].
  - rewrite Pos2Z.inj_succ.
    replace (Z.succ (Z.pos (digits2_pos p)) - 1)
      with (Z.succ (Z.pos (digits2_pos p) - 1)) by lia.
    rewrite Z.pow_succ_r by lia. lia.
  - rewrite Pos2Z.inj_succ.
    replace (Z.succ (Z.pos (digits2_pos p)) - 1)
      with (Z.succ (Z.pos (digits2_pos p) - 1)) by lia.
    rewrite Z.pow_succ_r by lia. lia.
Qed.

Lemma digits2_pos_shift (p k : positive) :
  digits2_pos (Pos.iter xO p k) = (digits2_pos p + k)%positive.
Proof.
  induction k as [|k IH] using Pos.peano_ind.
  - simpl. lia.
  - rewrite Pos.iter_succ. simpl. rewrite IH. lia.
Qed.

Lemma fexp_small (e : Z) : -1021 <= e -> fexp prec emax e = e - 53.
Proof.
  intros H. unfold fexp, SpecFloat.emin, prec, emax. lia.
Qed.

(** A mantissa of 53 digits with an exponent in range is not rounded. *)
Lemma binary_round_aux_exact (sx : bool) (mz : positive) (ez : Z) :
  Z.pos (digits2_pos mz) = 53 -> -1074 <= ez <= 971 ->
  binary_round_aux prec emax sx (Z.pos mz) ez loc_Exact = S754_finite sx mz ez.
Proof.
  intros Hd He. unfold binary_round_aux, shr_fexp. simpl Zdigits2.
  rewrite Hd, fexp_small by lia.
  replace (53 + ez - 53 - ez) with 0 by lia. simpl.
  rewrite Hd, fexp_small by lia.
  replace (53 + ez - 53 - ez) with 0 by lia. simpl.
  destruct (Z.leb_spec ez (emax - prec)) as [_|Hgt]; [reflexivity|].
  unfold emax, prec in Hgt. lia.
Qed.

(** A positive integer below 2^53 is a positive finite double. *)
Lemma binary_normalize_positive (z : Z) :
  0 < z < 2 ^ 53 -> sf_positive (binary_normalize prec emax z 0 false).
Proof.
  intros Hz. destruct z as [|p|p]; try lia. simpl.
  unfold binary_round.
  pose proof (digits2_pos_lower p) as Hlow.
  pose proof (digits2_pos_upper p) as Hup.
  assert (Hd : Z.pos (digits2_pos p) <= 53).
  { destruct (Z.le_gt_cases (Z.pos (digits2_pos p)) 53) as [?|Hgt]; [assumption|].
    assert (2 ^ 53 <= 2 ^ (Z.pos (digits2_pos p) - 1)) by (apply Z.pow_le_mono_r; lia).
    lia. }
  rewrite fexp_small by lia.
  unfold shl_align.
  destruct (Z.pos (digits2_pos p) + 0 - 53 - 0) as [|k|k] eqn:Hk; try lia.
  - rewrite binary_round_aux_exact; [exact I|lia|lia].
  - rewrite binary_round_aux_exact; [exact I| |lia].
    rewrite digits2_pos_shift. lia.
Qed.


Lemma is_finite_double_spec (x : float) :
  is_finite_double x = true -> sf_finite (Prim2SF x).
Proof.
  unfold is_finite_double. destruct (Prim2SF x); simpl; congruence || auto.
Qed.

(** *** Zero and one in double arithmetic *)

Lemma Prim2SF_finite_valid (x : float) (s : bool) (m : positive) (e : Z) :
  Prim2SF x = S754_finite s m e ->
  fexp prec emax (Z.pos (digits2_pos m) + e) = e /\ e <= 971.
Proof.
  intros Hx. pose proof (Prim2SF_valid x) as Hv. rewrite Hx in Hv.
  simpl in Hv. unfold bounded, canonical_mantissa in Hv.
  apply andb_prop in Hv. destruct Hv as [Hc He].
  apply Z.eqb_eq in Hc. apply Z.leb_le in He.
  split; [assumption|]. unfold emax, prec in He. lia.
Qed.

Lemma shr_52 (m : positive) :
  SpecFloat.iter_pos shr_1 52 (Build_shr_record (Z.pos (Pos.iter xO m 52)) false false)
  = Build_shr_record (Z.pos m) false false.
Proof. reflexivity. Qed.

(** [0 + 0 * x] is [+0] for a finite [x]. *)
Lemma double_add_zero_mul_zero (x : float) :
  is_finite_double x = true -> (0 + 0 * x = 0)%float.
Proof.
  intros Hx. apply is_finite_double_spec in Hx. apply Prim2SF_inj.
  rewrite FloatAxioms.add_spec, FloatAxioms.mul_spec.
  change (Prim2SF 0) with (S754_zero false).
  destruct (Prim2SF x) as [s|s| |s m e]; simpl in *; try contradiction.
  - now destruct s.
  - now destruct s.
Qed.

(** Adding [0 * y] to [0 + x] changes nothing, for finite [x] and [y]. *)
Lemma double_add_mul_zero (x y : float) :
  is_finite_double x = true -> is_finite_double y = true ->
  (0 + x + 0 * y = 0 + x)%float.
Proof.
  intros Hx Hy. apply is_finite_double_spec in Hx, Hy. apply Prim2SF_inj.
  rewrite !FloatAxioms.add_spec, FloatAxioms.mul_spec.
  change (Prim2SF 0) with (S754_zero false).
  destruct (Prim2SF x) as [sx|sx| |sx mx ex], (Prim2SF y) as [sy|sy| |sy my ey];
    simpl in *; try contradiction.
  - now destruct sx, sy.
  - now destruct sx, sy.
  - reflexivity.
  - reflexivity.
Qed.

(** [1 * x] is [x] for a finite [x]. *)
Lemma double_mul_one (x : float) :
  is_finite_double x = true -> (1 * x = x)%float.
Proof.
  intros Hx. apply is_finite_double_spec in Hx. apply Prim2SF_inj.
  rewrite FloatAxioms.mul_spec.
  change (Prim2SF 1) with (S754_finite false 4503599627370496 (-52)).
  destruct (Prim2SF x) as [s|s| |s m e] eqn:Ex; simpl in Hx; try contradiction.
  - reflexivity.
  - destruct (Prim2SF_finite_valid x s m e Ex) as [Hc He].
    unfold SF64mul, SFmul. cbn [xorb].
    change (4503599627370496 * m)%positive with (Pos.iter xO m 52).
    unfold binary_round_aux, shr_fexp. cbn [Zdigits2].
    rewrite digits2_pos_shift.
    replace (Z.pos (digits2_pos m + 52) + (-52 + e)) with (Z.pos (digits2_pos m) + e) by lia.
    rewrite Hc. replace (e - (-52 + e)) with 52 by lia.
    cbn [shr_record_of_loc shr]. rewrite shr_52.
    cbn [fst snd shr_m loc_of_shr_record round_nearest_even Zdigits2].
    replace (-52 + e + 52) with e by lia.
    rewrite Hc, Z.sub_diag. cbn [shr_record_of_loc shr shr_m].
    destruct (Z.leb_spec e (emax - prec)) as [_|Hgt]; [reflexivity|].
    unfold emax, prec in Hgt. lia.
Qed.

(** [0 + x] is [x] up to the sign of zero. *)
Lemma double_zero_add (x : float) :
  is_finite_double x = true ->
  PrimFloat.eqb (0 + x) x = true /\
  ((exists s m e, Prim2SF x = S754_finite s m e) -> (0 + x = x)%float).
Proof.
  intros Hx. apply is_finite_double_spec in Hx. split.
  - rewrite FloatAxioms.eqb_spec, FloatAxioms.add_spec.
    change (Prim2SF 0) with (S754_zero false).
    destruct (Prim2SF x) as [s|s| |s m e]; simpl in *; try contradiction.
    + now destruct s.
    + unfold SFeqb, SFcompare. destruct s.
      * rewrite Z.compare_refl, Pos.compare_cont_refl. reflexivity.
      * rewrite Z.compare_refl, Pos.compare_cont_refl. reflexivity.
  - intros (s & m & e & Ex). apply Prim2SF_inj.
    rewrite FloatAxioms.add_spec, Ex. reflexivity.
Qed.

End DoubleFacts.

(** ** Matrices *)

Section MatrixFacts.
Import Matrix.

Lemma row_lookup (m : matrix) (i : nat) (r : list value) :
  m !! i = Some r -> row m i = Ok r.
Proof. intros H. unfold row. now rewrite H. Qed.

Lemma row_missing (m : matrix) (i : nat) :
  m !! i = None -> row m i = Thrown TypeError.
Proof. intros H. unfold row. now rewrite H. Qed.

Lemma get_lookup (r : list value) (j : nat) (v : value) :
  r !! j = Some v -> get r j = v.
Proof. intros H. unfold get. now rewrite H. Qed.

Lemma rectangular_row (rows cols : nat) (m : matrix) (i : nat) :
  rectangular rows cols m -> (i < rows)%nat ->
  exists r, m !! i = Some r /\ length r = cols.
Proof.
  intros [Hlen Hall] Hi.
  destruct (lookup_lt_is_Some_2 m i) as [r Hr]; [lia|].
  exists r. split; [assumption|].
  exact (proj1 (Forall_lookup _ _) Hall i r Hr).
Qed.

Lemma rectangular_entry (rows cols : nat) (m : matrix) (i j : nat) :
  rectangular rows cols m -> (i < rows)%nat -> (j < cols)%nat ->
  exists r v, m !! i = Some r /\ r !! j = Some v /\ entry m i j = Some v.
Proof.
  intros Hm Hi Hj.
  destruct (rectangular_row rows cols m i Hm Hi) as (r & Hr & Hlen).
  destruct (lookup_lt_is_Some_2 r j) as [v Hv]; [lia|].
  exists r, v. unfold entry. rewrite Hr. simpl. auto.
Qed.

(** Two matrices of one shape with the same entries are equal. *)
Lemma matrix_ext (rows cols : nat) (m1 m2 : matrix) :
  rectangular rows cols m1 -> rectangular rows cols m2 ->
  (forall i j, (i < rows)%nat -> (j < cols)%nat -> entry m1 i j = entry m2 i j) ->
  m1 = m2.
Proof.
  intros H1 H2 Hentry. apply list_eq. intros i.
  destruct (Nat.lt_ge_cases i rows) as [Hi|Hi].
  - destruct (rectangular_row rows cols m1 i H1 Hi) as (r1 & Hr1 & Hl1).
    destruct (rectangular_row rows cols m2 i H2 Hi) as (r2 & Hr2 & Hl2).
    rewrite Hr1, Hr2. f_equal. apply list_eq. intros j.
    destruct (Nat.lt_ge_cases j cols) as [Hj|Hj].
    + specialize (Hentry i j Hi Hj). unfold entry in Hentry.
      now rewrite Hr1, Hr2 in Hentry.
    + rewrite !(lookup_ge_None_2 _ j) by lia. reflexivity.
  - destruct H1 as [Hl1 _], H2 as [Hl2 _].
    rewrite !(lookup_ge_None_2 _ i) by lia. reflexivity.
Qed.

(** *** [transpose] *)

(** The transpose of a [rows] x [cols] matrix with at least one row is the
    [cols] x [rows] matrix with [result[j][i] = m[i][j]]. *)
Lemma transpose_shape (rows cols : nat) (m : matrix) :
  rectangular rows cols m -> (0 < rows)%nat ->
  exists t, transpose m = Ok t /\ rectangular cols rows t /\
            forall i j, (i < rows)%nat -> (j < cols)%nat -> entry t j i = entry m i j.
Proof.
  intros Hm Hrows.
  destruct (rectangular_row rows cols m 0 Hm Hrows) as (r0 & Hr0 & Hl0).
  unfold transpose. rewrite (row_lookup m 0 r0 Hr0). simpl.
  eexists. split; [reflexivity|]. split; [split|].
  - now rewrite length_imap.
  - apply Forall_lookup. intros j x Hx.
    rewrite list_lookup_imap in Hx.
    destruct (r0 !! j); simpl in Hx; [|discriminate].
    injection Hx as <-. rewrite length_fmap. apply Hm.
  - intros i j Hi Hj.
    destruct (rectangular_entry rows cols m i j Hm Hi Hj) as (r & v & Hr & Hv & ->).
    unfold entry. rewrite list_lookup_imap.
    destruct (lookup_lt_is_Some_2 r0 j) as [v0 Hv0]; [lia|].
    rewrite Hv0. simpl. rewrite list_lookup_fmap, Hr. simpl.
    now rewrite (get_lookup r j v Hv).
Qed.

(** C3, as the program behaves: on a rectangular matrix with at least one
    row and at least one column, [transpose] returns the [cols] x [rows]
    matrix with [result[j][i] = m[i][j]], and transposing twice gives the
    matrix back. *)
Theorem transpose_involutive (rows cols : nat) (m : matrix) :
  rectangular rows cols m -> (0 < rows)%nat -> (0 < cols)%nat ->
  exists t, transpose m = Ok t /\ rectangular cols rows t /\
            (forall i j, (i < rows)%nat -> (j < cols)%nat -> entry t j i = entry m i j) /\
            transpose t = Ok m.
Proof.
  intros Hm Hrows Hcols.
  destruct (transpose_shape rows cols m Hm Hrows) as (t & Ht & Hshape & Hentry).
  exists t. repeat (split; [assumption|]).
  destruct (transpose_shape cols rows t Hshape Hcols) as (t' & Ht' & Hshape' & Hentry').
  rewrite Ht'. f_equal.
  apply (matrix_ext rows cols); [assumption|assumption|].
  intros i j Hi Hj. rewrite Hentry' by assumption. now apply Hentry.
Qed.

Lemma transpose_involutive_witness :
  exists t, transpose (of_numbers [[1; 2; 3]; [4; 5; 6]]%float) = Ok t /\
            transpose t = Ok (of_numbers [[1; 2; 3]; [4; 5; 6]]%float).
Proof.
  destruct (transpose_involutive 2 3 (of_numbers [[1; 2; 3]; [4; 5; 6]]%float))
    as (t & Ht & _ & _ & Htt).
  - split; [reflexivity|]. repeat constructor.
  - lia.
  - lia.
  - exists t. split; assumption.
Defined.

(** C3, as stated for every rectangular matrix, fails on the matrices with no
    row or no column: [transpose] reads [matrix[0]], and the transpose of a
    matrix whose rows are empty has no row. *)
Lemma transpose_empty_fails :
  rectangular 0 0 [] /\ transpose [] = Thrown TypeError /\
  rectangular 2 0 [[]; []] /\
  (t ← transpose [[]; []]; transpose t) = Thrown TypeError.
Proof.
  repeat split; repeat constructor.
Qed.

(** *** [add] *)

Lemma map_rows_add (b : matrix) : forall (a : matrix) (i0 : nat),
  (forall k, (k < length a)%nat -> is_Some (b !! (i0 + k)%nat)) ->
  map_rows (fun i r => bi ← row b i;
                       Ok (imap (fun j val => js_add val (get bi j)) r)) i0 a
  = Ok (imap (fun k r =>
               imap (fun j val => js_add val (get (default [] (b !! (i0 + k)%nat)) j)) r)
             a).
Proof.
  induction a as [|ra a IH]; intros i0 Hb; [reflexivity|].
  destruct (Hb 0%nat ltac:(simpl; lia)) as [rb Hrb].
  rewrite Nat.add_0_r in Hrb.
  cbn [map_rows]. rewrite (row_lookup b i0 rb Hrb). simpl.
  rewrite (IH (S i0)).
  - simpl. rewrite Nat.add_0_r, Hrb. simpl. do 2 f_equal.
    apply imap_ext. intros k r _. simpl.
    now replace (i0 + S k)%nat with (S (i0 + k)) by lia.
  - intros k Hk. replace (S i0 + k)%nat with (i0 + S k)%nat by lia.
    apply Hb. simpl. lia.
Qed.

Lemma add_same_shape (rows cols : nat) (a b : matrix) :
  (0 < rows)%nat -> rectangular rows cols a -> rectangular rows cols b ->
  exists res, add a b = Ok res /\ rectangular rows cols res /\
    forall i j x y, entry a i j = Some x -> entry b i j = Some y ->
                    entry res i j = Some (js_add x y).
Proof.
  intros Hrows Ha Hb.
  destruct (rectangular_row rows cols a 0 Ha Hrows) as (a0 & Ha0 & Hla0).
  destruct (rectangular_row rows cols b 0 Hb Hrows) as (b0 & Hb0 & Hlb0).
  unfold add.
  replace (length a =? length b)%nat with true
    by (symmetry; apply Nat.eqb_eq; destruct Ha, Hb; congruence).
  simpl. rewrite (row_lookup a 0 a0 Ha0). simpl.
  rewrite (row_lookup b 0 b0 Hb0). simpl.
  replace (length a0 =? length b0)%nat with true
    by (symmetry; apply Nat.eqb_eq; congruence).
  simpl. rewrite map_rows_add.
  2:{ intros k Hk. apply lookup_lt_is_Some_2. destruct Ha, Hb. simpl. lia. }
  eexists. split; [reflexivity|]. split; [split|].
  - rewrite length_imap. apply Ha.
  - apply Forall_lookup. intros i r Hr. rewrite list_lookup_imap in Hr.
    destruct (a !! i) as [ra|] eqn:Hra; simpl in Hr; [|discriminate].
    injection Hr as <-. rewrite length_imap.
    destruct Ha as [_ Ha]. exact (proj1 (Forall_lookup _ _) Ha i ra Hra).
  - intros i j x y Hx Hy. unfold entry in *.
    rewrite list_lookup_imap.
    destruct (a !! i) as [ra|]; simpl in *; [|discriminate].
    destruct (b !! i) as [rb|]; simpl in *; [|discriminate].
    rewrite list_lookup_imap, Hx. simpl.
    now rewrite (get_lookup rb j y Hy).
Qed.

(** C2, as the program behaves: two rectangular matrices of one shape with
    at least one row (their rows may be empty) are added entry by entry;
    matrices whose row counts differ, or whose first rows differ in length,
    are rejected with the dimension error; and for two matrices with no row
    the read of [a[0].length] throws a [TypeError]. *)
Theorem matrix_add_spec (a b : matrix) :
  (forall rows cols,
     (0 < rows)%nat -> rectangular rows cols a -> rectangular rows cols b ->
     exists res, add a b = Ok res /\ rectangular rows cols res /\
       forall i j x y, entry a i j = Some x -> entry b i j = Some y ->
                       entry res i j = Some (js_add x y)) /\
  (length a <> length b -> add a b = Thrown (Error add_message)) /\
  (forall ra rb, a !! 0%nat = Some ra -> b !! 0%nat = Some rb ->
                 length ra <> length rb -> add a b = Thrown (Error add_message)) /\
  (a = [] -> b = [] -> add a b = Thrown TypeError).
Proof.
  split; [|split; [|split]].
  - intros rows cols. apply add_same_shape.
  - intros Hne. unfold add.
    destruct (Nat.eqb_spec (length a) (length b)); [contradiction|reflexivity].
  - intros ra rb Hra Hrb Hne. unfold add.
    destruct (Nat.eqb_spec (length a) (length b)); [|reflexivity]. simpl.
    rewrite (row_lookup a 0 ra Hra), (row_lookup b 0 rb Hrb). simpl.
    destruct (Nat.eqb_spec (length ra) (length rb)); [contradiction|reflexivity].
  - intros -> ->. reflexivity.
Qed.

Lemma matrix_add_spec_witness :
  exists res,
    add (of_numbers [[1; 2]; [3; 4]]%float) (of_numbers [[10; 20]; [30; 40]]%float)
    = Ok res /\
    entry res 1 0 = Some (Num 33%float).
Proof.
  destruct (proj1 (matrix_add_spec (of_numbers [[1; 2]; [3; 4]]%float)
                            (of_numbers [[10; 20]; [30; 40]]%float))
              2%nat 2%nat) as (res & Hres & _ & Hentry).
  - lia.
  - split; [reflexivity|]. repeat constructor.
  - split; [reflexivity|]. repeat constructor.
  - exists res. split; [assumption|].
    apply (Hentry 1%nat 0%nat (Num 3%float) (Num 30%float)); reflexivity.
Defined.

(** C2, as stated, fails on matrices with no row, which [zeros(0, cols)]
    produces: [add] does not return the sum, it throws a [TypeError]. *)
Lemma add_zero_rows_fails :
  rectangular 0 3 (zeros 0 3) /\
  add (zeros 0 3) (zeros 0 3) = Thrown TypeError /\
  ~ (exists res, add (zeros 0 3) (zeros 0 3) = Ok res).
Proof.
  split; [split; [reflexivity|constructor]|]. split; [reflexivity|].
  intros [res H]. discriminate H.
Qed.

(** *** Loops that update one index per iteration *)

(** A loop whose body returns normally on every state that satisfies an
    invariant is a fold. *)
Lemma for_each_pure {S : Type} (P : S -> Prop) (body : nat -> S -> outcome S)
    (g : nat -> S -> S) (l : list nat) : forall s : S,
  (forall i s, i ∈ l -> P s -> body i s = Ok (g i s) /\ P (g i s)) ->
  P s ->
  for_each body l s = Ok (fold_left (fun s i => g i s) l s) /\
  P (fold_left (fun s i => g i s) l s).
Proof.
  induction l as [|i l IH]; intros s Hbody Hs; [split; [reflexivity|assumption]|].
  destruct (Hbody i s) as [Hi Hs']; [left|assumption|].
  cbn [for_each fold_left]. rewrite Hi. simpl.
  apply IH; [|assumption].
  intros k s0 Hk. apply Hbody. now right.
Qed.

(** Updates of one index accumulate. *)
Lemma fold_alter_same {A : Type} (h : nat -> A -> A) (i : nat) (ks : list nat) :
  forall l : list A,
  fold_left (fun acc k => alter (h k) i acc) ks l
  = alter (fun x => fold_left (fun y k => h k y) ks x) i l.
Proof.
  induction ks as [|k ks IH]; intros l; simpl.
  - symmetry. now apply list_alter_id.
  - rewrite IH, list_alter_alter_eq. reflexivity.
Qed.

(** Updates of distinct indices do not interfere. *)
Lemma fold_alter_lookup {A : Type} (f : nat -> A -> A) (ks : list nat) :
  NoDup ks -> forall (l : list A) (i : nat),
  fold_left (fun acc k => alter (f k) k acc) ks l !! i
  = if decide (i ∈ ks) then f i <$> l !! i else l !! i.
Proof.
  induction 1 as [|k ks Hk Hnd IH]; intros l i; simpl.
  - destruct (decide (i ∈ [])) as [Hin|_]; [|reflexivity].
    now apply elem_of_nil in Hin.
  - rewrite IH, list_lookup_alter.
    destruct (decide (i ∈ ks)) as [Hin|Hnin].
    + destruct (decide (k = i)) as [->|Hne]; [contradiction|].
      destruct (decide (i ∈ k :: ks)) as [_|Hn]; [reflexivity|].
      exfalso. apply Hn. now right.
    + destruct (decide (k = i)) as [->|Hne].
      * destruct (decide (i ∈ i :: ks)) as [_|Hn]; [reflexivity|].
        exfalso. apply Hn. left.
      * destruct (decide (i ∈ k :: ks)) as [Hin|_]; [|reflexivity].
        apply elem_of_cons in Hin. destruct Hin as [->|Hin]; contradiction.
Qed.

(** Updating every index in turn is an indexed map. *)
Lemma fold_alter_seq {A : Type} (f : nat -> A -> A) (l : list A) (n : nat) :
  n = length l ->
  fold_left (fun acc k => alter (f k) k acc) (seq 0 n) l = imap f l.
Proof.
  intros ->. apply list_eq. intros i.
  rewrite fold_alter_lookup by apply NoDup_seq.
  rewrite list_lookup_imap.
  destruct (decide (i ∈ seq 0 (length l))) as [Hin|Hnin]; [reflexivity|].
  rewrite elem_of_seq in Hnin.
  rewrite (lookup_ge_None_2 l i) by lia. reflexivity.
Qed.

Lemma insert_as_alter {A : Type} (f : A -> A) (l : list A) (i : nat) (x : A) :
  l !! i = Some x -> <[i := f x]> l = alter f i l.
Proof.
  intros Hx. apply list_eq. intros k.
  rewrite list_lookup_alter.
  destruct (decide (i = k)) as [->|Hne].
  - rewrite list_lookup_insert_eq; [now rewrite Hx|].
    apply lookup_lt_is_Some_1. now exists x.
  - now rewrite list_lookup_insert_ne.
Qed.

Lemma rectangular_alter (rows cols : nat) (m : matrix) (i : nat)
    (f : list value -> list value) :
  (forall r, length (f r) = length r) ->
  rectangular rows cols m -> rectangular rows cols (alter f i m).
Proof.
  intros Hf [Hlen Hall]. split; [now rewrite length_alter|].
  apply Forall_lookup. intros k r Hr. rewrite list_lookup_alter in Hr.
  destruct (decide (i = k)) as [->|Hne].
  - destruct (m !! k) as [r0|] eqn:Hr0; simpl in Hr; [|discriminate].
    injection Hr as <-. rewrite Hf.
    exact (proj1 (Forall_lookup _ _) Hall k r0 Hr0).
  - exact (proj1 (Forall_lookup _ _) Hall k r Hr).
Qed.

(** An assignment [m[i][j] = f(m[i][j])] inside the matrix. *)
Lemma set_entry_alter (rows cols : nat) (m : matrix) (i j : nat)
    (f : value -> value) (r : list value) :
  rectangular rows cols m -> (j < cols)%nat -> m !! i = Some r ->
  set_entry m i j (f (get r j)) = Ok (alter (alter f j) i m).
Proof.
  intros Hm Hj Hr.
  assert (Hlen : length r = cols).
  { destruct Hm as [_ Hall]. exact (proj1 (Forall_lookup _ _) Hall i r Hr). }
  destruct (lookup_lt_is_Some_2 r j) as [x Hx]; [lia|].
  unfold set_entry. rewrite (row_lookup m i r Hr). simpl.
  unfold array_set. destruct (decide (j < length r)%nat) as [_|Hn]; [|lia].
  rewrite (get_lookup r j x Hx).
  rewrite (insert_as_alter f r j x Hx).
  now rewrite (insert_as_alter (alter f j) m i r Hr).
Qed.

(** *** [zeros] and [identity] *)

Lemma zeros_rectangular (rows cols : nat) : rectangular rows cols (zeros rows cols).
Proof.
  split; [apply length_replicate|].
  apply Forall_lookup. intros i r Hr.
  apply lookup_replicate in Hr. destruct Hr as [-> _]. apply length_replicate.
Qed.

Lemma zeros_entry (rows cols i j : nat) :
  (i < rows)%nat -> (j < cols)%nat -> entry (zeros rows cols) i j = Some (Num 0%float).
Proof.
  intros Hi Hj. unfold entry, zeros.
  rewrite lookup_replicate_2 by assumption. simpl.
  now rewrite lookup_replicate_2.
Qed.

Lemma identity_ok (size : nat) :
  identity size
  = Ok (imap (fun i r => alter (fun _ => Num 1%float) i r) (zeros size size)).
Proof.
  unfold identity.
  destruct (for_each_pure (rectangular size size)
              (fun i m => set_entry m i i (Num 1%float))
              (fun i m => alter (alter (fun _ => Num 1%float) i) i m)
              (seq 0 size) (zeros size size)) as [-> _].
  - intros i m Hi Hm. apply elem_of_seq in Hi.
    destruct (rectangular_row size size m i Hm) as (r & Hr & _); [lia|].
    split.
    + exact (set_entry_alter size size m i i (fun _ => Num 1%float) r Hm ltac:(lia) Hr).
    + apply rectangular_alter; [|assumption]. intros r0. apply length_alter.
  - apply zeros_rectangular.
  - f_equal.
    apply (fold_alter_seq (fun i r => alter (fun _ => Num 1%float) i r)).
    symmetry. apply length_replicate.
Qed.

(** [identity(size)] is the [size] x [size] matrix with 1 on the diagonal
    and 0 elsewhere. *)
Lemma identity_entries (size : nat) :
  exists m, identity size = Ok m /\ rectangular size size m /\
    forall i k, (i < size)%nat -> (k < size)%nat ->
      exists r, m !! i = Some r /\
                r !! k = Some (Num (if decide (i = k) then 1 else 0)%float).
Proof.
  rewrite identity_ok. eexists. split; [reflexivity|]. split; [split|].
  - rewrite length_imap. apply length_replicate.
  - apply Forall_lookup. intros i r Hr. rewrite list_lookup_imap in Hr.
    unfold zeros in Hr.
    destruct (replicate size (replicate size (Num 0%float)) !! i) as [r0|] eqn:Hr0;
      simpl in Hr; [|discriminate].
    injection Hr as <-. rewrite length_alter.
    apply lookup_replicate in Hr0. destruct Hr0 as [-> _]. apply length_replicate.
  - intros i k Hi Hk. eexists. split.
    + rewrite list_lookup_imap. unfold zeros.
      rewrite lookup_replicate_2 by assumption. reflexivity.
    + rewrite list_lookup_alter.
      destruct (decide (i = k)) as [->|Hne].
      * now rewrite lookup_replicate_2.
      * now rewrite lookup_replicate_2.
Qed.

(** *** [multiply] *)

Section Multiply.
Variables (r m c : nat) (a b : matrix).
Hypothesis Ha : rectangular r m a.
Hypothesis Hb : rectangular m c b.

(** The loop over [k] adds the products to [result[i][j]]. *)
Lemma multiply_loop_k (i j : nat) (result : matrix) :
  (i < r)%nat -> (j < c)%nat -> rectangular r c result ->
  for_each (fun k => multiply_step a b i j k) (seq 0 (length b)) result
  = Ok (alter (alter (dot a b i j m) j) i result) /\
  rectangular r c (alter (alter (dot a b i j m) j) i result).
Proof.
  intros Hi Hj Hres.
  destruct (rectangular_row r m a i Ha Hi) as (ai & Hai & _).
  pose (h := fun (k : nat) (x : value) =>
               js_add x (js_mul (get ai k) (get (default [] (b !! k)) j))).
  destruct (for_each_pure (rectangular r c)
              (fun k => multiply_step a b i j k)
              (fun k res => alter (alter (h k) j) i res)
              (seq 0 (length b)) result) as [-> Hshape].
  - intros k res Hk Hshape. apply elem_of_seq in Hk.
    destruct Hb as [Hlb _].
    destruct (rectangular_row m c b k Hb) as (bk & Hbk & _); [lia|].
    destruct (rectangular_row r c res i Hshape Hi) as (ri & Hri & _).
    split.
    + unfold multiply_step.
      rewrite (row_lookup res i ri Hri), (row_lookup a i ai Hai),
              (row_lookup b k bk Hbk). simpl.
      unfold h. rewrite Hbk. simpl.
      exact (set_entry_alter r c res i j
               (fun x => js_add x (js_mul (get ai k) (get bk j))) ri Hshape Hj Hri).
    + apply rectangular_alter; [|assumption]. intros r0. apply length_alter.
  - assumption.
  - assert (Heq : fold_left (fun s k => alter (alter (h k) j) i s)
                            (seq 0 (length b)) result
                  = alter (alter (dot a b i j m) j) i result).
    { rewrite (fold_alter_same (fun k => alter (h k) j)).
      apply list_alter_ext; [|reflexivity]. intros r0 _.
      rewrite fold_alter_same. apply list_alter_ext; [|reflexivity].
      intros x _. unfold dot, h. rewrite Hai. simpl.
      destruct Hb as [-> _]. reflexivity. }
    rewrite Heq in Hshape |- *. split; [reflexivity|assumption].
Qed.

(** The loop over [j] fills row [i]. *)
Lemma multiply_loop_j (i : nat) (result : matrix) (b0 : list value) :
  (i < r)%nat -> length b0 = c -> rectangular r c result ->
  for_each (fun j =>
    for_each (fun k => multiply_step a b i j k) (seq 0 (length b)))
    (seq 0 (length b0)) result
  = Ok (alter (imap (fun j x => dot a b i j m x)) i result) /\
  rectangular r c (alter (imap (fun j x => dot a b i j m x)) i result).
Proof.
  intros Hi Hb0 Hres.
  destruct (for_each_pure (rectangular r c)
              (fun j => for_each (fun k => multiply_step a b i j k) (seq 0 (length b)))
              (fun j res => alter (alter (dot a b i j m) j) i res)
              (seq 0 (length b0)) result) as [-> Hshape].
  - intros j res Hj Hshape. apply elem_of_seq in Hj.
    apply multiply_loop_k; [assumption|lia|assumption].
  - assumption.
  - assert (Heq : fold_left (fun s j => alter (alter (dot a b i j m) j) i s)
                            (seq 0 (length b0)) result
                  = alter (imap (fun j x => dot a b i j m x)) i result).
    { rewrite (fold_alter_same (fun j => alter (dot a b i j m) j)).
      apply list_alter_ext; [|reflexivity]. intros r0 Hr0.
      apply (fold_alter_seq (fun j x => dot a b i j m x)).
      destruct Hres as [_ Hall]. rewrite Hb0. symmetry.
      exact (proj1 (Forall_lookup _ _) Hall i r0 Hr0). }
    rewrite Heq in Hshape |- *. split; [reflexivity|assumption].
Qed.

(** [multiply]: the result is the [r] x [c] matrix whose entry [(i, j)] is the
    sum over [k] of [a[i][k] * b[k][j]], accumulated from 0. *)
Lemma multiply_ok :
  (0 < r)%nat -> (0 < m)%nat ->
  multiply a b
  = Ok (imap (fun i row => imap (fun j x => dot a b i j m x) row) (zeros r c)).
Proof.
  intros Hr Hm.
  destruct (rectangular_row r m a 0 Ha Hr) as (a0 & Ha0 & Hla0).
  destruct (rectangular_row m c b 0 Hb Hm) as (b0 & Hb0 & Hlb0).
  unfold multiply. rewrite (row_lookup a 0 a0 Ha0). simpl.
  replace (length a0 =? length b)%nat with true
    by (symmetry; apply Nat.eqb_eq; destruct Hb; congruence).
  simpl. rewrite (row_lookup b 0 b0 Hb0). simpl.
  replace (length a) with r by (destruct Ha; congruence).
  rewrite Hlb0.
  destruct (for_each_pure (rectangular r c)
              (fun i => for_each (fun j =>
                 for_each (fun k => multiply_step a b i j k) (seq 0 (length b)))
                 (seq 0 (length b0)))
              (fun i res => alter (imap (fun j x => dot a b i j m x)) i res)
              (seq 0 r) (zeros r c)) as [Hloop _].
  - intros i res Hi Hshape. apply elem_of_seq in Hi.
    apply multiply_loop_j; [lia|assumption|assumption].
  - apply zeros_rectangular.
  - rewrite Hlb0 in Hloop. rewrite Hloop. f_equal.
    apply (fold_alter_seq (fun i row => imap (fun j x => dot a b i j m x) row)).
    symmetry. apply length_replicate.
Qed.

End Multiply.

(** *** [multiply(identity(n), M)] *)

Lemma of_numbers_rectangular (rows cols : nat) (M : list (list float)) :
  length M = rows -> Forall (fun r => length r = cols) M ->
  rectangular rows cols (of_numbers M).
Proof.
  intros Hlen Hall. unfold of_numbers. split; [now rewrite length_fmap|].
  apply Forall_lookup. intros i r Hr. rewrite list_lookup_fmap in Hr.
  destruct (M !! i) as [r0|] eqn:Hr0; simpl in Hr; [|discriminate].
  injection Hr as <-. rewrite length_fmap.
  exact (proj1 (Forall_lookup _ _) Hall i r0 Hr0).
Qed.

Lemma of_numbers_entry (rows cols : nat) (M : list (list float)) (i j : nat) :
  length M = rows -> Forall (fun r => length r = cols) M ->
  Forall (Forall (fun x => is_finite_double x = true)) M ->
  (i < rows)%nat -> (j < cols)%nat ->
  exists x, is_finite_double x = true /\
            get (default [] (of_numbers M !! i)) j = Num x /\
            entry (of_numbers M) i j = Some (Num x) /\
            entry (of_numbers ((fun r : list float => PrimFloat.add 0 <$> r) <$> M)) i j
            = Some (Num (0 + x)%float).
Proof.
  intros Hlen Hall Hfin Hi Hj.
  destruct (lookup_lt_is_Some_2 M i) as [ri Hri]; [lia|].
  assert (Hlr : length ri = cols) by exact (proj1 (Forall_lookup _ _) Hall i ri Hri).
  destruct (lookup_lt_is_Some_2 ri j) as [x Hx]; [lia|].
  exists x. split.
  { pose proof (proj1 (Forall_lookup _ _) Hfin i ri Hri) as Hrow.
    exact (proj1 (Forall_lookup _ _) Hrow j x Hx). }
  unfold entry, of_numbers. rewrite !list_lookup_fmap, Hri. simpl.
  unfold get. rewrite !list_lookup_fmap, Hx. simpl. auto.
Qed.

(** Row [i] of the identity times column [j] of a matrix of finite numbers:
    after the first [n] terms the sum is [0 + M[i][j]] if [i < n], else 0. *)
Lemma dot_identity (size cols : nat) (I : matrix) (M : list (list float)) (i j : nat) :
  (forall i k, (i < size)%nat -> (k < size)%nat ->
     exists r, I !! i = Some r /\
               r !! k = Some (Num (if decide (i = k) then 1 else 0)%float)) ->
  length M = size -> Forall (fun r => length r = cols) M ->
  Forall (Forall (fun x => is_finite_double x = true)) M ->
  (i < size)%nat -> (j < cols)%nat ->
  forall n x, (n <= size)%nat -> is_finite_double x = true ->
  entry (of_numbers M) i j = Some (Num x) ->
  dot I (of_numbers M) i j n (Num 0%float)
  = Num (if decide (i < n)%nat then 0 + x else 0)%float.
Proof.
  intros HI Hlen Hall Hfin Hi Hj n x Hn Hx Hentry.
  induction n as [|n IH]; [reflexivity|].
  unfold dot in *. rewrite seq_S, fold_left_app. simpl.
  rewrite IH by lia. clear IH.
  destruct (HI i n Hi ltac:(lia)) as (ri & Hri & Hrin).
  rewrite Hri. simpl. rewrite (get_lookup ri n _ Hrin).
  destruct (of_numbers_entry size cols M n j Hlen Hall Hfin ltac:(lia) Hj)
    as (y & Hy & -> & Hyn & _).
  unfold js_add, js_mul. simpl. f_equal.
  destruct (decide (i = n)) as [->|Hne].
  - rewrite Hyn in Hentry. injection Hentry as <-.
    destruct (decide (n < n)%nat); [lia|].
    destruct (decide (n < S n)%nat); [|lia].
    now rewrite double_mul_one.
  - destruct (decide (i < n)%nat); destruct (decide (i < S n)%nat); try lia.
    + now apply double_add_mul_zero.
    + now apply double_add_zero_mul_zero.
Qed.

(** C7, as the program behaves: for [n >= 1] and a matrix [M] of finite
    numbers with [n] rows, [identity(n)] is the [n] x [n] matrix with 1 on
    the diagonal and 0 elsewhere, [multiply(identity(n), M)] has the entries
    sum over k of [a[i][k] * b[k][j]], and entry [(i, j)] of the result is
    [0 + M[i][j]], a number [===] to [M[i][j]]. *)
Theorem multiply_identity_left (n cols : nat) (M : list (list float)) :
  (0 < n)%nat -> length M = n -> Forall (fun r => length r = cols) M ->
  Forall (Forall (fun x => is_finite_double x = true)) M ->
  exists I,
    identity n = Ok I /\ rectangular n n I /\
    (forall i k, (i < n)%nat -> (k < n)%nat ->
       entry I i k = Some (Num (if decide (i = k) then 1 else 0)%float)) /\
    multiply I (of_numbers M)
    = Ok (imap (fun i row => imap (fun j x => dot I (of_numbers M) i j n x) row)
               (zeros n cols)) /\
    multiply I (of_numbers M)
    = Ok (of_numbers ((fun r : list float => PrimFloat.add 0 <$> r) <$> M)) /\
    Forall (Forall (fun x => PrimFloat.eqb (0 + x) x = true)) M.
Proof.
  intros Hn Hlen Hall Hfin.
  destruct (identity_entries n) as (I & HI & Hshape & Hentries).
  pose proof (of_numbers_rectangular n cols M Hlen Hall) as HM.
  pose proof (multiply_ok n n cols I (of_numbers M) Hshape HM Hn Hn) as Hmul.
  exists I. split; [assumption|]. split; [assumption|]. split.
  { intros i k Hi Hk. destruct (Hentries i k Hi Hk) as (r & Hr & Hrk).
    unfold entry. rewrite Hr. simpl. assumption. }
  split; [assumption|]. split.
  - rewrite Hmul. f_equal.
    apply (matrix_ext n cols); [split| |].
    + rewrite length_imap. apply length_replicate.
    + apply Forall_lookup. intros i r Hr. rewrite list_lookup_imap in Hr.
      unfold zeros in Hr.
      destruct (replicate n (replicate cols (Num 0%float)) !! i) as [r0|] eqn:Hr0;
        simpl in Hr; [|discriminate].
      injection Hr as <-. rewrite length_imap.
      apply lookup_replicate in Hr0. destruct Hr0 as [-> _]. apply length_replicate.
    + apply of_numbers_rectangular.
      * now rewrite length_fmap.
      * apply Forall_fmap. eapply Forall_impl; [exact Hall|].
        intros r Hr. simpl. now rewrite length_fmap.
    + intros i j Hi Hj.
      destruct (of_numbers_entry n cols M i j Hlen Hall Hfin Hi Hj)
        as (x & Hx & _ & Hentry & ->).
      unfold entry. rewrite list_lookup_imap. unfold zeros.
      rewrite lookup_replicate_2 by assumption. simpl.
      rewrite list_lookup_imap, lookup_replicate_2 by assumption. simpl.
      rewrite (dot_identity n cols I M i j Hentries Hlen Hall Hfin Hi Hj n x
                 (le_n n) Hx Hentry).
      destruct (decide (i < n)%nat); [reflexivity|lia].
  - eapply Forall_impl; [exact Hfin|]. intros r Hr.
    eapply Forall_impl; [exact Hr|]. intros x Hx.
    exact (proj1 (double_zero_add x Hx)).
Qed.

Lemma multiply_identity_left_witness :
  exists I, identity 2 = Ok I /\
            multiply I (of_numbers [[5; 6; 7]; [8; 9; 10]]%float)
            = Ok (of_numbers [[5; 6; 7]; [8; 9; 10]]%float).
Proof.
  destruct (multiply_identity_left 2 3 [[5; 6; 7]; [8; 9; 10]]%float)
    as (I & HI & _ & _ & _ & Hmul & _).
  - lia.
  - reflexivity.
  - repeat constructor.
  - repeat constructor.
  - exists I. split; assumption.
Defined.

(** C7, as stated for every [n], fails at [n = 0]: [identity(0)] has no row,
    and [multiply] throws a [TypeError] on the read of [a[0].length]. *)
Lemma multiply_identity_zero_fails :
  identity 0 = Ok [] /\ length ([] : list (list float)) = 0%nat /\
  (I ← identity 0; multiply I (of_numbers [])) = Thrown TypeError.
Proof.
  repeat split.
Qed.

End MatrixFacts.

(** ** Lists *)

Section ListFacts.

Lemma filter_ext_elem {A : Type} (P Q : A -> Prop)
    `{!forall x, Decision (P x), !forall x, Decision (Q x)} (l : list A) :
  (forall x, x ∈ l -> P x <-> Q x) -> filter P l = filter Q l.
Proof.
  induction l as [|x l IH]; intros Hext; [reflexivity|].
  assert (Hx : P x <-> Q x) by (apply Hext; left).
  assert (Hl : filter P l = filter Q l).
  { apply IH. intros y Hy. apply Hext. now right. }
  destruct (decide (P x)) as [HP|HP].
  - rewrite !filter_cons_True by tauto. now rewrite Hl.
  - rewrite !filter_cons_False by tauto. assumption.
Qed.

End ListFacts.


(** ** Statistics: doubles through [mean] and [standardDeviation] *)

Section DoubleStatisticsFacts.
Import Statistics.

Lemma of_length_positive (n : nat) :
  0 < Z.of_nat n < 2 ^ 53 -> sf_positive (Prim2SF (a_of_length n)).
Proof.
  intros Hn. simpl a_of_length.
  rewrite FloatAxioms.of_uint63_spec, Uint63.of_Z_spec.
  rewrite Z.mod_small.
  - now apply binary_normalize_positive.
  - change Uint63Axioms.wB with (2 ^ 63). split; [lia|].
    assert (2 ^ 53 < 2 ^ 63) by reflexivity. lia.
Qed.

Lemma sum_number (xs : list float) : forall acc : float,
  Forall (fun x => is_finite_double x = true) xs ->
  sf_number (Prim2SF acc) ->
  sf_number (Prim2SF (fold_left (fun acc num => a_add acc num) xs acc)).
Proof.
  induction xs as [|x xs IH]; intros acc Hall Hacc; [assumption|].
  apply Forall_cons in Hall. destruct Hall as [Hx Hall].
  cbn [fold_left]. apply IH; [assumption|].
  simpl a_add. rewrite FloatAxioms.add_spec.
  apply SFadd_number; [assumption|now apply is_finite_double_spec].
Qed.

Lemma mean_number (xs : list float) :
  Forall (fun x => is_finite_double x = true) xs ->
  Z.of_nat (length xs) < 2 ^ 53 ->
  sf_number (Prim2SF (mean xs)).
Proof.
  intros Hall Hlen. unfold mean.
  destruct (Nat.eqb_spec (length xs) 0) as [_|Hne]; [discriminate|].
  simpl a_div. rewrite FloatAxioms.div_spec. apply SFdiv_number.
  - apply sum_number; [assumption|discriminate].
  - apply of_length_positive. lia.
Qed.

Lemma sum_squares_nonneg (mu : float) (xs : list float) : forall acc : float,
  Forall (fun x => is_finite_double x = true) xs ->
  sf_number (Prim2SF mu) ->
  sf_nonneg (Prim2SF acc) ->
  sf_nonneg (Prim2SF (fold_left (fun acc num => a_add acc (a_square (a_sub num mu)))
                                xs acc)).
Proof.
  induction xs as [|x xs IH]; intros acc Hall Hmu Hacc; [assumption|].
  apply Forall_cons in Hall. destruct Hall as [Hx Hall].
  cbn [fold_left]. apply IH; [assumption|assumption|].
  simpl. rewrite FloatAxioms.add_spec, FloatAxioms.mul_spec, FloatAxioms.sub_spec.
  apply SFadd_nonneg; [assumption|].
  apply SFmul_square_nonneg, SFsub_number; [|assumption].
  now apply is_finite_double_spec.
Qed.

Lemma standardDeviation_double_nonneg (xs : list float) :
  Forall (fun x => is_finite_double x = true) xs ->
  Z.of_nat (length xs) < 2 ^ 53 ->
  PrimFloat.leb 0 (standardDeviation xs) = true.
Proof.
  intros Hall Hlen. unfold standardDeviation.
  destruct (Nat.eqb_spec (length xs) 0) as [_|Hne]; [reflexivity|].
  cbv zeta. rewrite FloatAxioms.leb_spec.
  change (Prim2SF 0) with (S754_zero false).
  apply SFleb_zero_nonneg.
  simpl a_sqrt. rewrite FloatAxioms.sqrt_spec. apply SFsqrt_nonneg.
  simpl a_div. rewrite FloatAxioms.div_spec. apply SFdiv_nonneg.
  - apply sum_squares_nonneg; [assumption| |exact I].
    now apply mean_number.
  - apply of_length_positive. lia.
Qed.

End DoubleStatisticsFacts.

(** ** Statistics: [standardDeviation] *)

Section StandardDeviationFacts.
Import Statistics.
#[local] Open Scope R_scope.

(** *** Exact arithmetic *)

Lemma sum_squares_ge (mu : R) (xs : list R) : forall a : R,
  a <= fold_left (fun acc num => acc + (num - mu) * (num - mu)) xs a.
Proof.
  induction xs as [|x xs IH]; intros a; simpl; [lra|].
  specialize (IH (a + (x - mu) * (x - mu))).
  pose proof (Rle_0_sqr (x - mu)) as Hsq. unfold Rsqr in Hsq. lra.
Qed.

Lemma sum_squares_zero (mu : R) (xs : list R) : forall a : R,
  fold_left (fun acc num => acc + (num - mu) * (num - mu)) xs a = a
  <-> forall x, x ∈ xs -> x = mu.
Proof.
  induction xs as [|x xs IH]; intros a; simpl.
  - split; [|reflexivity]. intros _ y Hy. now apply elem_of_nil in Hy.
  - pose proof (sum_squares_ge mu xs (a + (x - mu) * (x - mu))) as Hge.
    pose proof (Rle_0_sqr (x - mu)) as Hsq. unfold Rsqr in Hsq.
    split.
    + intros Heq.
      assert (Hx : (x - mu) * (x - mu) = 0) by lra.
      assert (Hrest : forall y, y ∈ xs -> y = mu).
      { apply (IH (a + (x - mu) * (x - mu))). lra. }
      intros y Hy. apply elem_of_cons in Hy. destruct Hy as [->|Hy]; [|auto].
      apply Rmult_integral in Hx. lra.
    + intros Hall.
      assert (Hx : x = mu) by (apply Hall; left).
      assert (Hrest : forall y, y ∈ xs -> y = mu).
      { intros y Hy. apply Hall. now right. }
      apply (IH (a + (x - mu) * (x - mu))) in Hrest. rewrite Hrest. subst x. lra.
Qed.

Lemma sum_constant (c : R) (xs : list R) : forall a : R,
  (forall x, x ∈ xs -> x = c) ->
  fold_left (fun acc num => acc + num) xs a = a + INR (length xs) * c.
Proof.
  induction xs as [|x xs IH]; intros a Hall.
  - simpl. lra.
  - cbn [fold_left]. rewrite IH by (intros y Hy; apply Hall; now right).
    rewrite (Hall x) by left. cbn [length]. rewrite S_INR. lra.
Qed.

Lemma mean_constant (c : R) (xs : list R) :
  xs <> [] -> (forall x, x ∈ xs -> x = c) -> mean xs = c.
Proof.
  intros Hne Hall. unfold mean.
  destruct (Nat.eqb_spec (length xs) 0) as [Hlen|Hlen].
  { now apply nil_length_inv in Hlen. }
  unfold BasicMath.sum. simpl. rewrite (sum_constant c xs 0 Hall).
  assert (Hn : INR (length xs) <> 0) by now apply not_0_INR.
  field. assumption.
Qed.

Lemma fold_left_sum_of (f : R -> R) (xs : list R) : forall a : R,
  fold_left (fun acc num => acc + f num) xs a = a + sum_of (map f xs).
Proof.
  induction xs as [|x xs IH]; intros a; simpl; [lra|].
  rewrite IH. lra.
Qed.

Lemma mean_mean_of (xs : list R) : xs <> [] -> mean xs = mean_of xs.
Proof.
  intros Hne. unfold mean, mean_of.
  destruct (Nat.eqb_spec (length xs) 0) as [Hlen|_].
  { now apply nil_length_inv in Hlen. }
  unfold BasicMath.sum. simpl.
  rewrite (fold_left_sum_of (fun x => x) xs 0), map_id. f_equal. lra.
Qed.

Lemma standardDeviation_population (xs : list R) :
  xs <> [] -> standardDeviation xs = population_standard_deviation xs.
Proof.
  intros Hne. unfold standardDeviation, population_standard_deviation.
  destruct (Nat.eqb_spec (length xs) 0) as [Hlen|_].
  { now apply nil_length_inv in Hlen. }
  cbv zeta. simpl. rewrite (mean_mean_of xs Hne).
  rewrite (fold_left_sum_of (fun x => (x - mean_of xs) * (x - mean_of xs)) xs 0).
  f_equal. f_equal. unfold Rsqr. lra.
Qed.

(** C8, as the program behaves: [standardDeviation] is the population
    estimator.  On a non-empty sequence of real numbers, computed exactly,
    it is the square root of the mean of the squared deviations from the
    mean, with divisor N; on doubles it is the same formula, the sums taken
    from left to right starting at 0 and every operation rounded.  The
    standard deviation of the empty sequence is 0.  On every sequence of
    finite doubles the result is non-negative.  Computed in exact real
    arithmetic it is non-negative, and it is 0 exactly when all elements are
    equal. *)
Theorem standardDeviation_spec (ds : list float) (xs : list R) :
  standardDeviation ([] : list float) = 0%float /\
  standardDeviation ([] : list R) = 0 /\
  (Forall (fun d => is_finite_double d = true) ds ->
   (Z.of_nat (length ds) < 2 ^ 53)%Z ->
   PrimFloat.leb 0 (standardDeviation ds) = true) /\
  0 <= standardDeviation xs /\
  (standardDeviation xs = 0 <-> forall x y, x ∈ xs -> y ∈ xs -> x = y) /\
  (xs <> [] ->
   mean xs = sum_of xs / INR (length xs) /\
   standardDeviation xs
   = sqrt (sum_of (map (fun x => Rsqr (x - mean xs)) xs) / INR (length xs)) /\
   standardDeviation xs = population_standard_deviation xs) /\
  (ds <> [] ->
   let n := PrimFloat.of_uint63 (Uint63.of_Z (Z.of_nat (length ds))) in
   mean ds = (fold_left PrimFloat.add ds 0 / n)%float /\
   standardDeviation ds
   = PrimFloat.sqrt
       (fold_left (fun acc num => acc + (num - mean ds) * (num - mean ds))
                  ds 0 / n)%float).
Proof.
  split; [reflexivity|]. split; [reflexivity|].
  split; [apply standardDeviation_double_nonneg|].
  assert (Hreal : 0 <= standardDeviation xs /\
    (standardDeviation xs = 0 <-> forall x y, x ∈ xs -> y ∈ xs -> x = y)).
  { unfold standardDeviation.
    destruct (Nat.eqb_spec (length xs) 0) as [Hlen|Hlen].
    { apply nil_length_inv in Hlen. subst xs. split; [simpl; lra|].
      split; [|reflexivity]. intros _ x y Hx. now apply elem_of_nil in Hx. }
    assert (Hne : xs <> []) by (intros ->; contradiction).
    assert (Hn : 0 < INR (length xs)) by (apply lt_0_INR; lia).
    cbv zeta. simpl a_sqrt. simpl a_div. simpl a_of_length.
    set (mu := mean xs).
    change (fold_left _ xs a_zero)
      with (fold_left (fun acc num => acc + (num - mu) * (num - mu)) xs 0).
    pose proof (sum_squares_ge mu xs 0) as Hge.
    set (S := fold_left (fun acc num => acc + (num - mu) * (num - mu)) xs 0) in *.
    assert (Hv : 0 <= S / INR (length xs)).
    { apply Rmult_le_pos; [assumption|]. left. now apply Rinv_0_lt_compat. }
    split; [apply sqrt_pos|].
    assert (Hzero : sqrt (S / INR (length xs)) = 0 <-> S = 0).
    { split.
      - intros Hs. apply sqrt_eq_0 in Hs; [|assumption].
        apply Rmult_integral in Hs. destruct Hs as [Hs|Hs]; [assumption|].
        pose proof (Rinv_0_lt_compat _ Hn). lra.
      - intros ->. unfold Rdiv. rewrite Rmult_0_l. apply sqrt_0. }
    rewrite Hzero. unfold S. rewrite (sum_squares_zero mu xs 0).
    split.
    - intros Hall x y Hx Hy. rewrite (Hall x Hx), (Hall y Hy). reflexivity.
    - intros Hall.
      assert (Hx0 : exists x0, x0 ∈ xs).
      { destruct xs as [|x0 xs0]; [contradiction|]. exists x0. left. }
      destruct Hx0 as [x0 Hx0].
      assert (Hmu : mu = x0).
      { apply mean_constant; [assumption|]. intros x Hx. now apply Hall. }
      intros x Hx. rewrite Hmu. now apply Hall. }
  split; [apply Hreal|]. split; [apply Hreal|]. split.
  - intros Hne. split; [exact (mean_mean_of xs Hne)|].
    split; [|exact (standardDeviation_population xs Hne)].
    rewrite (standardDeviation_population xs Hne), (mean_mean_of xs Hne).
    reflexivity.
  - intros Hne n. unfold standardDeviation, mean.
    destruct (Nat.eqb_spec (length ds) 0) as [Hlen|_].
    { now apply nil_length_inv in Hlen. }
    split; reflexivity.
Qed.

(** The population standard deviation of 2, 4, 4, 4, 5, 5, 7, 9 is 2, and the
    result on the doubles 1, 2, 2, 3, 4, 4, 4, 5 is non-negative. *)
Lemma standardDeviation_spec_witness :
  PrimFloat.leb 0 (standardDeviation [1; 2; 2; 3; 4; 4; 4; 5]%float) = true /\
  standardDeviation [2; 4; 4; 4; 5; 5; 7; 9] = 2.
Proof.
  pose proof (standardDeviation_spec [1; 2; 2; 3; 4; 4; 4; 5]%float
                                     [2; 4; 4; 4; 5; 5; 7; 9])
    as (_ & _ & Hnonneg & _ & _ & Hpop & _).
  split.
  - apply Hnonneg.
    + repeat constructor.
    + simpl. lia.
  - destruct (Hpop ltac:(discriminate)) as (_ & _ & ->).
    unfold population_standard_deviation, mean_of, sum_of. simpl.
    replace (_ / _) with (Rsqr 2) by (unfold Rsqr; field).
    apply sqrt_Rsqr. lra.
Defined.

(** C8, as stated for the numbers of the program, fails in both directions
    of the equivalence.  Three copies of the double nearest 0.1 have a mean
    that is rounded away from them, and a deviation of 2^-56; and the squares
    of the deviations of 2^-600 and 2^-599 from their mean underflow to 0. *)
Lemma standardDeviation_float_rounding :
  standardDeviation
    [0x1.999999999999ap-4; 0x1.999999999999ap-4; 0x1.999999999999ap-4]%float
  = 0x1p-56%float /\
  PrimFloat.eqb 0x1p-56 0 = false /\
  standardDeviation [0x1p-600; 0x1p-599]%float = 0%float /\
  PrimFloat.eqb 0x1p-600 0x1p-599 = false.
Proof.
  repeat split; vm_compute; reflexivity.
Qed.

End StandardDeviationFacts.


(** ** Number theory: [fibonacciSequence] *)

Section FibonacciFacts.
Import NumberTheory.

(** The body of the loop: [sequence[i] = sequence[i - 1] + sequence[i - 2]]. *)
#[local] Abbreviation fibonacci_step :=
  (fun (sequence : list value) (i : nat) =>
     array_set sequence i (js_add (get sequence (i - 1)) (get sequence (i - 2)))).

(** An assignment at the index [length r] appends one element. *)
Lemma array_set_at_length (r : list value) (v : value) :
  array_set r (length r) v = r ++ [v].
Proof.
  unfold array_set. destruct (decide (length r < length r)%nat); [lia|].
  now rewrite Nat.sub_diag.
Qed.

Lemma get_app_l (r : list value) (v : value) (j : nat) :
  (j < length r)%nat -> get (r ++ [v]) j = get r j.
Proof. intros Hj. unfold get. now rewrite lookup_app_l. Qed.

(** Started on an array of [lo] elements at [i = lo], the loop appends one
    element per iteration, each the sum of the two before it. *)
Lemma fibonacci_loop (lo : nat) (s : list value) (k : nat) :
  (2 <= lo)%nat -> length s = lo ->
  let r := fold_left fibonacci_step (seq lo k) s in
  length r = (lo + k)%nat /\ take lo r = s /\
  forall i, (lo <= i < lo + k)%nat ->
            r !! i = Some (js_add (get r (i - 1)) (get r (i - 2))).
Proof.
  intros Hlo Hs. induction k as [|k IH].
  - simpl. split; [lia|]. split; [|lia]. rewrite <- Hs. apply firstn_all.
  - cbv zeta in *. rewrite seq_S, fold_left_app. cbn [fold_left].
    destruct IH as (Hlen & Htake & Hrec).
    set (r := fold_left fibonacci_step (seq lo k) s) in *.
    rewrite <- Hlen, array_set_at_length.
    split; [rewrite length_app; simpl; lia|]. split.
    + rewrite take_app_le by lia. assumption.
    + intros i Hi. rewrite !get_app_l by lia.
      destruct (decide (i < length r)%nat) as [Hlt|Hge].
      * rewrite lookup_app_l by assumption. apply Hrec. lia.
      * replace i with (length r) by lia.
        rewrite list_lookup_middle by reflexivity. reflexivity.
Qed.

Lemma fibonacciSequence_unfold (n : Z) :
  3 <= n ->
  fibonacciSequence n
  = fold_left fibonacci_step (seq 2 (Z.to_nat n - 2)) [Num 0%float; Num 1%float].
Proof.
  intros Hn. unfold fibonacciSequence.
  destruct (Z.leb_spec n 0); [lia|].
  destruct (Z.eqb_spec n 1); [lia|].
  destruct (Z.eqb_spec n 2); [lia|]. reflexivity.
Qed.

(** The first two elements of a sequence of three or more. *)
Lemma fibonacciSequence_take_2 (n : Z) :
  3 <= n -> take 2 (fibonacciSequence n) = [Num 0%float; Num 1%float].
Proof.
  intros Hn. rewrite fibonacciSequence_unfold by assumption.
  now destruct (fibonacci_loop 2 [Num 0%float; Num 1%float] (Z.to_nat n - 2))
    as (_ & Htake & _).
Qed.

(** A shorter sequence is the beginning of a longer one. *)
Lemma fibonacciSequence_take (n m : Z) :
  n <= m -> fibonacciSequence n = take (Z.to_nat n) (fibonacciSequence m).
Proof.
  intros Hnm.
  destruct (Z.le_gt_cases n 0) as [Hn0|Hn0].
  { unfold fibonacciSequence at 1. destruct (Z.leb_spec n 0); [|lia].
    now replace (Z.to_nat n) with 0%nat by lia. }
  destruct (Z.le_gt_cases m 2) as [Hm2|Hm2].
  { assert (Hcases : (n = 1 /\ m = 1) \/ (n = 1 /\ m = 2) \/ (n = 2 /\ m = 2)) by lia.
    destruct Hcases as [[-> ->]|[[-> ->]|[-> ->]]]; reflexivity. }
  destruct (Z.le_gt_cases n 2) as [Hn2|Hn2].
  { assert (Hcases : n = 1 \/ n = 2) by lia.
    pose proof (fibonacciSequence_take_2 m ltac:(lia)) as H2.
    destruct Hcases as [->| ->].
    - change (Z.to_nat 1) with 1%nat.
      replace (take 1 (fibonacciSequence m))
        with (take 1 (take 2 (fibonacciSequence m)))
        by (rewrite take_take; reflexivity).
      now rewrite H2.
    - symmetry. exact H2. }
  rewrite !fibonacciSequence_unfold by lia.
  replace (Z.to_nat m - 2)%nat
    with ((Z.to_nat n - 2) + (Z.to_nat m - Z.to_nat n))%nat by lia.
  rewrite seq_app, fold_left_app.
  destruct (fibonacci_loop 2 [Num 0%float; Num 1%float] (Z.to_nat n - 2))
    as (Hlen & _); [lia|reflexivity|].
  set (s := fold_left fibonacci_step (seq 2 (Z.to_nat n - 2))
                      [Num 0%float; Num 1%float]) in *.
  destruct (fibonacci_loop (2 + (Z.to_nat n - 2)) s (Z.to_nat m - Z.to_nat n))
    as (_ & Htake & _); [lia|assumption|].
  symmetry. replace (Z.to_nat n) with (2 + (Z.to_nat n - 2))%nat at 1 by lia.
  exact Htake.
Qed.

(** X1: [fibonacciSequence(n)] is empty for [n <= 0]; for [n >= 1] it has
    exactly [n] elements, starts 0, 1, and every later element is the sum,
    in the program's arithmetic, of the two elements before it. *)
Theorem fibonacciSequence_recurrence (n : Z) :
  (n <= 0 -> fibonacciSequence n = []) /\
  (0 < n ->
   length (fibonacciSequence n) = Z.to_nat n /\
   fibonacciSequence n !! 0%nat = Some (Num 0%float) /\
   (1 < n -> fibonacciSequence n !! 1%nat = Some (Num 1%float)) /\
   forall i, (2 <= i < Z.to_nat n)%nat ->
     fibonacciSequence n !! i
     = Some (js_add (get (fibonacciSequence n) (i - 1))
                    (get (fibonacciSequence n) (i - 2)))).
Proof.
  split.
  { intros Hn. unfold fibonacciSequence. now destruct (Z.leb_spec n 0); [|lia]. }
  intros Hn.
  destruct (Z.le_gt_cases n 2) as [Hn2|Hn2].
  { assert (Hcases : n = 1 \/ n = 2) by lia.
    destruct Hcases as [->| ->]; (repeat split; [lia || reflexivity..|]);
      intros i Hi; simpl in Hi; lia. }
  pose proof (fibonacciSequence_take_2 n ltac:(lia)) as H2.
  rewrite fibonacciSequence_unfold in * by lia.
  destruct (fibonacci_loop 2 [Num 0%float; Num 1%float] (Z.to_nat n - 2))
    as (Hlen & _ & Hrec); [lia|reflexivity|].
  set (r := fold_left fibonacci_step (seq 2 (Z.to_nat n - 2))
                      [Num 0%float; Num 1%float]) in *.
  split; [lia|].
  assert (Hlookup : forall j, (j < 2)%nat -> r !! j = [Num 0%float; Num 1%float] !! j).
  { intros j Hj. rewrite <- H2. symmetry. now apply lookup_take_lt. }
  split; [exact (Hlookup 0%nat ltac:(lia))|].
  split; [intros _; exact (Hlookup 1%nat ltac:(lia))|].
  intros i Hi. apply Hrec. lia.
Qed.

Lemma fibonacciSequence_recurrence_witness :
  length (fibonacciSequence 6) = 6%nat /\
  fibonacciSequence 6 !! 5%nat
  = Some (js_add (get (fibonacciSequence 6) 4) (get (fibonacciSequence 6) 3)).
Proof.
  destruct (proj2 (fibonacciSequence_recurrence 6)) as (Hlen & _ & _ & Hrec); [lia|].
  split; [exact Hlen|]. apply (Hrec 5%nat). simpl. lia.
Defined.

(** The integers held by the elements of [fibonacciSequence(79)]. *)
Lemma fibonacciSequence_79 :
  ((fun v => match v with
             | Num x => integer_value x
             | Undefined => None
             end) <$> fibonacciSequence 79)
  = ((fun i => Some (fibonacci i)) <$> seq 0 79).
Proof. vm_compute. reflexivity. Qed.

(** X2: up to [n = 79] every element of [fibonacciSequence(n)] is exactly a
    Fibonacci number: element [i] is the double that holds F(i).  (F(78) is
    the last Fibonacci number below 2^53.) *)
Theorem fibonacciSequence_exact (n : Z) (i : nat) :
  n <= 79 -> (i < Z.to_nat n)%nat ->
  exists x, fibonacciSequence n !! i = Some (Num x) /\
            integer_value x = Some (fibonacci i).
Proof.
  intros Hn Hi.
  rewrite (fibonacciSequence_take n 79 Hn), lookup_take_lt by assumption.
  pose proof (f_equal (fun l => l !! i) fibonacciSequence_79) as H.
  cbv beta in H. rewrite !list_lookup_fmap in H.
  rewrite lookup_seq_lt in H by lia.
  destruct (fibonacciSequence 79 !! i) as [[x|]|]; try discriminate H.
  exists x. split; [reflexivity|]. injection H as H. exact H.
Qed.

Lemma fibonacciSequence_exact_witness :
  exists x, fibonacciSequence 10 !! 9%nat = Some (Num x) /\
            integer_value x = Some 34.
Proof.
  apply (fibonacciSequence_exact 10 9); [lia|simpl; lia].
Defined.

(** Beyond that the additions round: element 79 of a longer sequence is not
    F(79) = 14472334024676221. *)
Example fibonacciSequence_80_rounds :
  fibonacci 79 = 14472334024676221 /\
  exists x, fibonacciSequence 80 !! 79%nat = Some (Num x) /\
            integer_value x = Some 14472334024676220.
Proof.
  split; [reflexivity|]. eexists. split; [vm_compute; reflexivity|].
  vm_compute. reflexivity.
Qed.

(** X3: a shorter sequence is the beginning of every longer one; the
    results for [n = 1] and [n = 2], which the code returns without running
    the loop, agree with the elements the loop computes. *)
Theorem fibonacciSequence_prefix (n m : Z) :
  n <= m ->
  fibonacciSequence n `prefix_of` fibonacciSequence m /\
  forall i, (i < Z.to_nat n)%nat ->
            fibonacciSequence m !! i = fibonacciSequence n !! i.
Proof.
  intros Hnm. rewrite (fibonacciSequence_take n m Hnm). split.
  - exists (drop (Z.to_nat n) (fibonacciSequence m)).
    symmetry. apply take_drop.
  - intros i Hi. symmetry. now apply lookup_take_lt.
Qed.

Lemma fibonacciSequence_prefix_witness :
  fibonacciSequence 2 `prefix_of` fibonacciSequence 7.
Proof.
  apply (fibonacciSequence_prefix 2 7). lia.
Defined.

End FibonacciFacts.

(** ** Number theory: [isPerfect] *)

Section PerfectFacts.
Import NumberTheory.





(** The proper divisors [d] of [n] for which [d] or its codivisor [n / d] is
    below [i]: those the loop has added when it reaches [i]. *)
#[local] Abbreviation seen n i :=
  (fun d : Z => Z.rem n d = 0 /\ (d < i \/ Z.quot n d < i)).









End PerfectFacts.

(** ** Number theory: [gcd] and [lcm] on all integers *)

Section GcdLcmFacts.
Import NumberTheory.

(** The absolute value of the result is the greatest common divisor, and the
    result is non-negative when both arguments are. *)
Lemma gcd_abs_returns (fuel : nat) : forall a b : Z,
  (Z.abs_nat b < fuel)%nat ->
  exists g, gcd fuel a b = Ok g /\ Z.abs g = Z.gcd a b /\
            (0 <= a -> 0 <= b -> 0 <= g).
Proof.
  induction fuel as [|fuel IH]; intros a b Hfuel; [lia|].
  rewrite gcd_unfold. destruct (Z.eqb_spec b 0) as [->|Hb].
  - exists a. split; [reflexivity|]. split; [now rewrite Z.gcd_0_r|auto].
  - destruct (IH b (Z.rem a b)) as (g & Hg & Habs & Hsign).
    { pose proof (rem_smaller a b Hb). lia. }
    exists g. split; [assumption|]. split.
    + rewrite Habs, (Z.gcd_comm b), Z.gcd_rem by assumption. apply Z.gcd_comm.
    + intros Ha Hb0. apply Hsign; [assumption|].
      apply Z.rem_nonneg; assumption.
Qed.

(** X5: the result of [gcd] is, up to its sign, the greatest common divisor:
    it divides both arguments, every common divisor divides it, and it is
    non-negative whenever both arguments are. *)
Theorem gcd_greatest_common_divisor (fuel : nat) (a b : Z) :
  (Z.abs_nat b < fuel)%nat ->
  exists g, gcd fuel a b = Ok g /\
            (g | a) /\ (g | b) /\
            (forall d, (d | a) -> (d | b) -> (d | g)) /\
            Z.abs g = Z.gcd a b /\
            (0 <= a -> 0 <= b -> 0 <= g).
Proof.
  intros Hfuel.
  destruct (gcd_abs_returns fuel a b Hfuel) as (g & Hg & Habs & Hsign).
  exists g. split; [assumption|].
  assert (Hdiv : forall x, (Z.gcd a b | x) -> (g | x)).
  { intros x Hx. apply Z.divide_abs_l. now rewrite Habs. }
  split; [apply Hdiv, Z.gcd_divide_l|].
  split; [apply Hdiv, Z.gcd_divide_r|].
  split; [|split; assumption].
  intros d Hda Hdb. apply Z.divide_abs_r. rewrite Habs.
  now apply Z.gcd_greatest.
Qed.

Lemma gcd_greatest_common_divisor_witness :
  exists g, gcd 19 48 18 = Ok g /\ Z.abs g = 6.
Proof.
  destruct (gcd_greatest_common_divisor 19 48 18) as (g & Hg & _ & _ & _ & Habs & _).
  - simpl. lia.
  - exists g. split; assumption.
Defined.

Lemma Qred_inject_Z (k : Z) : Qred (inject_Z k) = inject_Z k.
Proof.
  unfold Qred, inject_Z.
  pose proof (Z.ggcd_gcd k 1) as Hgcd.
  pose proof (Z.ggcd_correct_divisors k 1) as Hdiv.
  destruct (Z.ggcd k 1) as [g [aa bb]]. simpl in *.
  rewrite Z.gcd_1_r in Hgcd. subst g. destruct Hdiv as [Hk Hone].
  replace aa with k by lia. replace bb with 1 by lia. reflexivity.
Qed.

(** An exact quotient of integers is an integer. *)
Lemma js_div_exact (x g k : Z) :
  g <> 0 -> x = g * k -> js_div x g = Finite (inject_Z k).
Proof.
  intros Hg ->. unfold js_div.
  destruct (Z.eqb_spec g 0); [contradiction|]. f_equal.
  rewrite (Qred_complete _ (inject_Z k)).
  - apply Qred_inject_Z.
  - rewrite inject_Z_mult, Qmult_comm. apply Qdiv_mult_l.
    intros H. apply Hg. unfold Qeq in H. simpl in H. lia.
Qed.

(** X6: for every pair of integers other than (0, 0) whose absolute values
    and whose product's absolute value are at most 2^53 (the arguments and
    the product [a * b] are then exact doubles, and so is the quotient),
    [lcm] returns an integer [l] of absolute value at most 2^53 that is a
    common multiple of both arguments and whose absolute value is their
    least common multiple; it is 0 when one argument is 0, and positive when
    both arguments are positive. *)
Theorem lcm_least_common_multiple (fuel : nat) (a b : Z) :
  (Z.abs_nat b < fuel)%nat ->
  Z.abs a <= 2 ^ 53 -> Z.abs b <= 2 ^ 53 -> Z.abs (a * b) <= 2 ^ 53 ->
  (a, b) <> (0, 0) ->
  exists l, lcm fuel a b = Ok (Finite (inject_Z l)) /\
            Z.abs l <= 2 ^ 53 /\
            (a | l) /\ (b | l) /\
            Z.abs l = Z.lcm a b /\
            (0 < a -> 0 < b -> 0 < l).
Proof.
  intros Hfuel _ _ Hbound Hne.
  destruct (gcd_abs_returns fuel a b Hfuel) as (g & Hg & Habs & Hsign).
  assert (Hg0 : g <> 0).
  { intros ->. simpl in Habs. symmetry in Habs.
    apply Z.gcd_eq_0 in Habs. destruct Habs as [-> ->]. contradiction. }
  destruct (Z.gcd_divide_l a b) as [a' Ha'].
  destruct (Z.gcd_divide_r a b) as [b' Hb'].
  set (G := Z.gcd a b) in *.
  assert (HG : 0 < G) by lia.
  assert (Hsgn : g * Z.sgn g = G) by (rewrite <- Habs; lia).
  assert (Hsgn1 : Z.sgn g * Z.sgn g = 1) by lia.
  assert (Ha'abs : Z.abs a' = a' * Z.sgn a') by lia.
  assert (Hb'abs : Z.abs b' = b' * Z.sgn b') by lia.
  set (l := Z.sgn g * (Z.abs a' * Z.abs b' * G)).
  assert (Hprod : Z.abs (a * b) = g * l).
  { unfold l. rewrite Ha', Hb'.
    replace (a' * G * (b' * G)) with ((a' * b') * (G * G)) by ring.
    rewrite (Z.abs_mul (a' * b')), (Z.abs_mul a' b'), (Z.abs_eq (G * G)) by nia.
    replace (g * (Z.sgn g * (Z.abs a' * Z.abs b' * G)))
      with (Z.abs a' * Z.abs b' * ((g * Z.sgn g) * G)) by ring.
    rewrite Hsgn. ring. }
  assert (Hlabs : Z.abs l = Z.abs a' * Z.abs b' * G).
  { unfold l. rewrite Z.abs_mul.
    rewrite (Z.abs_eq (Z.abs a' * Z.abs b' * G)) by (apply Z.mul_nonneg_nonneg; lia).
    replace (Z.abs (Z.sgn g)) with 1
      by (destruct g; [contradiction|reflexivity|reflexivity]).
    ring. }
  exists l. split.
  { unfold lcm. rewrite Hg. simpl. f_equal. now apply js_div_exact. }
  split.
  { assert (Hg1 : 1 <= Z.abs g) by lia.
    assert (Hl0 : 0 <= Z.abs l) by lia.
    assert (Hle : 1 * Z.abs l <= Z.abs g * Z.abs l)
      by (apply Z.mul_le_mono_nonneg_r; assumption).
    rewrite <- Z.abs_mul, <- Hprod, Z.abs_idemp in Hle. lia. }
  split; [|split; [|split]].
  - exists (Z.sgn g * Z.sgn a' * Z.abs b'). unfold l.
    rewrite Ha' at 1. rewrite Ha'abs. ring.
  - exists (Z.sgn g * Z.sgn b' * Z.abs a'). unfold l.
    rewrite Hb' at 1. rewrite Hb'abs. ring.
  - rewrite Hlabs. unfold Z.lcm. fold G.
    rewrite Hb' at 1. rewrite Z.div_mul by lia. rewrite Ha' at 1.
    replace (a' * G * b') with (a' * b' * G) by ring.
    now rewrite !Z.abs_mul, (Z.abs_eq G) by lia.
  - intros Ha Hb. specialize (Hsign ltac:(lia) ltac:(lia)).
    assert (Hgs : Z.sgn g = 1) by lia.
    assert (Ha'0 : a' <> 0) by (intros ->; lia).
    assert (Hb'0 : b' <> 0) by (intros ->; lia).
    unfold l. rewrite Hgs, Z.mul_1_l.
    apply Z.mul_pos_pos; [apply Z.mul_pos_pos; lia|assumption].
Qed.

Lemma lcm_least_common_multiple_witness :
  exists l, lcm 7 4 (-6) = Ok (Finite (inject_Z l)) /\ Z.abs l = 12.
Proof.
  destruct (lcm_least_common_multiple 7 4 (-6))
    as (l & Hl & _ & _ & _ & Habs & _).
  - simpl. lia.
  - simpl. lia.
  - simpl. lia.
  - simpl. lia.
  - discriminate.
  - exists l. split; assumption.
Defined.

End GcdLcmFacts.

(** ** Doubles: commutativity of [+] and [*] *)

Section DoubleAlgebraFacts.

Lemma SFmul_comm (x y : spec_float) : SF64mul x y = SF64mul y x.
Proof.
  unfold SF64mul, SFmul.
  destruct x as [sx|sx| |sx mx ex], y as [sy|sy| |sy my ey];
    try reflexivity; rewrite (xorb_comm sx sy); try reflexivity.
  now rewrite (Pos.mul_comm mx my), (Z.add_comm ex ey).
Qed.

Lemma double_mul_comm (x y : float) : (x * y)%float = (y * x)%float.
Proof.
  apply Prim2SF_inj. rewrite !FloatAxioms.mul_spec. apply SFmul_comm.
Qed.

Lemma SFadd_comm (x y : spec_float) : SF64add x y = SF64add y x.
Proof.
  unfold SF64add, SFadd.
  destruct x as [sx|sx| |sx mx ex], y as [sy|sy| |sy my ey]; try reflexivity.
  - destruct sx, sy; reflexivity.
  - destruct sx, sy; reflexivity.
  - now rewrite (Z.min_comm ex ey), Z.add_comm.
Qed.

Lemma double_add_comm (x y : float) : (x + y)%float = (y + x)%float.
Proof.
  apply Prim2SF_inj. rewrite !FloatAxioms.add_spec. apply SFadd_comm.
Qed.

Lemma js_add_comm (v w : value) : js_add v w = js_add w v.
Proof. unfold js_add. now rewrite double_add_comm. Qed.

Lemma js_mul_comm (v w : value) : js_mul v w = js_mul w v.
Proof. unfold js_mul. now rewrite double_mul_comm. Qed.

End DoubleAlgebraFacts.

(** ** Matrices: [determinant2x2] and the algebra of the operations *)

Section MatrixAlgebraFacts.
Import Matrix.

(** *** [determinant2x2] *)

Lemma double_mul_nan_r (x : float) : (x * nan = nan)%float.
Proof.
  apply Prim2SF_inj. rewrite FloatAxioms.mul_spec.
  change (Prim2SF nan) with S754_nan. now destruct (Prim2SF x).
Qed.

Lemma double_sub_nan_l (y : float) : (nan - y = nan)%float.
Proof.
  apply Prim2SF_inj. rewrite FloatAxioms.sub_spec.
  change (Prim2SF nan) with S754_nan. reflexivity.
Qed.

(** X7: [determinant2x2] checks the number of rows and the length of the
    first row only.  Every other shape, the matrix with no row included, is
    rejected with the error 'Matrix must be 2x2' and never with a
    [TypeError]; the length of the second row is not checked, and when it has
    no second entry the result is [NaN]. *)
Theorem determinant2x2_shape_check (m : matrix) :
  determinant2x2 m <> Thrown TypeError /\
  (determinant2x2 m = Thrown (Error determinant_message) <->
   length m <> 2%nat \/ exists r0, m !! 0%nat = Some r0 /\ length r0 <> 2%nat) /\
  (forall x y r1, m = [[x; y]; r1] ->
     determinant2x2 m
     = Ok (js_sub (js_mul x (get r1 1)) (js_mul y (get r1 0))) /\
     ((length r1 < 2)%nat -> determinant2x2 m = Ok (Num nan))).
Proof.
  unfold determinant2x2.
  destruct m as [|r0 [|r1 [|r2 m]]]; simpl.
  - split; [discriminate|]. split; [split; [intros _; left; lia|reflexivity]|].
    intros x y r1 H. discriminate H.
  - split; [discriminate|]. split; [split; [intros _; left; lia|reflexivity]|].
    intros x y r1 H. discriminate H.
  - destruct (Nat.eqb_spec (length r0) 2) as [Hr0|Hr0]; simpl.
    + split; [discriminate|]. split.
      * split; [discriminate|]. intros [H|(r & [= <-] & H)]; contradiction.
      * intros x y r1' [= -> ->]. split; [reflexivity|].
        intros Hlen. f_equal. unfold js_sub, js_mul. f_equal.
        destruct r1' as [|z [|w r1']]; simpl in *; try lia.
        -- now rewrite !double_mul_nan_r, double_sub_nan_l.
        -- now rewrite double_mul_nan_r, double_sub_nan_l.
    + split; [discriminate|]. split.
      * split; [|reflexivity]. intros _. right. exists r0. auto.
      * intros x y r1' [= -> ->]. simpl in Hr0. contradiction.
  - split; [discriminate|]. split; [split; [intros _; left; lia|reflexivity]|].
    intros x y r1' H. discriminate H.
Qed.

Lemma determinant2x2_shape_check_witness :
  determinant2x2 [] = Thrown (Error determinant_message) /\
  determinant2x2 [[Num 1%float; Num 2%float]; [Num 3%float]] = Ok (Num nan).
Proof.
  split.
  - apply (proj1 (proj2 (determinant2x2_shape_check []))). left. simpl. lia.
  - destruct (proj2 (proj2 (determinant2x2_shape_check
                              [[Num 1%float; Num 2%float]; [Num 3%float]]))
                (Num 1%float) (Num 2%float) [Num 3%float] eq_refl) as [_ H].
    apply H. simpl. lia.
Defined.

(** X8: the determinant of a 2 x 2 matrix and of its transpose are the same
    number. *)
Theorem determinant2x2_transpose (m : matrix) :
  rectangular 2 2 m ->
  exists t d, transpose m = Ok t /\ rectangular 2 2 t /\
              determinant2x2 m = Ok d /\ determinant2x2 t = Ok d.
Proof.
  intros [Hlen Hrows].
  destruct m as [|r0 [|r1 [|r2 m]]]; try discriminate Hlen.
  apply Forall_cons in Hrows. destruct Hrows as [H0 Hrows].
  apply Forall_cons in Hrows. destruct Hrows as [H1 _].
  destruct r0 as [|a [|b [|? r0]]]; try discriminate H0.
  destruct r1 as [|c [|d [|? r1]]]; try discriminate H1.
  eexists. eexists. split; [reflexivity|]. split.
  { split; [reflexivity|]. repeat constructor. }
  split; [reflexivity|]. cbn. unfold get. simpl.
  now rewrite (js_mul_comm c b).
Qed.

Lemma determinant2x2_transpose_witness :
  exists t d, transpose (of_numbers [[1; 2]; [3; 4]]%float) = Ok t /\
              determinant2x2 (of_numbers [[1; 2]; [3; 4]]%float) = Ok d /\
              determinant2x2 t = Ok d.
Proof.
  destruct (determinant2x2_transpose (of_numbers [[1; 2]; [3; 4]]%float))
    as (t & d & Ht & _ & Hd & Htd).
  - split; [reflexivity|]. repeat constructor.
  - exists t, d. auto.
Defined.

(** *** [add] and [transpose] *)

(** X9: on matrices of one rectangular shape [add] is commutative. *)
Theorem add_commutative (rows cols : nat) (a b : matrix) :
  rectangular rows cols a -> rectangular rows cols b ->
  add a b = add b a /\ ((0 < rows)%nat -> exists res, add a b = Ok res).
Proof.
  intros Ha Hb. destruct (Nat.eq_0_gt_0_cases rows) as [->|Hrows].
  { destruct Ha as [Ha _], Hb as [Hb _].
    apply nil_length_inv in Ha, Hb. subst. split; [reflexivity|lia]. }
  destruct (add_same_shape rows cols a b Hrows Ha Hb) as (s & Hs & Hshape & Hentry).
  destruct (add_same_shape rows cols b a Hrows Hb Ha) as (s' & Hs' & Hshape' & Hentry').
  split; [|intros _; now exists s].
  rewrite Hs, Hs'. f_equal.
  apply (matrix_ext rows cols); [assumption|assumption|].
  intros i j Hi Hj.
  destruct (rectangular_entry rows cols a i j Ha Hi Hj) as (_ & x & _ & _ & Hx).
  destruct (rectangular_entry rows cols b i j Hb Hi Hj) as (_ & y & _ & _ & Hy).
  rewrite (Hentry i j x y Hx Hy), (Hentry' i j y x Hy Hx).
  now rewrite js_add_comm.
Qed.

Lemma add_commutative_witness :
  add (of_numbers [[1; 2]; [3; 4]]%float) (of_numbers [[10; 20]; [30; 40]]%float)
  = add (of_numbers [[10; 20]; [30; 40]]%float) (of_numbers [[1; 2]; [3; 4]]%float).
Proof.
  apply (add_commutative 2 2); (split; [reflexivity|repeat constructor]).
Defined.

(** X10: the transpose of a sum is the sum of the transposes, for matrices
    of one shape with at least one row and one column. *)
Theorem transpose_add (rows cols : nat) (a b : matrix) :
  (0 < rows)%nat -> (0 < cols)%nat ->
  rectangular rows cols a -> rectangular rows cols b ->
  exists res,
    (s ← add a b; transpose s) = Ok res /\
    (ta ← transpose a; tb ← transpose b; add ta tb) = Ok res /\
    rectangular cols rows res.
Proof.
  intros Hrows Hcols Ha Hb.
  destruct (add_same_shape rows cols a b Hrows Ha Hb) as (s & Hs & Hshape & Hentry).
  destruct (transpose_shape rows cols s Hshape Hrows) as (ts & Hts & Htshape & Htentry).
  destruct (transpose_shape rows cols a Ha Hrows) as (ta & Hta & Htashape & Htaentry).
  destruct (transpose_shape rows cols b Hb Hrows) as (tb & Htb & Htbshape & Htbentry).
  destruct (add_same_shape cols rows ta tb Hcols Htashape Htbshape)
    as (s' & Hs' & Hshape' & Hentry').
  exists ts. rewrite Hs, Hta, Htb. simpl. rewrite Hts, Hs'.
  split; [reflexivity|]. split; [|assumption]. f_equal.
  apply (matrix_ext cols rows); [assumption|assumption|].
  intros j i Hj Hi.
  destruct (rectangular_entry rows cols a i j Ha Hi Hj) as (_ & x & _ & _ & Hx).
  destruct (rectangular_entry rows cols b i j Hb Hi Hj) as (_ & y & _ & _ & Hy).
  rewrite (Htentry i j Hi Hj), (Hentry i j x y Hx Hy).
  apply Hentry'.
  - now rewrite (Htaentry i j Hi Hj).
  - now rewrite (Htbentry i j Hi Hj).
Qed.

Lemma transpose_add_witness :
  (s ← add (of_numbers [[1; 2; 3]]%float) (of_numbers [[10; 20; 30]]%float);
   transpose s)
  = (ta ← transpose (of_numbers [[1; 2; 3]]%float);
     tb ← transpose (of_numbers [[10; 20; 30]]%float); add ta tb).
Proof.
  destruct (transpose_add 1 3 (of_numbers [[1; 2; 3]]%float)
                          (of_numbers [[10; 20; 30]]%float))
    as (res & H1 & H2 & _).
  - lia.
  - lia.
  - split; [reflexivity|repeat constructor].
  - split; [reflexivity|repeat constructor].
  - now rewrite H1, H2.
Defined.

(** *** [multiply] *)

Lemma entry_get (m : matrix) (i j : nat) (v : value) :
  entry m i j = Some v -> get (default [] (m !! i)) j = v.
Proof.
  unfold entry. destruct (m !! i) as [r|]; simpl; [|discriminate].
  apply get_lookup.
Qed.

(** The product of an [r] x [m] and an [m] x [c] matrix, entry by entry. *)
Lemma multiply_entries (r m c : nat) (a b : matrix) :
  (0 < r)%nat -> (0 < m)%nat -> rectangular r m a -> rectangular m c b ->
  exists res, multiply a b = Ok res /\ rectangular r c res /\
    forall i j, (i < r)%nat -> (j < c)%nat ->
                entry res i j = Some (dot a b i j m (Num 0%float)).
Proof.
  intros Hr Hm Ha Hb. rewrite (multiply_ok r m c a b Ha Hb Hr Hm).
  eexists. split; [reflexivity|]. split; [split|].
  - rewrite length_imap. apply length_replicate.
  - apply Forall_lookup. intros i row Hrow. rewrite list_lookup_imap in Hrow.
    unfold zeros in Hrow.
    destruct (replicate r (replicate c (Num 0%float)) !! i) as [r0|] eqn:Hr0;
      simpl in Hrow; [|discriminate].
    injection Hrow as <-. rewrite length_imap.
    apply lookup_replicate in Hr0. destruct Hr0 as [-> _]. apply length_replicate.
  - intros i j Hi Hj. unfold entry. rewrite list_lookup_imap. unfold zeros.
    rewrite lookup_replicate_2 by assumption. simpl.
    now rewrite list_lookup_imap, lookup_replicate_2 by assumption.
Qed.

(** X11: [multiply] on an [r] x [m] and an [m] x [c] matrix with [r >= 1]
    and [m >= 1] returns the [r] x [c] matrix whose entry [(i, j)] is the sum
    of the products [a[i][k] * b[k][j]], added to 0 in the order
    [k = 0, ..., m - 1].  When the first row of [a] and [b] differ in length
    the call fails with the dimension error; when [a] has no row, or the
    common dimension is 0, it throws a [TypeError]. *)
Theorem matrix_multiply_spec (a b : matrix) :
  (forall r m c,
     (0 < r)%nat -> (0 < m)%nat -> rectangular r m a -> rectangular m c b ->
     exists res, multiply a b = Ok res /\ rectangular r c res /\
       forall i j, (i < r)%nat -> (j < c)%nat ->
                   entry res i j = Some (dot a b i j m (Num 0%float))) /\
  (forall a0, a !! 0%nat = Some a0 -> length a0 <> length b ->
              multiply a b = Thrown (Error multiply_message)) /\
  (a = [] -> multiply a b = Thrown TypeError) /\
  (forall a0, a !! 0%nat = Some a0 -> a0 = [] -> b = [] ->
              multiply a b = Thrown TypeError).
Proof.
  split; [|split; [|split]].
  - intros r m c. apply multiply_entries.
  - intros a0 Ha0 Hne. unfold multiply. rewrite (row_lookup a 0 a0 Ha0). simpl.
    destruct (Nat.eqb_spec (length a0) (length b)); [contradiction|reflexivity].
  - intros ->. reflexivity.
  - intros a0 Ha0 -> ->. unfold multiply. rewrite (row_lookup a 0 [] Ha0).
    reflexivity.
Qed.

Lemma matrix_multiply_spec_witness :
  exists res,
    multiply (of_numbers [[1; 2]; [3; 4]]%float) (of_numbers [[5; 6]; [7; 8]]%float)
    = Ok res /\
    entry res 1 0 = Some (Num 43%float).
Proof.
  destruct (proj1 (matrix_multiply_spec (of_numbers [[1; 2]; [3; 4]]%float)
                                        (of_numbers [[5; 6]; [7; 8]]%float))
              2%nat 2%nat 2%nat) as (res & Hres & _ & Hentry).
  - lia.
  - lia.
  - split; [reflexivity|repeat constructor].
  - split; [reflexivity|repeat constructor].
  - exists res. split; [assumption|].
    rewrite (Hentry 1%nat 0%nat) by lia. reflexivity.
Defined.

(** The same products are added in the same order on both sides. *)
Lemma dot_transpose (r m c : nat) (a b ta tb : matrix) (i j : nat) :
  rectangular r m a -> rectangular m c b ->
  (forall i k, (i < r)%nat -> (k < m)%nat -> entry ta k i = entry a i k) ->
  (forall k j, (k < m)%nat -> (j < c)%nat -> entry tb j k = entry b k j) ->
  (i < r)%nat -> (j < c)%nat ->
  forall n x, (n <= m)%nat -> dot tb ta j i n x = dot a b i j n x.
Proof.
  intros Ha Hb Hta Htb Hi Hj n x Hn.
  induction n as [|n IH]; [reflexivity|].
  unfold dot in *. rewrite seq_S, !fold_left_app. simpl.
  rewrite IH by lia. f_equal.
  destruct (rectangular_entry r m a i n Ha Hi ltac:(lia)) as (_ & u & _ & _ & Hu).
  destruct (rectangular_entry m c b n j Hb ltac:(lia) Hj) as (_ & v & _ & _ & Hv).
  rewrite (entry_get a i n u Hu), (entry_get b n j v Hv).
  rewrite (entry_get tb j n v) by (rewrite Htb by lia; assumption).
  rewrite (entry_get ta n i u) by (rewrite Hta by lia; assumption).
  apply js_mul_comm.
Qed.

(** X12: the transpose of a product is the product of the transposes in
    the opposite order, entry for entry the same doubles: both sides add the
    same products in the same order. *)
Theorem transpose_multiply (r m c : nat) (a b : matrix) :
  (0 < r)%nat -> (0 < m)%nat -> (0 < c)%nat ->
  rectangular r m a -> rectangular m c b ->
  exists res,
    (p ← multiply a b; transpose p) = Ok res /\
    (tb ← transpose b; ta ← transpose a; multiply tb ta) = Ok res /\
    rectangular c r res.
Proof.
  intros Hr Hm Hc Ha Hb.
  destruct (multiply_entries r m c a b Hr Hm Ha Hb) as (p & Hp & Hpshape & Hpentry).
  destruct (transpose_shape r c p Hpshape Hr) as (tp & Htp & Htpshape & Htpentry).
  destruct (transpose_shape r m a Ha Hr) as (ta & Hta & Htashape & Htaentry).
  destruct (transpose_shape m c b Hb Hm) as (tb & Htb & Htbshape & Htbentry).
  destruct (multiply_entries c m r tb ta Hc Hm Htbshape Htashape)
    as (q & Hq & Hqshape & Hqentry).
  exists tp. rewrite Hp, Htb, Hta. simpl. rewrite Htp, Hq.
  split; [reflexivity|]. split; [|assumption]. f_equal.
  apply (matrix_ext c r); [assumption|assumption|].
  intros j i Hj Hi.
  rewrite (Htpentry i j Hi Hj), (Hpentry i j Hi Hj), (Hqentry j i Hj Hi).
  now rewrite (dot_transpose r m c a b ta tb i j Ha Hb Htaentry Htbentry Hi Hj m _ (le_n m)).
Qed.

Lemma transpose_multiply_witness :
  (p ← multiply (of_numbers [[1; 2]; [3; 4]]%float) (of_numbers [[5; 6]; [7; 8]]%float);
   transpose p)
  = (tb ← transpose (of_numbers [[5; 6]; [7; 8]]%float);
     ta ← transpose (of_numbers [[1; 2]; [3; 4]]%float); multiply tb ta).
Proof.
  destruct (transpose_multiply 2 2 2 (of_numbers [[1; 2]; [3; 4]]%float)
                               (of_numbers [[5; 6]; [7; 8]]%float))
    as (res & H1 & H2 & _).
  - lia.
  - lia.
  - lia.
  - split; [reflexivity|repeat constructor].
  - split; [reflexivity|repeat constructor].
  - now rewrite H1, H2.
Defined.

(** *** [multiply(M, identity(n))] *)

(** Row [i] of a matrix of finite numbers times column [j] of the identity:
    after the first [n] terms the sum is [0 + M[i][j]] if [j < n], else 0. *)
Lemma dot_identity_right (rows size : nat) (I : matrix) (M : list (list float))
    (i j : nat) :
  (forall i k, (i < size)%nat -> (k < size)%nat ->
     exists r, I !! i = Some r /\
               r !! k = Some (Num (if decide (i = k) then 1 else 0)%float)) ->
  length M = rows -> Forall (fun r => length r = size) M ->
  Forall (Forall (fun x => is_finite_double x = true)) M ->
  (i < rows)%nat -> (j < size)%nat ->
  forall n x, (n <= size)%nat -> is_finite_double x = true ->
  entry (of_numbers M) i j = Some (Num x) ->
  dot (of_numbers M) I i j n (Num 0%float)
  = Num (if decide (j < n)%nat then 0 + x else 0)%float.
Proof.
  intros HI Hlen Hall Hfin Hi Hj n x Hn Hx Hentry.
  induction n as [|n IH]; [reflexivity|].
  unfold dot in *. rewrite seq_S, fold_left_app. simpl.
  rewrite IH by lia. clear IH.
  destruct (HI n j ltac:(lia) Hj) as (rn & Hrn & Hrnj).
  rewrite Hrn. simpl. rewrite (get_lookup rn j _ Hrnj).
  destruct (of_numbers_entry rows size M i n Hlen Hall Hfin Hi ltac:(lia))
    as (y & Hy & -> & Hyn & _).
  unfold js_add, js_mul. simpl. f_equal.
  destruct (decide (n = j)) as [->|Hne].
  - rewrite Hyn in Hentry. injection Hentry as <-.
    destruct (decide (j < j)%nat); [lia|].
    destruct (decide (j < S j)%nat); [|lia].
    now rewrite double_mul_comm, double_mul_one.
  - rewrite (double_mul_comm y 0).
    destruct (decide (j < n)%nat); destruct (decide (j < S n)%nat); try lia.
    + now apply double_add_mul_zero.
    + now apply double_add_zero_mul_zero.
Qed.

(** X13: the identity is a right identity too.  For [n >= 1] and a matrix
    [M] of finite numbers with at least one row and [n] columns,
    [multiply(M, identity(n))] has the shape of [M] and the entries
    [0 + M[i][j]], each [===] to [M[i][j]]. *)
Theorem multiply_identity_right (rows n : nat) (M : list (list float)) :
  (0 < rows)%nat -> (0 < n)%nat ->
  length M = rows -> Forall (fun r => length r = n) M ->
  Forall (Forall (fun x => is_finite_double x = true)) M ->
  exists I,
    identity n = Ok I /\
    multiply (of_numbers M) I
    = Ok (of_numbers ((fun r : list float => PrimFloat.add 0 <$> r) <$> M)) /\
    Forall (Forall (fun x => PrimFloat.eqb (0 + x) x = true)) M.
Proof.
  intros Hrows Hn Hlen Hall Hfin.
  destruct (identity_entries n) as (I & HI & Hshape & Hentries).
  pose proof (of_numbers_rectangular rows n M Hlen Hall) as HM.
  destruct (multiply_entries rows n n (of_numbers M) I Hrows Hn HM Hshape)
    as (res & Hres & Hresshape & Hresentry).
  exists I. split; [assumption|]. split.
  - rewrite Hres. f_equal.
    apply (matrix_ext rows n); [assumption| |].
    + apply of_numbers_rectangular.
      * now rewrite length_fmap.
      * apply Forall_fmap. eapply Forall_impl; [exact Hall|].
        intros r Hr. simpl. now rewrite length_fmap.
    + intros i j Hi Hj.
      destruct (of_numbers_entry rows n M i j Hlen Hall Hfin Hi Hj)
        as (x & Hx & _ & Hentry & ->).
      rewrite (Hresentry i j Hi Hj).
      rewrite (dot_identity_right rows n I M i j Hentries Hlen Hall Hfin Hi Hj n x
                 (le_n n) Hx Hentry).
      destruct (decide (j < n)%nat); [reflexivity|lia].
  - eapply Forall_impl; [exact Hfin|]. intros r Hr.
    eapply Forall_impl; [exact Hr|]. intros x Hx.
    exact (proj1 (double_zero_add x Hx)).
Qed.

Lemma multiply_identity_right_witness :
  exists I, identity 3 = Ok I /\
            multiply (of_numbers [[5; 6; 7]; [8; 9; 10]]%float) I
            = Ok (of_numbers [[5; 6; 7]; [8; 9; 10]]%float).
Proof.
  destruct (multiply_identity_right 2 3 [[5; 6; 7]; [8; 9; 10]]%float)
    as (I & HI & Hmul & _).
  - lia.
  - lia.
  - reflexivity.
  - repeat constructor.
  - repeat constructor.
  - exists I. split; assumption.
Defined.

End MatrixAlgebraFacts.

(** ** Basic mathematics: [divide] *)

Section DivideFacts.
Import BasicMath.

(** A double that compares equal to 0 is a zero, and a finite number that
    does not is a finite number other than zero. *)
Lemma double_eqb_zero (y : float) :
  PrimFloat.eqb y 0 = true <-> exists s, Prim2SF y = S754_zero s.
Proof.
  rewrite FloatAxioms.eqb_spec. change (Prim2SF 0) with (S754_zero false).
  unfold SFeqb, SFcompare.
  destruct (Prim2SF y) as [s|[|]| |[|] m e]; simpl;
    (split; [try discriminate; eauto|]); try (intros [s' H]; discriminate H).
  reflexivity.
Qed.

Lemma SFdiv_by_finite_number (x : spec_float) (s : bool) (m : positive) (e : Z) :
  sf_number x -> sf_number (SF64div x (S754_finite s m e)).
Proof.
  unfold sf_number, SF64div. intros Hx.
  destruct x as [sx|sx| |sx mx ex]; simpl; try contradiction; try discriminate.
  unfold SFdiv_core_binary.
  set (m' := match _ - _ with Z0 => Z.pos mx | Z.pos _ => _ | Z.neg _ => 0 end).
  assert (Hm' : 0 <= m').
  { unfold m'. destruct (_ - _); [lia| |lia]. apply Z.shiftl_nonneg. lia. }
  pose proof (div_eucl_nonneg m' (Z.pos m) Hm' ltac:(lia)) as Hq.
  destruct (Z.div_eucl m' (Z.pos m)) as [q r]. simpl in Hq.
  now apply binary_round_aux_number.
Qed.

Lemma double_is_nan_false (x : float) :
  sf_number (Prim2SF x) -> PrimFloat.is_nan x = false.
Proof.
  unfold sf_number, PrimFloat.is_nan. intros Hx.
  rewrite FloatAxioms.eqb_spec. unfold SFeqb.
  destruct (Prim2SF x) as [s|s| |s m e]; simpl; try contradiction.
  - reflexivity.
  - now destruct s.
  - now rewrite Z.compare_refl, Pos.compare_cont_refl; destruct s.
Qed.

(** The reduction stops with the error at the first divisor that is zero. *)
Lemma divide_from_zero (ys : list float) : forall acc : float,
  Exists (fun y => PrimFloat.eqb y 0 = true) ys ->
  reduce_from (fun acc num =>
                 if PrimFloat.eqb num 0 then Thrown (Error divide_message)
                 else Ok (PrimFloat.div acc num)) ys acc
  = Thrown (Error divide_message).
Proof.
  induction ys as [|y ys IH]; intros acc Hex; [inversion Hex|].
  cbn [reduce_from]. destruct (PrimFloat.eqb y 0) eqn:Hy; [reflexivity|].
  simpl. apply IH. apply Exists_cons in Hex. destruct Hex as [H|H]; [congruence|assumption].
Qed.

Lemma divide_from_nonzero (ys : list float) : forall acc : float,
  Forall (fun y => PrimFloat.eqb y 0 = false) ys ->
  reduce_from (fun acc num =>
                 if PrimFloat.eqb num 0 then Thrown (Error divide_message)
                 else Ok (PrimFloat.div acc num)) ys acc
  = Ok (fold_left PrimFloat.div ys acc).
Proof.
  induction ys as [|y ys IH]; intros acc Hall; [reflexivity|].
  apply Forall_cons in Hall. destruct Hall as [Hy Hall].
  cbn [reduce_from fold_left]. rewrite Hy. simpl. now apply IH.
Qed.

Lemma divide_from_number (ys : list float) : forall acc : float,
  Forall (fun y => PrimFloat.eqb y 0 = false) ys ->
  Forall (fun y => is_finite_double y = true) ys ->
  sf_number (Prim2SF acc) ->
  sf_number (Prim2SF (fold_left PrimFloat.div ys acc)).
Proof.
  induction ys as [|y ys IH]; intros acc Hnz Hfin Hacc; [assumption|].
  apply Forall_cons in Hnz. destruct Hnz as [Hy Hnz].
  apply Forall_cons in Hfin. destruct Hfin as [Hyf Hfin].
  cbn [fold_left]. apply IH; [assumption|assumption|].
  rewrite FloatAxioms.div_spec.
  apply is_finite_double_spec in Hyf.
  destruct (Prim2SF y) as [s|s| |s m e] eqn:Hy'; simpl in Hyf; try contradiction.
  - exfalso. assert (H : PrimFloat.eqb y 0 = true) by (apply double_eqb_zero; eauto).
    congruence.
  - now apply SFdiv_by_finite_number.
Qed.

(** X14: [divide] throws a [TypeError] on no argument, and the error 'Cannot
    divide by zero' exactly when one of the divisors (the arguments after the
    first) is 0 or -0; a first argument of 0 is not an error.  Otherwise it
    returns the quotient taken from left to right, and on finite arguments
    that quotient is never [NaN]. *)
Theorem divide_errors (numbers : list float) :
  (numbers = [] -> divide numbers = Thrown TypeError) /\
  (forall x ys, numbers = x :: ys ->
     (Exists (fun y => PrimFloat.eqb y 0 = true) ys ->
      divide numbers = Thrown (Error divide_message)) /\
     (Forall (fun y => PrimFloat.eqb y 0 = false) ys ->
      divide numbers = Ok (fold_left PrimFloat.div ys x) /\
      (Forall (fun y => is_finite_double y = true) numbers ->
       PrimFloat.is_nan (fold_left PrimFloat.div ys x) = false))).
Proof.
  split; [intros ->; reflexivity|].
  intros x ys ->. split.
  - intros Hex. now apply divide_from_zero.
  - intros Hnz. split; [now apply divide_from_nonzero|].
    intros Hfin. apply Forall_cons in Hfin. destruct Hfin as [Hx Hfin].
    apply double_is_nan_false, divide_from_number; [assumption|assumption|].
    apply is_finite_double_spec in Hx. unfold sf_number.
    destruct (Prim2SF x); simpl in Hx; [discriminate|contradiction..|discriminate].
Qed.

Lemma divide_errors_witness :
  divide [1; 2; 0; 4]%float = Thrown (Error divide_message) /\
  divide [0; 2; 4]%float = Ok 0%float.
Proof.
  split.
  - apply (proj1 (proj2 (divide_errors [1; 2; 0; 4]%float) 1%float [2; 0; 4]%float eq_refl)).
    right. left. reflexivity.
  - apply (proj2 (proj2 (divide_errors [0; 2; 4]%float) 0%float [2; 4]%float eq_refl)).
    repeat constructor.
Defined.

End DivideFacts.

(** ** Doubles: the order of the numbers *)

Section DoubleOrderFacts.

Lemma SFltb_position (x y : spec_float) :
  sf_number x -> sf_number y ->
  SFltb x y = true <-> position_lt (sf_position x) (sf_position y).
Proof.
  unfold sf_number, SFltb, SFcompare, position_lt. intros Hx Hy.
  destruct x as [sx|sx| |sx mx ex], y as [sy|sy| |sy my ey];
    try contradiction; try destruct sx; try destruct sy; simpl;
    try (split; [discriminate|lia]); try (split; [lia|reflexivity]).
  - fold (Pos.compare mx my).
    destruct (Z.compare_spec ex ey), (Pos.compare_spec mx my); simpl;
      (split; [try discriminate; lia|try reflexivity; lia]).
  - fold (Pos.compare mx my).
    destruct (Z.compare_spec ex ey), (Pos.compare_spec mx my); simpl;
      (split; [try discriminate; lia|try reflexivity; lia]).
Qed.

Lemma SFleb_position (x y : spec_float) :
  sf_number x -> sf_number y ->
  SFleb x y = true <-> ~ position_lt (sf_position y) (sf_position x).
Proof.
  unfold sf_number, SFleb, SFcompare, position_lt. intros Hx Hy.
  destruct x as [sx|sx| |sx mx ex], y as [sy|sy| |sy my ey];
    try contradiction; try destruct sx; try destruct sy; simpl;
    try (split; [discriminate|lia]); try (split; [lia|reflexivity]).
  - fold (Pos.compare mx my).
    destruct (Z.compare_spec ex ey), (Pos.compare_spec mx my); simpl;
      (split; [try discriminate; lia|try reflexivity; lia]).
  - fold (Pos.compare mx my).
    destruct (Z.compare_spec ex ey), (Pos.compare_spec mx my); simpl;
      (split; [try discriminate; lia|try reflexivity; lia]).
Qed.

Lemma double_ltb_position (x y : float) :
  is_number x -> is_number y ->
  PrimFloat.ltb x y = true
  <-> position_lt (sf_position (Prim2SF x)) (sf_position (Prim2SF y)).
Proof. rewrite FloatAxioms.ltb_spec. apply SFltb_position. Qed.

Lemma double_leb_position (x y : float) :
  is_number x -> is_number y ->
  PrimFloat.leb x y = true
  <-> ~ position_lt (sf_position (Prim2SF y)) (sf_position (Prim2SF x)).
Proof. rewrite FloatAxioms.leb_spec. apply SFleb_position. Qed.

Lemma double_leb_refl (x : float) : is_number x -> PrimFloat.leb x x = true.
Proof.
  intros Hx. apply double_leb_position; [assumption..|].
  unfold position_lt. lia.
Qed.

Lemma double_leb_trans (x y z : float) :
  is_number x -> is_number y -> is_number z ->
  PrimFloat.leb x y = true -> PrimFloat.leb y z = true -> PrimFloat.leb x z = true.
Proof.
  intros Hx Hy Hz. rewrite !double_leb_position by assumption.
  unfold position_lt. lia.
Qed.

Lemma double_ltb_leb (x y : float) :
  is_number x -> is_number y ->
  PrimFloat.ltb x y = true -> PrimFloat.leb x y = true.
Proof.
  intros Hx Hy. rewrite double_ltb_position, double_leb_position by assumption.
  unfold position_lt. lia.
Qed.

Lemma double_not_ltb_leb (x y : float) :
  is_number x -> is_number y ->
  PrimFloat.ltb x y = false -> PrimFloat.leb y x = true.
Proof.
  intros Hx Hy Hlt. apply double_leb_position; [assumption..|].
  intros H. apply double_ltb_position in H; [congruence|assumption..].
Qed.

Lemma is_number_spec (x : float) : PrimFloat.is_nan x = false <-> is_number x.
Proof.
  unfold is_number, sf_number, PrimFloat.is_nan.
  rewrite FloatAxioms.eqb_spec. unfold SFeqb, SFcompare.
  destruct (Prim2SF x) as [s|s| |s m e]; simpl.
  - split; [discriminate|reflexivity].
  - destruct s; (split; [discriminate|reflexivity]).
  - split; [discriminate|congruence].
  - rewrite Z.compare_refl. fold (Pos.compare m m). rewrite Pos.compare_refl.
    destruct s; (split; [discriminate|reflexivity]).
Qed.

End DoubleOrderFacts.

(** ** Statistics: [minMax] *)

Section MinMaxFacts.
Import Statistics.

Lemma is_zero_position (x : float) :
  PrimFloat.is_zero x = true -> is_number x /\ sf_position (Prim2SF x) = (0, 0, 0).
Proof.
  unfold PrimFloat.is_zero. intros H. apply double_eqb_zero in H.
  destruct H as [s Hs]. unfold is_number. rewrite Hs. split; [discriminate|reflexivity].
Qed.

(** One step of [Math.max]: the new [highest] is the old one or the number,
    and bounds both. *)
Lemma max_step (highest number : float) :
  is_number highest -> is_number number ->
  let h1 := if Math.is_positive_zero number && Math.is_negative_zero highest
            then number else highest in
  let h2 := if PrimFloat.ltb h1 number then number else h1 in
  (h2 = highest \/ h2 = number) /\
  PrimFloat.leb highest h2 = true /\ PrimFloat.leb number h2 = true.
Proof.
  intros Hh Hn.
  destruct (Math.is_positive_zero number && Math.is_negative_zero highest) eqn:Hswap;
    cbv zeta.
  - apply andb_prop in Hswap. destruct Hswap as [Hpz Hnz].
    apply andb_prop in Hpz, Hnz. destruct Hpz as [Hpz _], Hnz as [Hnz _].
    apply is_zero_position in Hpz, Hnz.
    destruct Hpz as [_ Hpz], Hnz as [_ Hnz].
    assert (Hle : PrimFloat.leb highest number = true).
    { apply double_leb_position; [assumption..|]. rewrite Hpz, Hnz.
      unfold position_lt. simpl. lia. }
    destruct (PrimFloat.ltb number number);
      (split; [now right|split; [assumption|now apply double_leb_refl]]).
  - destruct (PrimFloat.ltb highest number) eqn:Hlt.
    + split; [now right|]. split; [now apply double_ltb_leb|now apply double_leb_refl].
    + split; [now left|]. split; [now apply double_leb_refl|now apply double_not_ltb_leb].
Qed.

Lemma max_from_spec (numbers : list float) : forall highest : float,
  Forall is_number numbers -> is_number highest ->
  is_number (Math.max_from highest numbers) /\
  (Math.max_from highest numbers = highest \/ Math.max_from highest numbers ∈ numbers) /\
  PrimFloat.leb highest (Math.max_from highest numbers) = true /\
  forall x, x ∈ numbers -> PrimFloat.leb x (Math.max_from highest numbers) = true.
Proof.
  induction numbers as [|number rest IH]; intros highest Hall Hh.
  - simpl. split; [assumption|]. split; [now left|].
    split; [now apply double_leb_refl|]. intros x Hx. inversion Hx.
  - apply Forall_cons in Hall. destruct Hall as [Hn Hall].
    cbn [Math.max_from]. rewrite (proj2 (is_number_spec number) Hn).
    destruct (max_step highest number Hh Hn) as (Hcases & Hle1 & Hle2).
    cbv zeta in Hcases, Hle1, Hle2.
    set (h2 := if PrimFloat.ltb _ number then number else _) in *.
    assert (Hh2 : is_number h2) by (destruct Hcases as [-> | ->]; assumption).
    destruct (IH h2 Hall Hh2) as (Hr & Hmem & Hle & Hbound).
    set (r := Math.max_from h2 rest) in *.
    split; [assumption|]. split; [|split].
    + destruct Hmem as [Hmem|Hmem].
      * rewrite Hmem. destruct Hcases as [-> | ->]; [now left|right; left].
      * right. now right.
    + exact (double_leb_trans highest h2 r Hh Hh2 Hr Hle1 Hle).
    + intros x Hx. apply elem_of_cons in Hx. destruct Hx as [->|Hx].
      * exact (double_leb_trans number h2 r Hn Hh2 Hr Hle2 Hle).
      * now apply Hbound.
Qed.

Lemma min_step (lowest number : float) :
  is_number lowest -> is_number number ->
  let l1 := if Math.is_negative_zero number && Math.is_positive_zero lowest
            then number else lowest in
  let l2 := if PrimFloat.ltb number l1 then number else l1 in
  (l2 = lowest \/ l2 = number) /\
  PrimFloat.leb l2 lowest = true /\ PrimFloat.leb l2 number = true.
Proof.
  intros Hl Hn.
  destruct (Math.is_negative_zero number && Math.is_positive_zero lowest) eqn:Hswap;
    cbv zeta.
  - apply andb_prop in Hswap. destruct Hswap as [Hnz Hpz].
    apply andb_prop in Hpz, Hnz. destruct Hpz as [Hpz _], Hnz as [Hnz _].
    apply is_zero_position in Hpz, Hnz.
    destruct Hpz as [_ Hpz], Hnz as [_ Hnz].
    assert (Hle : PrimFloat.leb number lowest = true).
    { apply double_leb_position; [assumption..|]. rewrite Hpz, Hnz.
      unfold position_lt. simpl. lia. }
    destruct (PrimFloat.ltb number number);
      (split; [now right|split; [assumption|now apply double_leb_refl]]).
  - destruct (PrimFloat.ltb number lowest) eqn:Hlt.
    + split; [now right|]. split; [now apply double_ltb_leb|now apply double_leb_refl].
    + split; [now left|]. split; [now apply double_leb_refl|now apply double_not_ltb_leb].
Qed.

Lemma min_from_spec (numbers : list float) : forall lowest : float,
  Forall is_number numbers -> is_number lowest ->
  is_number (Math.min_from lowest numbers) /\
  (Math.min_from lowest numbers = lowest \/ Math.min_from lowest numbers ∈ numbers) /\
  PrimFloat.leb (Math.min_from lowest numbers) lowest = true /\
  forall x, x ∈ numbers -> PrimFloat.leb (Math.min_from lowest numbers) x = true.
Proof.
  induction numbers as [|number rest IH]; intros lowest Hall Hl.
  - simpl. split; [assumption|]. split; [now left|].
    split; [now apply double_leb_refl|]. intros x Hx. inversion Hx.
  - apply Forall_cons in Hall. destruct Hall as [Hn Hall].
    cbn [Math.min_from]. rewrite (proj2 (is_number_spec number) Hn).
    destruct (min_step lowest number Hl Hn) as (Hcases & Hle1 & Hle2).
    cbv zeta in Hcases, Hle1, Hle2.
    set (l2 := if PrimFloat.ltb number _ then number else _) in *.
    assert (Hl2 : is_number l2) by (destruct Hcases as [-> | ->]; assumption).
    destruct (IH l2 Hall Hl2) as (Hr & Hmem & Hle & Hbound).
    set (r := Math.min_from l2 rest) in *.
    split; [assumption|]. split; [|split].
    + destruct Hmem as [Hmem|Hmem].
      * rewrite Hmem. destruct Hcases as [-> | ->]; [now left|right; left].
      * right. now right.
    + exact (double_leb_trans r l2 lowest Hr Hl2 Hl Hle Hle1).
    + intros x Hx. apply elem_of_cons in Hx. destruct Hx as [->|Hx].
      * exact (double_leb_trans r l2 number Hr Hl2 Hn Hle Hle2).
      * now apply Hbound.
Qed.

(** The first [NaN] among the arguments is the result. *)
Lemma max_from_nan (numbers : list float) : forall highest : float,
  Exists (fun x => PrimFloat.is_nan x = true) numbers ->
  Math.max_from highest numbers = nan.
Proof.
  induction numbers as [|number rest IH]; intros highest Hex; [inversion Hex|].
  cbn [Math.max_from]. destruct (PrimFloat.is_nan number) eqn:Hn; [reflexivity|].
  apply IH. apply Exists_cons in Hex. destruct Hex as [H|H]; [congruence|assumption].
Qed.

Lemma min_from_nan (numbers : list float) : forall lowest : float,
  Exists (fun x => PrimFloat.is_nan x = true) numbers ->
  Math.min_from lowest numbers = nan.
Proof.
  induction numbers as [|number rest IH]; intros lowest Hex; [inversion Hex|].
  cbn [Math.min_from]. destruct (PrimFloat.is_nan number) eqn:Hn; [reflexivity|].
  apply IH. apply Exists_cons in Hex. destruct Hex as [H|H]; [congruence|assumption].
Qed.

(** A number that is at most [-Infinity] is [-Infinity], and one that is at
    least [+Infinity] is [+Infinity]. *)
Lemma double_leb_neg_infinity (x : float) :
  is_number x -> PrimFloat.leb x neg_infinity = true -> x = neg_infinity.
Proof.
  intros Hx Hle. apply Prim2SF_inj.
  apply double_leb_position in Hle; [|assumption|discriminate].
  change (Prim2SF neg_infinity) with (S754_infinity true) in *.
  unfold is_number, sf_number in Hx. unfold position_lt in Hle.
  destruct (Prim2SF x) as [s|[|]| |[|] m e]; simpl in Hle;
    try contradiction; try reflexivity; lia.
Qed.

Lemma double_leb_infinity (x : float) :
  is_number x -> PrimFloat.leb infinity x = true -> x = infinity.
Proof.
  intros Hx Hle. apply Prim2SF_inj.
  apply double_leb_position in Hle; [|discriminate|assumption].
  change (Prim2SF infinity) with (S754_infinity false) in *.
  unfold is_number, sf_number in Hx. unfold position_lt in Hle.
  destruct (Prim2SF x) as [s|[|]| |[|] m e]; simpl in Hle;
    try contradiction; try reflexivity; lia.
Qed.

(** On a non-empty array of numbers both fields are elements of the array
    that bound every element. *)
Lemma minMax_bounds (numbers : list float) :
  numbers <> [] -> Forall is_number numbers ->
  exists lo hi,
    minMax numbers = mkMinMax (Number lo) (Number hi) /\
    lo ∈ numbers /\ hi ∈ numbers /\
    forall x, x ∈ numbers ->
              PrimFloat.leb lo x = true /\ PrimFloat.leb x hi = true.
Proof.
  intros Hne Hnum.
  destruct numbers as [|x0 rest]; [contradiction|].
  unfold minMax. change (length (x0 :: rest) =? 0)%nat with false. cbv iota.
  unfold Math.min, Math.max.
  destruct (min_from_spec (x0 :: rest) infinity Hnum ltac:(discriminate))
    as (Hlo & Hlomem & _ & Hlobound).
  destruct (max_from_spec (x0 :: rest) neg_infinity Hnum ltac:(discriminate))
    as (Hhi & Hhimem & _ & Hhibound).
  set (lo := Math.min_from infinity (x0 :: rest)) in *.
  set (hi := Math.max_from neg_infinity (x0 :: rest)) in *.
  assert (Hx0 : is_number x0) by (apply Forall_cons in Hnum; tauto).
  exists lo, hi. split; [reflexivity|]. split; [|split].
  - destruct Hlomem as [Heq|Hmem]; [|assumption].
    pose proof (Hlobound x0 ltac:(left)) as Hle. rewrite Heq in Hle.
    rewrite Heq, <- (double_leb_infinity x0 Hx0 Hle). left.
  - destruct Hhimem as [Heq|Hmem]; [|assumption].
    pose proof (Hhibound x0 ltac:(left)) as Hle. rewrite Heq in Hle.
    rewrite Heq, <- (double_leb_neg_infinity x0 Hx0 Hle). left.
  - intros x Hx. split; [now apply Hlobound|now apply Hhibound].
Qed.

(** X15: [minMax] of the empty array is [{ min: null, max: null }].  On a
    non-empty array without [NaN] it returns two elements of the array, [min]
    at most and [max] at least every element.  If the array contains a [NaN],
    both fields are [NaN]. *)
Theorem minMax_spec (numbers : list float) :
  (numbers = [] -> minMax numbers = mkMinMax Null Null) /\
  (numbers <> [] -> Forall (fun x => PrimFloat.is_nan x = false) numbers ->
   exists lo hi,
     minMax numbers = mkMinMax (Number lo) (Number hi) /\
     lo ∈ numbers /\ hi ∈ numbers /\
     forall x, x ∈ numbers ->
               PrimFloat.leb lo x = true /\ PrimFloat.leb x hi = true) /\
  (Exists (fun x => PrimFloat.is_nan x = true) numbers ->
   minMax numbers = mkMinMax (Number nan) (Number nan)).
Proof.
  split; [intros ->; reflexivity|]. split.
  - intros Hne Hall. apply minMax_bounds; [assumption|].
    eapply Forall_impl; [exact Hall|]. intros x. apply is_number_spec.
  - intros Hex. unfold minMax.
    destruct numbers as [|x0 rest]; [inversion Hex|].
    change (length (x0 :: rest) =? 0)%nat with false. cbv iota.
    unfold Math.min, Math.max. now rewrite min_from_nan, max_from_nan.
Qed.

Lemma minMax_spec_witness :
  exists lo hi,
    minMax [3; -1; 2]%float = mkMinMax (Number lo) (Number hi) /\
    PrimFloat.leb lo 2 = true /\ PrimFloat.leb 2 hi = true.
Proof.
  destruct (proj1 (proj2 (minMax_spec [3; -1; 2]%float)))
    as (lo & hi & Heq & _ & _ & Hbound).
  - discriminate.
  - repeat constructor.
  - exists lo, hi. split; [exact Heq|]. apply Hbound. right. right. left.
Defined.

End MinMaxFacts.

(** ** Doubles: the sign of a difference *)

Section DoubleDifferenceFacts.

Lemma pos_iter_xO (m d : positive) :
  Z.pos (Pos.iter xO m d) = Z.pos m * 2 ^ Z.pos d.
Proof.
  induction d as [|d IH] using Pos.peano_ind.
  - simpl. lia.
  - rewrite Pos.iter_succ, Pos2Z.inj_xO, IH, Pos2Z.inj_succ, Z.pow_succ_r by lia. ring.
Qed.

(** Aligning a mantissa to a smaller exponent multiplies it by a power
    of 2. *)
Lemma shl_align_value (mx : positive) (ex ez : Z) :
  ez <= ex ->
  Z.pos (fst (shl_align mx ex ez)) = Z.pos mx * 2 ^ (ex - ez).
Proof.
  intros Hle. unfold shl_align.
  destruct (ez - ex) as [|d|d] eqn:Hd; try lia; simpl.
  - replace (ex - ez) with 0 by lia. lia.
  - rewrite pos_iter_xO. f_equal. f_equal. lia.
Qed.

(** The mantissa and the exponent of a finite double: at most 53 digits,
    exactly 53 above the smallest exponent. *)
Lemma Prim2SF_finite_canonical (x : float) (s : bool) (m : positive) (e : Z) :
  Prim2SF x = S754_finite s m e ->
  -1074 <= e /\ Z.pos m < 2 ^ 53 /\ (-1074 < e -> 2 ^ 52 <= Z.pos m).
Proof.
  intros Hx. destruct (Prim2SF_finite_valid x s m e Hx) as [Hc _].
  unfold fexp, SpecFloat.emin, prec, emax in Hc.
  pose proof (digits2_pos_upper m) as Hup.
  pose proof (digits2_pos_lower m) as Hlow.
  split; [lia|]. split.
  - assert (2 ^ Z.pos (digits2_pos m) <= 2 ^ 53) by (apply Z.pow_le_mono_r; lia). lia.
  - intros He. replace (Z.pos (digits2_pos m)) with 53 in Hlow by lia. exact Hlow.
Qed.

(** For two finite doubles, comparing the aligned mantissas is comparing
    the exponents and then the mantissas. *)
Lemma aligned_lt (mx my : positive) (ex ey : Z) :
  Z.pos mx < 2 ^ 53 -> (-1074 < ey -> 2 ^ 52 <= Z.pos my) ->
  Z.pos my < 2 ^ 53 -> (-1074 < ex -> 2 ^ 52 <= Z.pos mx) ->
  -1074 <= ex -> -1074 <= ey ->
  Z.pos mx * 2 ^ (ex - Z.min ex ey) < Z.pos my * 2 ^ (ey - Z.min ex ey)
  <-> ex < ey \/ (ex = ey /\ Z.pos mx < Z.pos my).
Proof.
  intros Hmx Hmy Hmy' Hmx' Hex Hey.
  destruct (Z.lt_total ex ey) as [Hlt|[Heq|Hgt]].
  - rewrite Z.min_l by lia. replace (ex - ex) with 0 by lia.
    assert (Hp : 2 ^ 1 <= 2 ^ (ey - ex)) by (apply Z.pow_le_mono_r; lia).
    specialize (Hmy ltac:(lia)). split; [lia|]. intros _. nia.
  - subst ey. rewrite Z.min_id. replace (ex - ex) with 0 by lia. lia.
  - rewrite Z.min_r by lia. replace (ey - ey) with 0 by lia.
    assert (Hp : 2 ^ 1 <= 2 ^ (ex - ey)) by (apply Z.pow_le_mono_r; lia).
    specialize (Hmx' ltac:(lia)). split; [|lia]. intros H. nia.
Qed.

Lemma shr_1_m (mrs : shr_record) :
  0 <= shr_m mrs -> shr_m (shr_1 mrs) = shr_m mrs / 2.
Proof.
  destruct mrs as [m r s]. simpl. intros Hm.
  destruct m as [|[p|p|]|p]; simpl; try lia; try reflexivity.
  - rewrite Pos2Z.inj_xI. apply (Z.div_unique _ _ _ 1); lia.
  - rewrite Pos2Z.inj_xO. apply (Z.div_unique _ _ _ 0); lia.
Qed.

Lemma iter_shr_1_m (k : positive) : forall mrs : shr_record,
  0 <= shr_m mrs ->
  shr_m (SpecFloat.iter_pos shr_1 k mrs) = shr_m mrs / 2 ^ Z.pos k.
Proof.
  induction k as [k IH|k IH|]; intros mrs Hm; simpl SpecFloat.iter_pos.
  - rewrite IH by now apply iter_shr_1_nonneg, shr_1_nonneg.
    rewrite IH by now apply shr_1_nonneg.
    rewrite shr_1_m by assumption.
    rewrite !Z.div_div
      by (try (apply Z.pow_nonzero; lia); try (apply Z.pow_pos_nonneg; lia); lia).
    f_equal. rewrite (Pos2Z.inj_xI k).
    replace (2 * Z.pos k + 1) with (1 + Z.pos k + Z.pos k) by lia.
    rewrite !Z.pow_add_r by lia. simpl (2 ^ 1). ring.
  - rewrite IH by now apply iter_shr_1_nonneg.
    rewrite IH by assumption.
    rewrite Z.div_div
      by (try (apply Z.pow_nonzero; lia); try (apply Z.pow_pos_nonneg; lia); lia).
    f_equal. rewrite (Pos2Z.inj_xO k).
    replace (2 * Z.pos k) with (Z.pos k + Z.pos k) by lia.
    now rewrite Z.pow_add_r by lia.
  - now apply shr_1_m.
Qed.

(** Rounding a positive mantissa whose exponent is in range leaves a
    positive mantissa: nothing underflows to zero. *)
Lemma shr_fexp_positive (m e : Z) (l : location) :
  0 < m -> -1074 <= e ->
  0 < shr_m (fst (shr_fexp prec emax m e l)) /\
  -1074 <= snd (shr_fexp prec emax m e l).
Proof.
  intros Hm He. unfold shr_fexp, shr.
  assert (H0 : shr_m (shr_record_of_loc m l) = m) by (destruct l as [|[]]; reflexivity).
  destruct m as [|p|p]; try lia. simpl Zdigits2.
  destruct (fexp prec emax (Z.pos (digits2_pos p) + e) - e) as [|k|k] eqn:Hk;
    simpl; try (rewrite H0; lia).
  split; [|lia].
  rewrite iter_shr_1_m by (rewrite H0; lia). rewrite H0.
  unfold fexp, SpecFloat.emin, prec, emax in Hk.
  pose proof (digits2_pos_lower p) as Hlow.
  apply Z.div_str_pos. split; [apply Z.pow_pos_nonneg; lia|].
  assert (2 ^ Z.pos k <= 2 ^ (Z.pos (digits2_pos p) - 1))
    by (apply Z.pow_le_mono_r; lia).
  lia.
Qed.

Lemma round_nearest_even_ge (mx : Z) (lx : location) : mx <= round_nearest_even mx lx.
Proof.
  destruct lx as [|[]]; simpl; try lia. destruct (Z.even mx); lia.
Qed.

Lemma binary_round_aux_nonzero (sx : bool) (mx ex : Z) (lx : location) :
  0 < mx -> -1074 <= ex ->
  (exists m e, binary_round_aux prec emax sx mx ex lx = S754_finite sx m e) \/
  binary_round_aux prec emax sx mx ex lx = S754_infinity sx.
Proof.
  intros Hm He. unfold binary_round_aux.
  destruct (shr_fexp_positive mx ex lx Hm He) as [H1 He1].
  destruct (shr_fexp prec emax mx ex lx) as [mrs' e']. simpl in H1, He1.
  pose proof (round_nearest_even_ge (shr_m mrs') (loc_of_shr_record mrs')) as Hge.
  destruct (shr_fexp_positive
              (round_nearest_even (shr_m mrs') (loc_of_shr_record mrs')) e' loc_Exact
              ltac:(lia) He1) as [H2 _].
  destruct (shr_fexp prec emax
              (round_nearest_even (shr_m mrs') (loc_of_shr_record mrs')) e' loc_Exact)
    as [mrs'' e'']. simpl in H2.
  destruct (shr_m mrs'') as [|m|m]; try lia.
  destruct (e'' <=? emax - prec); [left; eauto|now right].
Qed.

(** The double nearest to a nonzero integer multiple of a power of 2 in
    range has the sign of the integer. *)
Lemma binary_normalize_sign (z e : Z) :
  z <> 0 -> -1074 <= e ->
  (exists m e', binary_normalize prec emax z e false = S754_finite (z <? 0) m e') \/
  binary_normalize prec emax z e false = S754_infinity (z <? 0).
Proof.
  intros Hz He.
  assert (Hround : forall (s : bool) (p : positive),
    (exists m e', binary_round prec emax s p e = S754_finite s m e') \/
    binary_round prec emax s p e = S754_infinity s).
  { intros s p. unfold binary_round, shl_align.
    set (e' := fexp prec emax (Z.pos (digits2_pos p) + e)).
    assert (He' : -1074 <= e') by (unfold e', fexp, SpecFloat.emin, prec, emax; lia).
    destruct (e' - e); apply binary_round_aux_nonzero; lia. }
  destruct z as [|p|p]; [contradiction|apply Hround..].
Qed.

(** A number is above [+0] when it is positive, finite or infinite. *)
Lemma SFltb_zero (r : spec_float) :
  SFltb (S754_zero false) r = true
  <-> (exists m e, r = S754_finite false m e) \/ r = S754_infinity false.
Proof.
  unfold SFltb, SFcompare.
  destruct r as [s|[|]| |[|] m e]; simpl;
    (split; [try discriminate; eauto|]); try (intros [(m' & e' & H)|H]; discriminate).
  all: reflexivity.
Qed.

(** The comparator [(a, b) => a - b] is positive exactly when [b < a]. *)
Lemma double_sub_positive (a b : float) :
  is_number a -> is_number b ->
  PrimFloat.ltb 0 (a - b) = true <-> PrimFloat.ltb b a = true.
Proof.
  intros Ha Hb.
  rewrite (double_ltb_position b a Hb Ha).
  rewrite FloatAxioms.ltb_spec, FloatAxioms.sub_spec.
  change (Prim2SF 0) with (S754_zero false). rewrite SFltb_zero.
  unfold is_number, sf_number in Ha, Hb.
  pose proof (Prim2SF_finite_canonical a) as Hca.
  pose proof (Prim2SF_finite_canonical b) as Hcb.
  unfold SF64sub, SFsub, position_lt.
  destruct (Prim2SF a) as [sa|sa| |sa ma ea], (Prim2SF b) as [sb|sb| |sb mb eb];
    try contradiction.
  - destruct sa, sb; simpl; (split; [intros [(m & e & H)|H]; discriminate|lia]).
  - destruct sb; simpl; (split; [intros [(m & e & H)|H]; try discriminate; lia|]);
      try lia; intros _; now right.
  - destruct sb; simpl; (split; [intros [(m & e & H)|H]; try discriminate; lia|]);
      try lia; intros _; left; eauto.
  - destruct sa; simpl; (split; [intros [(m & e & H)|H]; try discriminate; lia|]);
      try lia; intros _; now right.
  - destruct sa, sb; simpl; (split; [intros [(m & e & H)|H]; try discriminate; lia|]);
      try lia; intros _; now right.
  - destruct sa, sb; simpl; (split; [intros [(m & e & H)|H]; try discriminate; lia|]);
      try lia; intros _; now right.
  - destruct sa; simpl; (split; [intros [(m & e & H)|H]; try discriminate; lia|]);
      try lia; intros _; left; eauto.
  - destruct sa, sb; simpl; (split; [intros [(m & e & H)|H]; try discriminate; lia|]);
      try lia; intros _; now right.
  - destruct (Hca sa ma ea eq_refl) as (Hea & Hma & Hma').
    destruct (Hcb sb mb eb eq_refl) as (Heb & Hmb & Hmb').
    rewrite (shl_align_value ma ea (Z.min ea eb)) by lia.
    rewrite (shl_align_value mb eb (Z.min ea eb)) by lia.
    pose proof (aligned_lt ma mb ea eb Hma Hmb' Hmb Hma' Hea Heb) as Hab.
    pose proof (aligned_lt mb ma eb ea Hmb Hma' Hma Hmb' Heb Hea) as Hba.
    rewrite (Z.min_comm eb ea) in Hba.
    set (X := Z.pos ma * 2 ^ (ea - Z.min ea eb)) in *.
    set (Y := Z.pos mb * 2 ^ (eb - Z.min ea eb)) in *.
    assert (HX : 0 < X) by (apply Z.mul_pos_pos; [lia|apply Z.pow_pos_nonneg; lia]).
    assert (HY : 0 < Y) by (apply Z.mul_pos_pos; [lia|apply Z.pow_pos_nonneg; lia]).
    set (D := cond_Zopp sa X - cond_Zopp sb Y).
    destruct (Z.eq_dec D 0) as [HD|HD].
    + rewrite HD. simpl binary_normalize.
      split; [intros [(m & e & H)|H]; discriminate|].
      unfold D in HD. destruct sa, sb; simpl in *; lia.
    + destruct (binary_normalize_sign D (Z.min ea eb) HD ltac:(lia))
        as [(m & e & ->)| ->].
      * destruct (Z.ltb_spec D 0) as [Hneg|Hpos].
        -- split; [intros [(m' & e' & H)|H]; discriminate|].
           unfold D in Hneg. destruct sa, sb; simpl in *; lia.
        -- split; [intros _|intros _; left; eauto].
           unfold D in Hpos, HD. destruct sa, sb; simpl in *; lia.
      * destruct (Z.ltb_spec D 0) as [Hneg|Hpos].
        -- split; [intros [(m' & e' & H)|H]; discriminate|].
           unfold D in Hneg. destruct sa, sb; simpl in *; lia.
        -- split; [intros _|intros _; now right].
           unfold D in Hpos, HD. destruct sa, sb; simpl in *; lia.
Qed.

End DoubleDifferenceFacts.

(** ** Statistics: [median] *)

Section MedianFacts.
Import Statistics.

#[local] Abbreviation ascending := (fun a b : float => PrimFloat.leb a b = true).

Lemma sort_insert_permutation (compare : float -> float -> float) (x : float)
    (l : list float) :
  sort_insert compare x l ≡ₚ x :: l.
Proof.
  induction l as [|y l IH]; [reflexivity|].
  cbn [sort_insert]. destruct (PrimFloat.ltb 0 (compare x y)); [|reflexivity].
  rewrite IH. apply Permutation_swap.
Qed.

Lemma sort_permutation (compare : float -> float -> float) (l : list float) :
  sort compare l ≡ₚ l.
Proof.
  induction l as [|x l IH]; [reflexivity|].
  unfold sort in *. cbn [fold_right].
  rewrite sort_insert_permutation. now rewrite IH.
Qed.

(** Inserting into an ascending array with the comparator [(a, b) => a - b]
    keeps it ascending. *)
Lemma sort_insert_ascending (x : float) (l : list float) :
  is_number x -> Forall is_number l -> StronglySorted ascending l ->
  StronglySorted ascending (sort_insert PrimFloat.sub x l).
Proof.
  intros Hx Hall Hsorted.
  induction Hsorted as [|y l Hsorted IH Hy].
  - repeat constructor.
  - apply Forall_cons in Hall. destruct Hall as [Hny Hall].
    cbn [sort_insert].
    destruct (PrimFloat.ltb 0 (x - y)) eqn:Hcmp.
    + apply (proj1 (double_sub_positive x y Hx Hny)) in Hcmp.
      constructor; [now apply IH|].
      rewrite (sort_insert_permutation PrimFloat.sub x l).
      constructor; [now apply double_ltb_leb|assumption].
    + assert (Hle : PrimFloat.leb x y = true).
      { apply double_not_ltb_leb; [assumption..|].
        destruct (PrimFloat.ltb y x) eqn:Hlt; [|reflexivity].
        apply (proj2 (double_sub_positive x y Hx Hny)) in Hlt. congruence. }
      constructor; [now constructor|].
      constructor; [assumption|].
      apply Forall_forall. intros z Hz.
      apply (double_leb_trans x y z); try assumption.
      * exact (proj1 (Forall_forall _ _) Hall z Hz).
      * exact (proj1 (Forall_forall _ _) Hy z Hz).
Qed.

(** On an array without [NaN], [sort((a, b) => a - b)] is a rearrangement
    in ascending order. *)
Lemma sort_ascending (l : list float) :
  Forall is_number l ->
  StronglySorted ascending (sort PrimFloat.sub l) /\ sort PrimFloat.sub l ≡ₚ l.
Proof.
  intros Hall. split; [|apply sort_permutation].
  induction l as [|x l IH]; [constructor|].
  apply Forall_cons in Hall. destruct Hall as [Hx Hall].
  unfold sort in *. cbn [fold_right].
  apply sort_insert_ascending; [assumption| |now apply IH].
  now rewrite (sort_permutation PrimFloat.sub l).
Qed.

(** [median] reads the middle of the sorted copy. *)
Lemma median_of_sorted (numbers : list float) :
  numbers <> [] ->
  ((length numbers mod 2 <> 0)%nat ->
   exists x, sort PrimFloat.sub numbers !! (length numbers / 2)%nat = Some x /\
             median numbers = Num x) /\
  ((length numbers mod 2 = 0)%nat ->
   exists lo hi,
     sort PrimFloat.sub numbers !! (length numbers / 2 - 1)%nat = Some lo /\
     sort PrimFloat.sub numbers !! (length numbers / 2)%nat = Some hi /\
     median numbers = Num ((lo + hi) / 2)%float).
Proof.
  intros Hne.
  assert (Hlen : length (sort PrimFloat.sub numbers) = length numbers)
    by now rewrite sort_permutation.
  assert (Hpos : (0 < length numbers)%nat).
  { destruct numbers; [contradiction|simpl; lia]. }
  unfold median.
  destruct (Nat.eqb_spec (length numbers) 0) as [H0|_]; [lia|].
  cbv zeta.
  change (sort (fun a b : float => (a - b)%float) numbers)
    with (sort PrimFloat.sub numbers).
  rewrite Hlen.
  assert (Hmid : (length numbers / 2 < length numbers)%nat)
    by (apply Nat.div_lt; lia).
  destruct (lookup_lt_is_Some_2 (sort PrimFloat.sub numbers) (length numbers / 2))
    as [hi Hhi]; [lia|].
  split.
  - intros Hodd. destruct (Nat.eqb_spec (length numbers mod 2) 0); [contradiction|].
    exists hi. split; [assumption|]. unfold get_number. now rewrite Hhi.
  - intros Heven. destruct (Nat.eqb_spec (length numbers mod 2) 0); [|contradiction].
    destruct (lookup_lt_is_Some_2 (sort PrimFloat.sub numbers)
                (length numbers / 2 - 1)) as [lo Hlo]; [lia|].
    exists lo, hi. split; [assumption|]. split; [assumption|].
    unfold get_number. now rewrite Hlo, Hhi.
Qed.

(** X16: [median] of the empty array is 0.  On a non-empty array without
    [NaN] the copy sorted with [(a, b) => a - b] is a rearrangement of the
    array in ascending order, and [median] returns its middle element when
    the length is odd, and half the sum of the two middle elements when it
    is even. *)
Theorem median_spec (numbers : list float) :
  (numbers = [] -> median numbers = Num 0%float) /\
  (numbers <> [] -> Forall (fun x => PrimFloat.is_nan x = false) numbers ->
   exists sorted,
     sorted ≡ₚ numbers /\ StronglySorted ascending sorted /\
     ((length numbers mod 2 <> 0)%nat ->
      exists x, sorted !! (length numbers / 2)%nat = Some x /\
                median numbers = Num x) /\
     ((length numbers mod 2 = 0)%nat ->
      exists lo hi,
        sorted !! (length numbers / 2 - 1)%nat = Some lo /\
        sorted !! (length numbers / 2)%nat = Some hi /\
        median numbers = Num ((lo + hi) / 2)%float)).
Proof.
  split; [intros ->; reflexivity|].
  intros Hne Hall.
  assert (Hnum : Forall is_number numbers).
  { eapply Forall_impl; [exact Hall|]. intros x. apply is_number_spec. }
  destruct (sort_ascending numbers Hnum) as [Hsorted Hperm].
  exists (sort PrimFloat.sub numbers).
  split; [assumption|]. split; [assumption|].
  now apply median_of_sorted.
Qed.

Lemma median_spec_witness :
  exists sorted,
    sorted ≡ₚ [3; 1; 2]%float /\ sorted !! 1%nat = Some 2%float /\
    median [3; 1; 2]%float = Num 2%float.
Proof.
  destruct (proj2 (median_spec [3; 1; 2]%float)) as (sorted & Hperm & _ & Hodd & _).
  - discriminate.
  - repeat constructor.
  - destruct (Hodd ltac:(discriminate)) as (x & Hx & Hmedian).
    exists sorted. split; [assumption|].
    simpl in Hx. assert (Hx2 : x = 2%float).
    { change (median [3; 1; 2]%float) with (Num 2%float) in Hmedian. congruence. }
    subst x. split; [assumption|reflexivity].
Defined.

(** X24: the median of an array of odd length without [NaN] is an element
    of the array, between the [min] and the [max] that [minMax] returns.
    (For an even length the sum of the two middle elements can overflow.) *)
Theorem median_between_min_and_max (numbers : list float) :
  (length numbers mod 2 <> 0)%nat ->
  Forall (fun x => PrimFloat.is_nan x = false) numbers ->
  exists x lo hi,
    median numbers = Num x /\
    minMax numbers = mkMinMax (Number lo) (Number hi) /\
    x ∈ numbers /\
    PrimFloat.leb lo x = true /\ PrimFloat.leb x hi = true.
Proof.
  intros Hodd Hall.
  assert (Hne : numbers <> []) by (intros ->; now apply Hodd).
  assert (Hnum : Forall is_number numbers).
  { eapply Forall_impl; [exact Hall|]. intros x. apply is_number_spec. }
  destruct (proj1 (median_of_sorted numbers Hne) Hodd) as (x & Hx & Hmedian).
  destruct (minMax_bounds numbers Hne Hnum) as (lo & hi & HminMax & _ & _ & Hbound).
  assert (Hmem : x ∈ numbers).
  { rewrite <- (sort_permutation PrimFloat.sub numbers).
    now apply list_elem_of_lookup_2 with (length numbers / 2)%nat. }
  exists x, lo, hi. split; [assumption|]. split; [assumption|].
  split; [assumption|]. now apply Hbound.
Qed.

Lemma median_between_min_and_max_witness :
  exists x lo hi,
    median [3; -1; 2]%float = Num x /\
    minMax [3; -1; 2]%float = mkMinMax (Number lo) (Number hi) /\
    PrimFloat.leb lo x = true /\ PrimFloat.leb x hi = true.
Proof.
  destruct (median_between_min_and_max [3; -1; 2]%float)
    as (x & lo & hi & Hmedian & HminMax & _ & Hlo & Hhi).
  - discriminate.
  - repeat constructor.
  - exists x, lo, hi. auto.
Defined.

(** With an even length the result can exceed every element. *)
Example median_even_overflow :
  median [0x1p+1023; 0x1.8p+1023]%float = Num infinity.
Proof. reflexivity. Qed.

End MedianFacts.

(** ** Statistics: [sumOfSquares] *)

Section SumOfSquaresFacts.
Import Statistics.

Lemma is_nan_eq (x : float) : PrimFloat.is_nan x = true -> x = nan.
Proof.
  intros H. apply Prim2SF_inj. change (Prim2SF nan) with S754_nan.
  destruct (Prim2SF x) eqn:Hx; try reflexivity;
    (assert (Hn : PrimFloat.is_nan x = false)
       by (apply is_number_spec; unfold is_number; rewrite Hx; discriminate));
    congruence.
Qed.

Lemma double_add_nan_l (y : float) : (nan + y = nan)%float.
Proof.
  apply Prim2SF_inj. rewrite FloatAxioms.add_spec.
  change (Prim2SF nan) with S754_nan. reflexivity.
Qed.

Lemma double_add_nan_r (x : float) : (x + nan = nan)%float.
Proof.
  apply Prim2SF_inj. rewrite FloatAxioms.add_spec.
  change (Prim2SF nan) with S754_nan. now destruct (Prim2SF x).
Qed.

Lemma sumOfSquares_from_nonneg (xs : list float) : forall acc : float,
  Forall is_number xs -> sf_nonneg (Prim2SF acc) ->
  sf_nonneg (Prim2SF (fold_left (fun acc num => a_add acc (a_square num)) xs acc)).
Proof.
  induction xs as [|x xs IH]; intros acc Hall Hacc; [assumption|].
  apply Forall_cons in Hall. destruct Hall as [Hx Hall].
  cbn [fold_left]. apply IH; [assumption|].
  simpl. rewrite FloatAxioms.add_spec, FloatAxioms.mul_spec.
  apply SFadd_nonneg; [assumption|]. now apply SFmul_square_nonneg.
Qed.

Lemma sumOfSquares_from_nan (xs : list float) :
  fold_left (fun acc num => a_add acc (a_square num)) xs nan = nan.
Proof.
  induction xs as [|x xs IH]; [reflexivity|].
  cbn [fold_left]. simpl a_add. now rewrite double_add_nan_l.
Qed.

Lemma sumOfSquares_from_exists_nan (xs : list float) : forall acc : float,
  Exists (fun x => PrimFloat.is_nan x = true) xs ->
  fold_left (fun acc num => a_add acc (a_square num)) xs acc = nan.
Proof.
  induction xs as [|x xs IH]; intros acc Hex; [inversion Hex|].
  cbn [fold_left]. apply Exists_cons in Hex. destruct Hex as [Hx|Hex].
  - apply is_nan_eq in Hx. subst x.
    change (a_add acc (a_square nan)) with (acc + nan * nan)%float.
    rewrite double_mul_nan_r, double_add_nan_r. apply sumOfSquares_from_nan.
  - now apply IH.
Qed.

(** X17: [sumOfSquares] is never negative.  Of the empty array it is 0; on
    an array without [NaN] it is a number that is at least 0 (it may be
    [+Infinity]); and it is [NaN] when an element is [NaN]. *)
Theorem sumOfSquares_sign (numbers : list float) :
  sumOfSquares ([] : list float) = 0%float /\
  (Forall (fun x => PrimFloat.is_nan x = false) numbers ->
   PrimFloat.leb 0 (sumOfSquares numbers) = true) /\
  (Exists (fun x => PrimFloat.is_nan x = true) numbers ->
   sumOfSquares numbers = nan).
Proof.
  split; [reflexivity|]. split.
  - intros Hall. unfold sumOfSquares.
    rewrite FloatAxioms.leb_spec. change (Prim2SF 0) with (S754_zero false).
    apply SFleb_zero_nonneg, sumOfSquares_from_nonneg; [|exact I].
    eapply Forall_impl; [exact Hall|]. intros x. apply is_number_spec.
  - apply sumOfSquares_from_exists_nan.
Qed.

Lemma sumOfSquares_sign_witness :
  PrimFloat.leb 0 (sumOfSquares [1; -2; 3]%float) = true.
Proof.
  apply (proj1 (proj2 (sumOfSquares_sign [1; -2; 3]%float))).
  repeat constructor.
Defined.

End SumOfSquaresFacts.

(** ** Geometry: [distance] *)

Section DistanceFacts.
Import Geometry.

Lemma binary_round_aux_opp (s : bool) (m e : Z) (l : location) :
  binary_round_aux prec emax (negb s) m e l = SFopp (binary_round_aux prec emax s m e l).
Proof.
  unfold binary_round_aux.
  destruct (shr_fexp prec emax m e l) as [mrs' e'].
  destruct (shr_fexp prec emax _ e' loc_Exact) as [mrs'' e''].
  destruct (shr_m mrs''); try reflexivity.
  now destruct (e'' <=? emax - prec).
Qed.

Lemma binary_normalize_opp (z e : Z) :
  z <> 0 ->
  binary_normalize prec emax (- z) e false = SFopp (binary_normalize prec emax z e false).
Proof.
  intros Hz. destruct z as [|p|p]; [contradiction| |]; simpl; unfold binary_round;
    destruct (shl_align p e _) as [mz ez].
  - apply (binary_round_aux_opp false).
  - apply (binary_round_aux_opp true).
Qed.

(** The square of a number and of its opposite are the same double. *)
Lemma SFmul_opp_square (r : spec_float) :
  SF64mul (SFopp r) (SFopp r) = SF64mul r r.
Proof.
  unfold SF64mul. destruct r as [s|s| |s m e]; simpl; try reflexivity;
    now destruct s.
Qed.

(** Exchanging the operands of a subtraction gives the opposite number, or
    a zero again when the difference is a zero. *)
Lemma SFsub_swap (x y : spec_float) :
  SF64sub y x = SFopp (SF64sub x y) \/
  (exists s s', SF64sub x y = S754_zero s /\ SF64sub y x = S754_zero s').
Proof.
  unfold SF64sub, SFsub.
  destruct x as [sx|sx| |sx mx ex], y as [sy|sy| |sy my ey];
    try (left; reflexivity);
    try (destruct sx; left; reflexivity);
    try (destruct sy; left; reflexivity);
    try (destruct sx, sy; left; reflexivity).
  - right. destruct sx, sy; eauto.
  - rewrite (Z.min_comm ey ex).
    set (X := cond_Zopp sx (Z.pos (fst (shl_align mx ex (Z.min ex ey))))).
    set (Y := cond_Zopp sy (Z.pos (fst (shl_align my ey (Z.min ex ey))))).
    destruct (Z.eq_dec (X - Y) 0) as [H0|H0].
    + right. replace (Y - X) with 0 by lia. rewrite H0. simpl. eauto.
    + left. replace (Y - X) with (- (X - Y)) by lia.
      now apply binary_normalize_opp.
Qed.

(** [(a - b)^2] and [(b - a)^2] are the same double. *)
Lemma double_sub_square_swap (a b : float) :
  ((a - b) * (a - b) = (b - a) * (b - a))%float.
Proof.
  apply Prim2SF_inj. rewrite !FloatAxioms.mul_spec, !FloatAxioms.sub_spec.
  destruct (SFsub_swap (Prim2SF a) (Prim2SF b)) as [->|(s & s' & -> & ->)].
  - symmetry. apply SFmul_opp_square.
  - now destruct s, s'.
Qed.

Lemma double_sub_self (x : float) : is_finite_double x = true -> (x - x = 0)%float.
Proof.
  intros Hx. apply is_finite_double_spec in Hx. apply Prim2SF_inj.
  rewrite FloatAxioms.sub_spec. change (Prim2SF 0) with (S754_zero false).
  unfold SF64sub, SFsub.
  destruct (Prim2SF x) as [s|s| |s m e]; simpl in Hx; try contradiction.
  - now destruct s.
  - now rewrite Z.sub_diag.
Qed.

Lemma sf_finite_number (x : spec_float) : sf_finite x -> sf_number x.
Proof. destruct x; simpl; [discriminate|contradiction..|discriminate]. Qed.

(** X18: [distance] is symmetric in its two points; between points with
    finite coordinates it is a number that is at least 0, never [NaN]; and
    from such a point to itself it is 0. *)
Theorem distance_properties (x1 y1 x2 y2 : float) :
  distance x1 y1 x2 y2 = distance x2 y2 x1 y1 /\
  (is_finite_double x1 = true -> is_finite_double y1 = true ->
   is_finite_double x2 = true -> is_finite_double y2 = true ->
   PrimFloat.leb 0 (distance x1 y1 x2 y2) = true /\
   distance x1 y1 x1 y1 = 0%float).
Proof.
  split.
  - unfold distance. simpl.
    now rewrite (double_sub_square_swap x2 x1), (double_sub_square_swap y2 y1).
  - intros Hx1 Hy1 Hx2 Hy2. split.
    + unfold distance. simpl.
      rewrite FloatAxioms.leb_spec. change (Prim2SF 0) with (S754_zero false).
      apply SFleb_zero_nonneg.
      rewrite FloatAxioms.sqrt_spec. apply SFsqrt_nonneg.
      rewrite FloatAxioms.add_spec, !FloatAxioms.mul_spec, !FloatAxioms.sub_spec.
      apply SFadd_nonneg; apply SFmul_square_nonneg, SFsub_number;
        try apply sf_finite_number; now apply is_finite_double_spec.
    + unfold distance. simpl. now rewrite !double_sub_self.
Qed.

Lemma distance_properties_witness :
  (PrimFloat.leb 0 (distance 0 0 3 4) = true /\ distance 0 0 0 0 = 0)%float.
Proof.
  apply (proj2 (distance_properties 0 0 3 4)%float); reflexivity.
Defined.

End DistanceFacts.

(** ** Number theory: [factorial] outside the integers *)

Section FactorialEdgeFacts.
Import NumberTheory.

Lemma factorial_double_unfold (fuel : nat) (n : float) :
  factorial (S fuel) n
  = if PrimFloat.ltb n 0 then Thrown (Error factorial_message)
    else if PrimFloat.eqb n 0 || PrimFloat.eqb n 1 then Ok 1%float
    else r ← factorial fuel (n - 1)%float; Ok (n * r)%float.
Proof. reflexivity. Qed.

Lemma SFeqb_position (x y : spec_float) :
  sf_number x -> sf_number y ->
  SFeqb x y = true -> sf_position x = sf_position y.
Proof.
  unfold sf_number, SFeqb, SFcompare. intros Hx Hy.
  destruct x as [sx|sx| |sx mx ex], y as [sy|sy| |sy my ey];
    try contradiction; try destruct sx; try destruct sy; simpl;
    try discriminate; try reflexivity.
  - fold (Pos.compare mx my).
    destruct (Z.compare_spec ex ey), (Pos.compare_spec mx my); simpl;
      try discriminate. intros _. congruence.
  - fold (Pos.compare mx my).
    destruct (Z.compare_spec ex ey), (Pos.compare_spec mx my); simpl;
      try discriminate. intros _. congruence.
Qed.

Lemma SFltb_zero_opp (r : spec_float) :
  SFltb (SFopp r) (S754_zero false) = SFltb (S754_zero false) r.
Proof. now destruct r as [s|[|]| |[|] m e]. Qed.

(** [a - b] is negative exactly when [a < b]. *)
Lemma double_sub_negative (a b : float) :
  is_number a -> is_number b ->
  PrimFloat.ltb (a - b) 0 = true <-> PrimFloat.ltb a b = true.
Proof.
  intros Ha Hb. rewrite <- (double_sub_positive b a Hb Ha).
  rewrite !FloatAxioms.ltb_spec, !FloatAxioms.sub_spec.
  change (Prim2SF 0) with (S754_zero false).
  destruct (SFsub_swap (Prim2SF b) (Prim2SF a)) as [->|(s & s' & -> & ->)].
  - now rewrite SFltb_zero_opp.
  - reflexivity.
Qed.

Lemma double_ltb_number (x y : float) :
  PrimFloat.ltb x y = true -> is_number x /\ is_number y.
Proof.
  rewrite FloatAxioms.ltb_spec. unfold is_number, sf_number, SFltb, SFcompare.
  destruct (Prim2SF x), (Prim2SF y); try discriminate; intros _; split; discriminate.
Qed.

(** X19: [factorial] of a number strictly between 0 and 1 throws the error
    for negative numbers: the number is neither 0 nor 1, and the recursive
    call is made on [n - 1], which is negative. *)
Theorem factorial_fraction (fuel : nat) (x : float) :
  PrimFloat.ltb 0 x = true -> PrimFloat.ltb x 1 = true ->
  factorial (S (S fuel)) x = Thrown (Error factorial_message).
Proof.
  intros H0 H1.
  destruct (double_ltb_number 0 x H0) as [Hzero Hx].
  destruct (double_ltb_number x 1 H1) as [_ Hone].
  rewrite factorial_double_unfold.
  assert (Hlt : PrimFloat.ltb x 0 = false).
  { destruct (PrimFloat.ltb x 0) eqn:H; [|reflexivity].
    apply double_ltb_position in H0, H; try assumption.
    unfold position_lt in *. lia. }
  assert (Heq0 : PrimFloat.eqb x 0 = false).
  { destruct (PrimFloat.eqb x 0) eqn:H; [|reflexivity].
    rewrite FloatAxioms.eqb_spec in H. apply SFeqb_position in H; try assumption.
    apply double_ltb_position in H0; try assumption.
    rewrite H in H0. unfold position_lt in H0. lia. }
  assert (Heq1 : PrimFloat.eqb x 1 = false).
  { destruct (PrimFloat.eqb x 1) eqn:H; [|reflexivity].
    rewrite FloatAxioms.eqb_spec in H. apply SFeqb_position in H; try assumption.
    apply double_ltb_position in H1; try assumption.
    rewrite H in H1. unfold position_lt in H1. lia. }
  rewrite Hlt, Heq0, Heq1. cbn [orb].
  rewrite factorial_double_unfold.
  now rewrite (proj2 (double_sub_negative x 1 Hx Hone) H1).
Qed.

Lemma factorial_fraction_witness :
  factorial 2 0.5%float = Thrown (Error factorial_message).
Proof.
  apply (factorial_fraction 0 0.5%float); reflexivity.
Defined.

(** X20: on a number that is not below 0, is neither 0 nor 1 and that
    subtracting 1 does not change, the recursion never reaches a base case:
    no amount of fuel gives a result.  [NaN], [+Infinity] and 2^60 are such
    numbers. *)
Theorem factorial_no_base_case (x : float) :
  PrimFloat.ltb x 0 = false -> PrimFloat.eqb x 0 = false ->
  PrimFloat.eqb x 1 = false -> (x - 1 = x)%float ->
  forall fuel, factorial fuel x = OutOfFuel.
Proof.
  intros Hlt Heq0 Heq1 Hfix fuel.
  induction fuel as [|fuel IH]; [reflexivity|].
  rewrite factorial_double_unfold, Hlt, Heq0, Heq1, Hfix, IH. reflexivity.
Qed.

Lemma factorial_no_base_case_witness :
  (forall fuel, factorial fuel nan = OutOfFuel) /\
  (forall fuel, factorial fuel infinity = OutOfFuel) /\
  (forall fuel, factorial fuel 0x1p+60%float = OutOfFuel).
Proof.
  repeat split; apply factorial_no_base_case; reflexivity.
Defined.

End FactorialEdgeFacts.

(** ** Basic mathematics: [sum], [subtract] and [multiply] *)

Section BasicMathFacts.
Import BasicMath.

Lemma SFsub_finite_number (x y : spec_float) :
  sf_number x -> sf_finite y -> sf_number (SF64sub x y).
Proof.
  unfold sf_number, SF64sub. intros Hx Hy.
  destruct x as [sx|sx| |sx mx ex], y as [sy|sy| |sy my ey]; simpl in *;
    try contradiction; try discriminate.
  - destruct sx, sy; discriminate.
  - apply binary_normalize_number.
Qed.

Lemma subtract_from_number (ys : list float) : forall acc : float,
  Forall (fun y => is_finite_double y = true) ys -> is_number acc ->
  reduce_from (fun acc num => Ok (acc - num)%float) ys acc
  = Ok (fold_left PrimFloat.sub ys acc) /\
  is_number (fold_left PrimFloat.sub ys acc).
Proof.
  induction ys as [|y ys IH]; intros acc Hall Hacc; [split; [reflexivity|assumption]|].
  apply Forall_cons in Hall. destruct Hall as [Hy Hall].
  cbn [reduce_from fold_left]. simpl. apply IH; [assumption|].
  unfold is_number. rewrite FloatAxioms.sub_spec.
  apply SFsub_finite_number; [assumption|now apply is_finite_double_spec].
Qed.

(** X21: on finite arguments neither [sum] nor [subtract] returns [NaN]
    (either can overflow to an infinity).  [sum] of no argument is 0;
    [subtract] of no argument throws a [TypeError], and otherwise subtracts
    the later arguments from the first, from left to right. *)
Theorem sum_subtract_numbers (numbers : list float) :
  Forall (fun x => is_finite_double x = true) numbers ->
  PrimFloat.is_nan (sum numbers) = false /\
  (numbers = [] -> sum numbers = 0%float /\ subtract numbers = Thrown TypeError) /\
  (forall x ys, numbers = x :: ys ->
     subtract numbers = Ok (fold_left PrimFloat.sub ys x) /\
     PrimFloat.is_nan (fold_left PrimFloat.sub ys x) = false).
Proof.
  intros Hall. split; [|split].
  - apply is_number_spec. unfold sum. apply sum_number; [assumption|discriminate].
  - intros ->. split; reflexivity.
  - intros x ys ->. apply Forall_cons in Hall. destruct Hall as [Hx Hall].
    destruct (subtract_from_number ys x Hall) as [Hsub Hnum].
    { apply sf_finite_number. now apply is_finite_double_spec. }
    split; [exact Hsub|now apply is_number_spec].
Qed.

Lemma sum_subtract_numbers_witness :
  PrimFloat.is_nan (sum [0x1p+1023; 0x1p+1023; -0x1p+1023]%float) = false /\
  subtract [10; 3; 2]%float = Ok 5%float.
Proof.
  split.
  - apply (sum_subtract_numbers [0x1p+1023; 0x1p+1023; -0x1p+1023]%float).
    repeat constructor.
  - destruct (sum_subtract_numbers [10; 3; 2]%float) as (_ & _ & H).
    + repeat constructor.
    + exact (proj1 (H 10%float [3; 2]%float eq_refl)).
Defined.

(** A zero or [NaN] times a finite number, and any number times a zero, is a
    zero or [NaN]. *)
Lemma SFmul_zero_or_nan (x y : spec_float) :
  ((exists s, x = S754_zero s) \/ x = S754_nan) /\ sf_finite y \/
  (exists s, y = S754_zero s) ->
  (exists s, SF64mul x y = S754_zero s) \/ SF64mul x y = S754_nan.
Proof.
  unfold SF64mul. intros [[[[s ->]| ->] Hy]|[s ->]].
  - destruct y; simpl in *; try contradiction; left; eauto.
  - now right.
  - destruct x; simpl; first [left; eexists; reflexivity|right; reflexivity].
Qed.

Lemma multiply_from_zero (ys : list float) : forall acc : float,
  Forall (fun y => is_finite_double y = true) ys ->
  (exists s, Prim2SF acc = S754_zero s) \/ Prim2SF acc = S754_nan ->
  (exists s, Prim2SF (fold_left PrimFloat.mul ys acc) = S754_zero s) \/
  Prim2SF (fold_left PrimFloat.mul ys acc) = S754_nan.
Proof.
  induction ys as [|y ys IH]; intros acc Hall Hacc; [assumption|].
  apply Forall_cons in Hall. destruct Hall as [Hy Hall].
  cbn [fold_left]. apply IH; [assumption|].
  rewrite FloatAxioms.mul_spec. apply SFmul_zero_or_nan. left.
  split; [assumption|now apply is_finite_double_spec].
Qed.

Lemma multiply_from_exists_zero (ys : list float) : forall acc : float,
  Forall (fun y => is_finite_double y = true) ys ->
  Exists (fun y => PrimFloat.eqb y 0 = true) ys ->
  (exists s, Prim2SF (fold_left PrimFloat.mul ys acc) = S754_zero s) \/
  Prim2SF (fold_left PrimFloat.mul ys acc) = S754_nan.
Proof.
  induction ys as [|y ys IH]; intros acc Hall Hex; [inversion Hex|].
  apply Forall_cons in Hall. destruct Hall as [Hy Hall].
  cbn [fold_left]. apply Exists_cons in Hex. destruct Hex as [Hzero|Hex].
  - apply multiply_from_zero; [assumption|].
    rewrite FloatAxioms.mul_spec. apply SFmul_zero_or_nan. right.
    now apply double_eqb_zero.
  - now apply IH.
Qed.

(** X22: [multiply] of no argument is 1.  When the arguments are finite and
    one of them is 0 or -0, the product is a zero or [NaN], never another
    number; it is [NaN] when the factors before the zero overflow, as in
    [multiply(1e200, 1e200, 0)]. *)
Theorem multiply_zero_factor (numbers : list float) :
  multiply [] = 1%float /\
  (Forall (fun x => is_finite_double x = true) numbers ->
   Exists (fun x => PrimFloat.eqb x 0 = true) numbers ->
   PrimFloat.eqb (multiply numbers) 0 = true \/
   PrimFloat.is_nan (multiply numbers) = true) /\
  PrimFloat.is_nan (multiply [0x1.4e718d7d7625ap+664; 0x1.4e718d7d7625ap+664; 0]%float)
  = true.
Proof.
  split; [reflexivity|]. split; [|reflexivity].
  intros Hall Hex. unfold multiply.
  destruct (multiply_from_exists_zero numbers 1%float Hall Hex) as [Hz|Hn].
  - left. now apply double_eqb_zero.
  - right. destruct (PrimFloat.is_nan _) eqn:H; [reflexivity|].
    apply is_number_spec in H. contradiction.
Qed.

Lemma multiply_zero_factor_witness :
  PrimFloat.eqb (multiply [2; 0; -3]%float) 0 = true \/
  PrimFloat.is_nan (multiply [2; 0; -3]%float) = true.
Proof.
  apply (proj1 (proj2 (multiply_zero_factor [2; 0; -3]%float))).
  - repeat constructor.
  - right. left. reflexivity.
Defined.

End BasicMathFacts.

(** ** Matrices: [add] on rows of different lengths *)

Section AddRaggedFacts.
Import Matrix.

(** X23: [add] compares the numbers of rows and the lengths of the two
    first rows, and nothing else.  When these agree the call succeeds
    whatever the lengths of the other rows: row [i] of the result has the
    length of row [i] of [a], with [a[i][j] + b[i][j]] at [j], and this is
    [NaN] where row [i] of [b] has no entry [j]. *)
Theorem add_checks_first_rows_only (a b : matrix) (a0 b0 : list value) :
  length a = length b ->
  a !! 0%nat = Some a0 -> b !! 0%nat = Some b0 -> length a0 = length b0 ->
  exists res,
    add a b = Ok res /\ length res = length a /\
    forall i ai bi, a !! i = Some ai -> b !! i = Some bi ->
      exists ri, res !! i = Some ri /\ length ri = length ai /\
        forall j x, ai !! j = Some x ->
          ri !! j = Some (js_add x (get bi j)) /\
          (bi !! j = None -> ri !! j = Some (Num nan)).
Proof.
  intros Hlen Ha0 Hb0 Hlen0. unfold add.
  replace (length a =? length b)%nat with true
    by (symmetry; now apply Nat.eqb_eq).
  simpl. rewrite (row_lookup a 0 a0 Ha0), (row_lookup b 0 b0 Hb0). simpl.
  replace (length a0 =? length b0)%nat with true
    by (symmetry; now apply Nat.eqb_eq).
  simpl.
  rewrite map_rows_add.
  2:{ intros k Hk. apply lookup_lt_is_Some_2. simpl. lia. }
  eexists. split; [reflexivity|]. split; [apply length_imap|].
  intros i ai bi Hai Hbi. eexists. split.
  { rewrite list_lookup_imap, Hai. reflexivity. }
  split; [apply length_imap|].
  intros j x Hx. simpl. rewrite Hbi. simpl.
  rewrite list_lookup_imap, Hx. simpl. split; [reflexivity|].
  intros Hnone. unfold get. rewrite Hnone. unfold js_add. simpl.
  now rewrite double_add_nan_r.
Qed.

Lemma add_checks_first_rows_only_witness :
  exists res,
    add (of_numbers [[1; 2]; [3; 4]]%float) (of_numbers [[10; 20]; [30]]%float)
    = Ok res /\
    res !! 1%nat = Some [Num 33%float; Num nan].
Proof.
  destruct (add_checks_first_rows_only
              (of_numbers [[1; 2]; [3; 4]]%float) (of_numbers [[10; 20]; [30]]%float)
              [Num 1%float; Num 2%float] [Num 10%float; Num 20%float])
    as (res & Hres & _ & _); try reflexivity.
  exists res. split; [exact Hres|].
  change (add (of_numbers [[1; 2]; [3; 4]]%float) (of_numbers [[10; 20]; [30]]%float))
    with (Ok [[Num 11%float; Num 22%float]; [Num 33%float; Num nan]]) in Hres.
  now injection Hres as <-.
Defined.

End AddRaggedFacts.

(** ** Statistics: [mode] *)

Section ModeFacts.
Import Statistics.

(** *** Keys *)

Lemma key_eqb_spec (k k' : key) : reflect (k = k') (key_eqb k k').
Proof.
  apply iff_reflect. symmetry. apply FloatAxioms.Leibniz.eqb_spec.
Qed.

Lemma key_ltb_irrefl (k : key) : PrimFloat.ltb k k = false.
Proof.
  destruct (PrimFloat.ltb k k) eqn:E; [|reflexivity].
  destruct (double_ltb_number k k E) as [Hk _].
  apply double_ltb_position in E; [|assumption..].
  unfold position_lt in E. lia.
Qed.

Lemma key_ltb_trans (a b c : key) :
  PrimFloat.ltb a b = true -> PrimFloat.ltb b c = true ->
  PrimFloat.ltb a c = true.
Proof.
  intros Hab Hbc.
  destruct (double_ltb_number a b Hab) as [Ha Hb].
  destruct (double_ltb_number b c Hbc) as [_ Hc].
  revert Hab Hbc. rewrite !double_ltb_position by assumption.
  unfold position_lt. lia.
Qed.

Lemma index_is_number (k : key) : is_array_index k = true -> is_number k.
Proof.
  unfold is_array_index, is_number, sf_number.
  destruct (Prim2SF k); [discriminate..|]. discriminate.
Qed.

Lemma index_position_inj (k k' : key) :
  is_array_index k = true -> is_array_index k' = true ->
  sf_position (Prim2SF k) = sf_position (Prim2SF k') -> k = k'.
Proof.
  unfold is_array_index. intros Hk Hk' Hpos. apply Prim2SF_inj.
  destruct (Prim2SF k) as [[|]| | |[|] m e]; try discriminate Hk;
    destruct (Prim2SF k') as [[|]| | |[|] m' e']; try discriminate Hk';
    simpl in Hpos; try discriminate Hpos; congruence.
Qed.

Lemma index_trichotomy (k k' : key) :
  is_array_index k = true -> is_array_index k' = true ->
  PrimFloat.ltb k k' = false -> k <> k' -> PrimFloat.ltb k' k = true.
Proof.
  intros Hk Hk' Hlt Hne.
  pose proof (index_is_number k Hk) as Hn.
  pose proof (index_is_number k' Hk') as Hn'.
  assert (Hnlt : ~ position_lt (sf_position (Prim2SF k)) (sf_position (Prim2SF k'))).
  { intros H. apply double_ltb_position in H; [congruence|assumption..]. }
  assert (Hpos : sf_position (Prim2SF k) <> sf_position (Prim2SF k')).
  { intros H. apply Hne. now apply index_position_inj. }
  apply double_ltb_position; [assumption..|].
  destruct (sf_position (Prim2SF k)) as [[a b] c].
  destruct (sf_position (Prim2SF k')) as [[a' b'] c'].
  unfold position_lt in *. simpl in *.
  assert (Hd : ~ (a = a' /\ b = b' /\ c = c')) by (intros (-> & -> & ->); now apply Hpos).
  lia.
Qed.

Lemma to_key_idempotent (x : float) : to_key (to_key x) = to_key x.
Proof.
  unfold to_key. destruct (PrimFloat.eqb x 0) eqn:E; [reflexivity|].
  now rewrite E.
Qed.

Lemma same_number_to_key (x y : float) :
  same_number x y = true <-> to_key x = to_key y.
Proof.
  unfold same_number, to_key. split.
  - intros H. apply orb_true_iff in H. destruct H as [H|H].
    + revert H. rewrite !FloatAxioms.eqb_spec.
      change (Prim2SF 0) with (S754_zero false).
      pose proof (Prim2SF_inj x y) as Hinj.
      unfold SFeqb, SFcompare.
      destruct (Prim2SF x) as [sx|sx| |sx mx ex], (Prim2SF y) as [sy|sy| |sy my ey];
        try destruct sx; try destruct sy; simpl;
        try discriminate; try reflexivity; try (intros _; now apply Hinj).
      * fold (Pos.compare mx my).
        destruct (Z.compare_spec ex ey), (Pos.compare_spec mx my); simpl;
          try discriminate. intros _. apply Hinj. congruence.
      * fold (Pos.compare mx my).
        destruct (Z.compare_spec ex ey), (Pos.compare_spec mx my); simpl;
          try discriminate. intros _. apply Hinj. congruence.
    + apply andb_true_iff in H. destruct H as [Hx Hy].
      apply is_nan_eq in Hx. apply is_nan_eq in Hy. subst. reflexivity.
  - destruct (PrimFloat.eqb x 0) eqn:Ex, (PrimFloat.eqb y 0) eqn:Ey.
    + intros _. apply orb_true_iff. left.
      apply double_eqb_zero in Ex. apply double_eqb_zero in Ey.
      destruct Ex as [sx Ex], Ey as [sy Ey].
      rewrite FloatAxioms.eqb_spec, Ex, Ey. reflexivity.
    + intros <-. discriminate Ey.
    + intros ->. discriminate Ex.
    + intros ->. unfold PrimFloat.is_nan.
      destruct (PrimFloat.eqb y y); reflexivity.
Qed.

Lemma same_number_key (x y : float) :
  same_number x y = key_eqb (to_key x) (to_key y).
Proof.
  apply Bool.eq_true_iff_eq. rewrite same_number_to_key.
  unfold key_eqb. now rewrite FloatAxioms.Leibniz.eqb_spec.
Qed.

(** *** Association lists *)

Lemma assoc_get_insert_ascending (l : list (key * Z)) (k : key) (v : Z) (k' : key) :
  assoc_get (insert_ascending l k v) k'
  = if key_eqb k k' then Some v else assoc_get l k'.
Proof.
  induction l as [|[k0 v0] l IH]; simpl; [reflexivity|].
  destruct (PrimFloat.ltb k k0); simpl; [reflexivity|].
  destruct (key_eqb_spec k k0) as [->|Hne]; simpl.
  - destruct (key_eqb_spec k0 k'); reflexivity.
  - rewrite IH. destruct (key_eqb_spec k0 k') as [->|Hne'].
    + destruct (key_eqb_spec k k'); [contradiction|reflexivity].
    + reflexivity.
Qed.

Lemma keys_insert_ascending (l : list (key * Z)) (k : key) (v : Z) (x : key) :
  x ∈ (insert_ascending l k v).*1 <-> x = k \/ x ∈ l.*1.
Proof.
  induction l as [|[k0 v0] l IH]; simpl.
  - rewrite list_elem_of_singleton, elem_of_nil. tauto.
  - destruct (PrimFloat.ltb k k0); simpl.
    + rewrite !elem_of_cons. tauto.
    + destruct (key_eqb_spec k k0) as [->|Hne]; simpl.
      * rewrite !elem_of_cons. tauto.
      * rewrite !elem_of_cons, IH. tauto.
Qed.

Lemma sorted_insert_ascending (l : list (key * Z)) (k : key) (v : Z) :
  is_array_index k = true ->
  Forall (fun k' => is_array_index k' = true) l.*1 ->
  ascending l.*1 -> ascending (insert_ascending l k v).*1.
Proof.
  unfold ascending. intros Hk.
  induction l as [|[k0 v0] l IH]; simpl; intros Hidx Hs.
  - repeat constructor.
  - apply StronglySorted_inv in Hs. destruct Hs as [Hs Hall].
    apply Forall_cons in Hidx. destruct Hidx as [Hk0 Hidx].
    destruct (PrimFloat.ltb k k0) eqn:Hlt; simpl.
    + constructor; [constructor; assumption|].
      constructor; [assumption|].
      eapply Forall_impl; [exact Hall|]. simpl. intros x Hx.
      now apply (key_ltb_trans k k0 x).
    + destruct (key_eqb_spec k k0) as [->|Hne]; simpl.
      * constructor; assumption.
      * constructor; [now apply IH|].
        apply Forall_forall. intros x Hx.
        apply keys_insert_ascending in Hx. destruct Hx as [->|Hx].
        -- apply index_trichotomy; assumption.
        -- exact (proj1 (Forall_forall _ _) Hall x Hx).
Qed.

Lemma assoc_get_update_or_append (l : list (key * Z)) (k : key) (v : Z) (k' : key) :
  assoc_get (update_or_append l k v) k'
  = if key_eqb k k' then Some v else assoc_get l k'.
Proof.
  induction l as [|[k0 v0] l IH]; simpl; [reflexivity|].
  destruct (key_eqb_spec k k0) as [->|Hne]; simpl.
  - destruct (key_eqb_spec k0 k'); reflexivity.
  - rewrite IH. destruct (key_eqb_spec k0 k') as [->|Hne'].
    + destruct (key_eqb_spec k k'); [contradiction|reflexivity].
    + reflexivity.
Qed.

Lemma keys_update_or_append (l : list (key * Z)) (k : key) (v : Z) :
  (update_or_append l k v).*1 = if decide (k ∈ l.*1) then l.*1 else l.*1 ++ [k].
Proof.
  induction l as [|[k0 v0] l IH]; csimpl; [reflexivity|].
  destruct (key_eqb_spec k k0) as [->|Hne]; csimpl.
  - rewrite decide_True by left. reflexivity.
  - rewrite IH. destruct (decide (k ∈ l.*1)) as [Hin|Hnin].
    + rewrite decide_True by now right. reflexivity.
    + rewrite decide_False; [reflexivity|].
      intros Hin. apply elem_of_cons in Hin. destruct Hin as [->|Hin]; contradiction.
Qed.

Lemma assoc_get_is_Some (l : list (key * Z)) (k : key) :
  is_Some (assoc_get l k) <-> k ∈ l.*1.
Proof.
  induction l as [|[k0 v0] l IH]; simpl.
  - rewrite elem_of_nil. split; [intros [x Hx]; discriminate|tauto].
  - rewrite elem_of_cons. destruct (key_eqb_spec k0 k) as [->|Hne].
    + split; [auto|]. intros _. now exists v0.
    + rewrite IH. split; [auto|]. intros [->|H]; [contradiction|assumption].
Qed.

Lemma assoc_get_elem_of (l : list (key * Z)) (k : key) (v : Z) :
  NoDup l.*1 -> (k, v) ∈ l <-> assoc_get l k = Some v.
Proof.
  induction l as [|[k0 v0] l IH]; simpl; intros Hnd.
  - rewrite elem_of_nil. split; [tauto|discriminate].
  - apply NoDup_cons in Hnd. destruct Hnd as [Hk0 Hnd].
    rewrite elem_of_cons. destruct (key_eqb_spec k0 k) as [->|Hne].
    + split.
      * intros [[= ->]|Hin]; [reflexivity|].
        exfalso. apply Hk0. apply list_elem_of_fmap. exists (k, v). now split.
      * intros [= ->]. now left.
    + rewrite <- (IH Hnd). split; [|auto].
      intros [[= -> ->]|Hin]; [contradiction|assumption].
Qed.

(** *** The frequency table *)

Lemma object_get_set (o : object) (k : key) (v : Z) (k' : key) :
  object_get (object_set o k v) k'
  = if key_eqb k k' then Some v else object_get o k'.
Proof.
  unfold object_get, object_set.
  destruct (key_eqb_spec k k') as [->|Hne].
  - destruct (is_array_index k'); simpl.
    + rewrite assoc_get_insert_ascending.
      now destruct (key_eqb_spec k' k').
    + rewrite assoc_get_update_or_append.
      now destruct (key_eqb_spec k' k').
  - destruct (is_array_index k) eqn:Ek, (is_array_index k') eqn:Ek'; simpl;
      try reflexivity.
    + rewrite assoc_get_insert_ascending.
      destruct (key_eqb_spec k k'); [contradiction|reflexivity].
    + rewrite assoc_get_update_or_append.
      destruct (key_eqb_spec k k'); [contradiction|reflexivity].
Qed.

Lemma well_formed_set (o : object) (k : key) (v : Z) :
  well_formed o -> well_formed (object_set o k v).
Proof.
  intros (Hs & Hi & Hn & Hnd). unfold object_set.
  destruct (is_array_index k) eqn:Ek; repeat split; simpl; try assumption.
  - now apply sorted_insert_ascending.
  - apply Forall_forall. intros x Hx. apply keys_insert_ascending in Hx.
    destruct Hx as [->|Hx]; [assumption|].
    exact (proj1 (Forall_forall _ _) Hi x Hx).
  - rewrite keys_update_or_append. destruct (decide (k ∈ (named o).*1)); [assumption|].
    apply Forall_app. split; [assumption|]. now repeat constructor.
  - rewrite keys_update_or_append. destruct (decide (k ∈ (named o).*1)); [assumption|].
    apply NoDup_app. split; [assumption|]. split; [|apply NoDup_singleton].
    intros x Hx Hx'. apply list_elem_of_singleton in Hx'. now subst.
Qed.

Lemma or_zero_default (x : option Z) : or_zero x = default 0 x.
Proof.
  destruct x as [c|]; simpl; [|reflexivity].
  destruct (Z.eqb_spec c 0); congruence.
Qed.

Lemma tally_count_number (o : object) (x : float) (k : key) :
  tally (count_number o x) k
  = tally o k + (if key_eqb (to_key x) k then 1 else 0).
Proof.
  unfold tally, count_number. rewrite object_get_set, or_zero_default.
  destruct (key_eqb_spec (to_key x) k) as [->|Hne]; simpl; lia.
Qed.

Lemma tally_fold (xs : list float) : forall (o : object) (v : float),
  tally (fold_left count_number xs o) (to_key v)
  = tally o (to_key v) + occurrences v xs.
Proof.
  induction xs as [|x xs IH]; intros o v; simpl; [lia|].
  rewrite IH, tally_count_number, same_number_key. lia.
Qed.

Lemma well_formed_fold (xs : list float) : forall o : object,
  well_formed o -> well_formed (fold_left count_number xs o).
Proof.
  induction xs as [|x xs IH]; intros o Ho; simpl; [assumption|].
  apply IH. now apply well_formed_set.
Qed.

Lemma indexed_keys_fold (xs : list float) : forall (o : object) (k : key),
  k ∈ (indexed (fold_left count_number xs o)).*1
  <-> k ∈ (indexed o).*1 \/ (k ∈ to_key <$> xs /\ is_array_index k = true).
Proof.
  induction xs as [|x xs IH]; intros o k; simpl.
  - rewrite elem_of_nil. tauto.
  - rewrite IH, elem_of_cons. unfold count_number, object_set.
    destruct (is_array_index (to_key x)) eqn:Ex; simpl.
    + rewrite keys_insert_ascending. split.
      * intros [[->|H]|[H1 H2]]; auto.
      * intros [H|[[->|H1] H2]]; auto.
    + split.
      * intros [H|[H1 H2]]; auto.
      * intros [H|[[->|H1] H2]]; auto. congruence.
Qed.

Lemma named_keys_fold (xs : list float) : forall o : object,
  (named (fold_left count_number xs o)).*1
  = first_encounters_from (named o).*1
      (filter (fun k => is_array_index k = false) (to_key <$> xs)).
Proof.
  induction xs as [|x xs IH]; intros o; simpl; [reflexivity|].
  rewrite IH. unfold count_number at 1, object_set.
  destruct (is_array_index (to_key x)) eqn:Ex; simpl.
  - rewrite filter_cons_False by congruence. reflexivity.
  - rewrite filter_cons_True by assumption.
    rewrite keys_update_or_append. reflexivity.
Qed.

(** *** [Math.max] *)

Lemma math_max_from (vs : list Z) : forall a : Z,
  exists m, fold_left (fun acc v => match acc with
                                    | MinusInfinity => MaxIs v
                                    | MaxIs m => MaxIs (Z.max m v)
                                    end) vs (MaxIs a) = MaxIs m /\
            (m = a \/ m ∈ vs) /\ a <= m /\ forall v, v ∈ vs -> v <= m.
Proof.
  induction vs as [|x vs IH]; intros a; simpl.
  - exists a. repeat split; auto; [lia|]. intros v Hv. now apply elem_of_nil in Hv.
  - destruct (IH (Z.max a x)) as (m & Hm & Hin & Hle & Hall).
    exists m. split; [assumption|]. split; [|split].
    + destruct Hin as [->|Hin].
      * destruct (Z.max_spec a x) as [[_ ->]|[_ ->]]; [right; left|now left].
      * right. now right.
    + lia.
    + intros v Hv. apply elem_of_cons in Hv. destruct Hv as [->|Hv]; [lia|auto].
Qed.

Lemma math_max_spec (vs : list Z) :
  vs <> [] ->
  exists m, math_max vs = MaxIs m /\ m ∈ vs /\ forall v, v ∈ vs -> v <= m.
Proof.
  destruct vs as [|x vs]; [contradiction|]. intros _.
  unfold math_max. simpl.
  destruct (math_max_from vs x) as (m & Hm & Hin & Hle & Hall).
  exists m. split; [assumption|]. split.
  - destruct Hin as [->|Hin]; [left|now right].
  - intros v Hv. apply elem_of_cons in Hv. destruct Hv as [->|Hv]; [lia|auto].
Qed.

(** *** Occurrences *)

Lemma occurrences_nonneg (v : float) (xs : list float) : 0 <= occurrences v xs.
Proof.
  induction xs as [|x xs IH]; simpl; [lia|]. destruct (same_number x v); lia.
Qed.

Lemma occurrences_same_key (v w : float) (xs : list float) :
  to_key v = to_key w -> occurrences v xs = occurrences w xs.
Proof.
  intros Hkey. induction xs as [|x xs IH]; simpl; [reflexivity|].
  now rewrite IH, !same_number_key, Hkey.
Qed.

Lemma occurrences_to_key (v : float) (xs : list float) :
  occurrences (to_key v) xs = occurrences v xs.
Proof. apply occurrences_same_key, to_key_idempotent. Qed.

Lemma occurrences_pos (v : float) (xs : list float) :
  0 < occurrences v xs <-> to_key v ∈ to_key <$> xs.
Proof.
  induction xs as [|x xs IH]; simpl.
  - rewrite elem_of_nil. lia.
  - rewrite elem_of_cons. pose proof (occurrences_nonneg v xs).
    destruct (same_number x v) eqn:E.
    + apply same_number_to_key in E. split; [auto|lia].
    + split.
      * intros H0. right. apply IH. lia.
      * intros [Heq|Hin].
        -- symmetry in Heq. apply same_number_to_key in Heq. congruence.
        -- apply IH in Hin. lia.
Qed.

Lemma is_mode_spec (xs : list float) (v : float) :
  is_mode xs v = true <-> forall w, w ∈ xs -> occurrences w xs <= occurrences v xs.
Proof.
  unfold is_mode. rewrite forallb_forall. split.
  - intros H w Hw. apply Z.leb_le. apply H. now apply list_elem_of_In.
  - intros H w Hw. apply Z.leb_le. apply H. now apply list_elem_of_In.
Qed.

(** *** The table built by [mode] *)

Lemma ascending_NoDup (l : list float) : ascending l -> NoDup l.
Proof.
  induction 1 as [|x l Hs IH Hall]; [constructor|].
  apply NoDup_cons. split; [|assumption].
  intros Hin. pose proof (proj1 (Forall_forall _ _) Hall x Hin) as Hlt.
  simpl in Hlt. rewrite key_ltb_irrefl in Hlt. discriminate.
Qed.

Lemma elem_of_first_encounters_from (ys : list float) :
  forall (seen : list float) (k : float),
  k ∈ first_encounters_from seen ys <-> k ∈ seen \/ k ∈ ys.
Proof.
  unfold first_encounters_from.
  induction ys as [|y ys IH]; intros seen k; simpl.
  - rewrite elem_of_nil. tauto.
  - rewrite IH, elem_of_cons. destruct (decide (y ∈ seen)) as [Hy|Hy].
    + split; [tauto|]. intros [H|[->|H]]; auto.
    + rewrite elem_of_app, list_elem_of_singleton. tauto.
Qed.

Lemma to_key_fixed (xs : list float) (k : key) :
  k ∈ to_key <$> xs -> to_key k = k.
Proof.
  intros Hk. apply list_elem_of_fmap in Hk. destruct Hk as (x & -> & _).
  apply to_key_idempotent.
Qed.

Section Frequency.
Variable xs : list float.
#[local] Abbreviation frequency := (frequency_table xs).
#[local] Abbreviation keys := (to_key <$> xs).

Lemma frequency_well_formed : well_formed frequency.
Proof.
  unfold frequency_table. apply well_formed_fold. repeat split; simpl; constructor.
Qed.

Lemma frequency_tally (k : key) :
  k ∈ keys -> tally frequency k = occurrences k xs.
Proof.
  intros Hk. rewrite <- (to_key_fixed xs k Hk) at 1.
  unfold frequency_table. rewrite tally_fold.
  unfold tally, object_get. simpl. now destruct (is_array_index (to_key k)).
Qed.

Lemma frequency_indexed (k : key) :
  k ∈ (indexed frequency).*1 <-> k ∈ keys /\ is_array_index k = true.
Proof.
  unfold frequency_table. rewrite indexed_keys_fold. simpl. rewrite elem_of_nil. tauto.
Qed.

Lemma frequency_named :
  (named frequency).*1
  = first_encounters (filter (fun k => is_array_index k = false) keys).
Proof.
  unfold frequency_table. now rewrite named_keys_fold.
Qed.

Lemma frequency_named_elem (k : key) :
  k ∈ (named frequency).*1 <-> k ∈ keys /\ is_array_index k = false.
Proof.
  rewrite frequency_named. unfold first_encounters.
  rewrite elem_of_first_encounters_from, elem_of_nil, list_elem_of_filter. tauto.
Qed.

Lemma frequency_keys (k : key) : k ∈ object_keys frequency <-> k ∈ keys.
Proof.
  unfold object_keys.
  rewrite elem_of_app, frequency_indexed, frequency_named_elem.
  destruct (is_array_index k); split; intros; tauto || (try (right; split; tauto)); auto.
Qed.

Lemma frequency_get (k : key) :
  k ∈ keys -> object_get frequency k = Some (occurrences k xs).
Proof.
  intros Hk. rewrite <- (frequency_tally k Hk). unfold tally.
  assert (Hsome : is_Some (object_get frequency k)).
  { unfold object_get. destruct (is_array_index k) eqn:Ek.
    - apply assoc_get_is_Some, frequency_indexed. auto.
    - apply assoc_get_is_Some, frequency_named_elem. auto. }
  destruct Hsome as [c ->]. reflexivity.
Qed.

Lemma frequency_keys_NoDup : NoDup (object_keys frequency).
Proof.
  destruct frequency_well_formed as (Hs & Hi & Hn & Hnd).
  unfold object_keys. apply NoDup_app. split; [now apply ascending_NoDup|].
  split; [|assumption].
  intros k Hk Hk'.
  pose proof (proj1 (Forall_forall _ _) Hi k Hk) as H1.
  pose proof (proj1 (Forall_forall _ _) Hn k Hk') as H2.
  simpl in H1, H2. congruence.
Qed.

Lemma frequency_values (v : Z) :
  v ∈ object_values frequency <-> exists k, k ∈ keys /\ v = occurrences k xs.
Proof.
  destruct frequency_well_formed as (Hs & Hi & Hn & Hnd).
  unfold object_values. rewrite elem_of_app, !list_elem_of_fmap. split.
  - intros [([k c] & -> & Hin)|([k c] & -> & Hin)]; simpl; exists k.
    + assert (Hk : k ∈ (indexed frequency).*1).
      { apply list_elem_of_fmap. exists (k, c). now split. }
      apply frequency_indexed in Hk. destruct Hk as [Hk Hclass].
      split; [assumption|].
      apply assoc_get_elem_of in Hin; [|now apply ascending_NoDup].
      pose proof (frequency_get k Hk) as Hget. unfold object_get in Hget.
      rewrite Hclass in Hget. congruence.
    + assert (Hk : k ∈ (named frequency).*1).
      { apply list_elem_of_fmap. exists (k, c). now split. }
      apply frequency_named_elem in Hk. destruct Hk as [Hk Hclass].
      split; [assumption|].
      apply assoc_get_elem_of in Hin; [|assumption].
      pose proof (frequency_get k Hk) as Hget. unfold object_get in Hget.
      rewrite Hclass in Hget. congruence.
  - intros (k & Hk & ->).
    pose proof (frequency_get k Hk) as Hget. unfold object_get in Hget.
    destruct (is_array_index k) eqn:Ek.
    + left. exists (k, occurrences k xs). split; [reflexivity|].
      apply assoc_get_elem_of; [now apply ascending_NoDup|assumption].
    + right. exists (k, occurrences k xs). split; [reflexivity|].
      apply assoc_get_elem_of; assumption.
Qed.

(** [mode] keeps the keys of the table that occur most often. *)
Lemma mode_filter :
  xs <> [] ->
  mode xs = filter (fun k => is_mode xs k = true) (object_keys frequency).
Proof.
  intros Hne. unfold mode.
  destruct (Nat.eqb_spec (length xs) 0) as [Hlen|_].
  { now apply nil_length_inv in Hlen. }
  fold (frequency_table xs).
  change Number_of_key with (@Datatypes.id float). rewrite list_fmap_id.
  assert (Hx : exists x0, x0 ∈ xs).
  { destruct xs as [|x0 xs0]; [contradiction|]. exists x0. left. }
  destruct Hx as [x0 Hx0].
  assert (Hkey : forall w, w ∈ xs -> to_key w ∈ keys).
  { intros w Hw. apply list_elem_of_fmap. now exists w. }
  destruct (math_max_spec (object_values frequency)) as (m & -> & Hm & Hmax).
  { intros Hnil.
    assert (Hin : occurrences (to_key x0) xs ∈ object_values frequency).
    { apply frequency_values. exists (to_key x0). auto. }
    rewrite Hnil in Hin. now apply elem_of_nil in Hin. }
  apply frequency_values in Hm. destruct Hm as (km & Hkm & ->).
  apply filter_ext_elem. intros k Hk. apply frequency_keys in Hk.
  rewrite (frequency_get k Hk). simpl. rewrite Z.eqb_eq, is_mode_spec.
  split.
  - intros Heq w Hw. rewrite Heq, <- (occurrences_to_key w). apply Hmax.
    apply frequency_values. exists (to_key w). auto.
  - intros Hall. apply Z.le_antisymm.
    + apply Hmax. apply frequency_values. now exists k.
    + apply list_elem_of_fmap in Hkm. destruct Hkm as (w & -> & Hw).
      rewrite occurrences_to_key. now apply Hall.
Qed.

End Frequency.

(** C9, as the program behaves: on a non-empty sequence of numbers, [mode]
    returns each value whose number of occurrences is the maximum, once.
    The values are counted and returned as the numbers their property keys
    print: -0 is counted with 0 and returned as 0, and [NaN] is one value.
    The values that are array indices (the integers from 0 to 2^32 - 2) come
    first, in ascending order, and the other values follow in the order of
    their first encounter.  [mode([])] is empty and
    [mode([1,2,2,3,4,4,4,5])] is [4]. *)
Theorem mode_spec (xs : list float) :
  mode [] = [] /\
  mode [1; 2; 2; 3; 4; 4; 4; 5]%float = [4]%float /\
  (xs <> [] ->
   (forall v, v ∈ mode xs <->
      v ∈ to_key <$> xs /\
      forall w, occurrences w xs <= occurrences v xs) /\
   NoDup (mode xs) /\
   exists indices,
     ascending indices /\
     (forall v, v ∈ indices <-> v ∈ to_key <$> xs /\ is_array_index v = true) /\
     mode xs
     = filter (fun v => is_mode xs v = true)
         (indices
          ++ first_encounters
               (filter (fun v => is_array_index v = false) (to_key <$> xs)))).
Proof.
  split; [reflexivity|]. split; [vm_compute; reflexivity|]. intros Hne.
  rewrite (mode_filter xs Hne). split; [|split].
  - intros v. rewrite list_elem_of_filter, frequency_keys, is_mode_spec.
    split.
    + intros [Hall Hv]. split; [assumption|]. intros w.
      destruct (decide (to_key w ∈ to_key <$> xs)) as [Hw|Hw].
      * apply list_elem_of_fmap in Hw. destruct Hw as (x & Hkey & Hx).
        rewrite (occurrences_same_key w x xs Hkey). now apply Hall.
      * assert (H0 : ~ 0 < occurrences w xs) by now rewrite occurrences_pos.
        pose proof (occurrences_nonneg w xs). pose proof (occurrences_nonneg v xs). lia.
    + intros [Hv Hall]. split; [|assumption]. intros w _. apply Hall.
  - apply NoDup_filter, frequency_keys_NoDup.
  - exists (indexed (frequency_table xs)).*1.
    split; [apply frequency_well_formed|]. split; [apply frequency_indexed|].
    unfold object_keys. now rewrite frequency_named.
Qed.

Lemma mode_spec_witness :
  mode [0.5; 7; 0.5; -0; 7; 0]%float = [0; 7; 0.5]%float /\
  NoDup (mode [0.5; 7; 0.5; -0; 7; 0]%float) /\
  (forall v, v ∈ mode [0.5; 7; 0.5; -0; 7; 0]%float ->
             occurrences 7 [0.5; 7; 0.5; -0; 7; 0]%float
             <= occurrences v [0.5; 7; 0.5; -0; 7; 0]%float).
Proof.
  split; [vm_compute; reflexivity|].
  destruct (proj2 (proj2 (mode_spec [0.5; 7; 0.5; -0; 7; 0]%float)))
    as (Hmodes & Hnodup & _); [discriminate|].
  split; [exact Hnodup|].
  intros v Hv. apply Hmodes in Hv. apply Hv.
Defined.

(** C9, as stated, fails in its order: the modes of [-1, 1, 0] are returned
    as [0, 1, -1], which is neither the order of first encounter nor
    ascending order.  It also fails under the equality of numbers, for which
    [NaN] differs from itself and so occurs nowhere: the mode of
    [NaN, NaN, 1] is [NaN], not 1. *)
Lemma mode_order_mixed :
  mode [-1; 1; 0]%float = [0; 1; -1]%float /\
  mode [-1; 1; 0]%float
  <> filter (fun v => is_mode [-1; 1; 0]%float v = true)
            (first_encounters [-1; 1; 0]%float) /\
  ~ StronglySorted (fun a b => PrimFloat.leb a b = true) (mode [-1; 1; 0]%float) /\
  mode [nan; nan; 1]%float = [nan] /\
  PrimFloat.eqb nan nan = false.
Proof.
  split; [vm_compute; reflexivity|]. split; [vm_compute; discriminate|].
  split; [|split; vm_compute; reflexivity].
  intros Hs. change (mode [-1; 1; 0]%float) with [0; 1; -1]%float in Hs.
  apply StronglySorted_inv in Hs. destruct Hs as [_ Hall].
  apply Forall_cons in Hall. destruct Hall as [_ Hall].
  apply Forall_cons in Hall. destruct Hall as [Hle _]. discriminate Hle.
Qed.

End ModeFacts.
